(** * merger.py: merging read-count shelves into a wssd_out_file

    A shallow embedding of [merger.py] and the properties of its loaders
    (batch, live, per contig) and of its two HDF5 writers.

    Conventions of the embedding:
    - a numpy array of counts is a record of its shape and its rows; counts
      are unsigned 32-bit integers, the atom ([tables.UInt32Atom]) of the
      arrays of the output file, and arithmetic on them wraps modulo 2^32;
    - a Python [dict] is an association list in insertion order;
    - a Python [set] of paths is a [gset string];
    - effects (the shelves on disk, what is printed, sleeping) are threaded
      through a state and exception monad [M];
    - the two polling loops need not terminate: they take a number of rounds
      as fuel and answer [OutOfFuel] when it is used up. *)

From stdpp Require Import base gmap strings list pretty.
From Stdlib Require Import ZArith Lia Ascii.

(** ** Exceptions and results *)

Inductive exn : Type :=
  | SystemExit (code : Z)
  | TypeError
  | ValueError
  | AttributeError
  | IndexError
  | KeyError (key : string)
  | DbmError (msg : string)
  | NoSuchNodeError
  | NodeError.

Inductive result (A : Type) : Type :=
  | Ok (a : A)
  | Raise (e : exn)
  | OutOfFuel.
Arguments Ok {A} a.
Arguments Raise {A} e.
Arguments OutOfFuel {A}.

(** ** numpy arrays of counts *)

Definition wrap32 (x : Z) : Z := (x mod 2 ^ 32)%Z.

Record ndarray : Type := NdArray
  { nrows : nat; ncols : nat; rows : list (list Z) }.

Definition nd_get (m : ndarray) (i j : nat) : Z := nth j (nth i (rows m) []) 0%Z.

(** The record describes an array when the rows agree with the shape. *)
Definition is_ndarray (m : ndarray) : Prop :=
  length (rows m) = nrows m ∧ Forall (λ r, length r = ncols m) (rows m).

(** Every count fits the unsigned 32-bit atom. *)
Definition is_uint32 (m : ndarray) : Prop :=
  Forall (Forall (λ x, 0 ≤ x < 2 ^ 32)%Z) (rows m).

(** [tabulate r c f] is the array of shape [(r, c)] holding [f i j] at [i, j]. *)
Definition tabulate (r c : nat) (f : nat → nat → Z) : ndarray :=
  {| nrows := r; ncols := c;
     rows := map (λ i, map (λ j, f i j) (seq 0 c)) (seq 0 r) |}.

(** numpy broadcasting of [b] to the shape [(r, c)]: a dimension of [b] is
    that of the target, or it is 1 and its only index is used throughout. *)
Definition broadcasts_to (r c : nat) (b : ndarray) : bool :=
  (Nat.eqb (nrows b) r || Nat.eqb (nrows b) 1)
  && (Nat.eqb (ncols b) c || Nat.eqb (ncols b) 1).

Definition bget (b : ndarray) (i j : nat) : Z :=
  nd_get b (if Nat.eqb (nrows b) 1 then 0 else i)
           (if Nat.eqb (ncols b) 1 then 0 else j).

(** [a += b]: [b] is broadcast to the shape of [a], which does not change;
    a [b] that does not broadcast to it is a [ValueError]. *)
Definition iadd (a b : ndarray) : result ndarray :=
  if broadcasts_to (nrows a) (ncols a) b then
    Ok (tabulate (nrows a) (ncols a)
          (λ i j, wrap32 (nd_get a i j + bget b i j)))
  else Raise ValueError.

(** [m.T] *)
Definition transpose (m : ndarray) : ndarray :=
  tabulate (ncols m) (nrows m) (λ i j, nd_get m j i).

(** [m[:, a:]] and [m[:, 0:b]] *)
Definition cols_from (a : nat) (m : ndarray) : ndarray :=
  {| nrows := nrows m; ncols := ncols m - a; rows := map (drop a) (rows m) |}.

Definition cols_upto (b : nat) (m : ndarray) : ndarray :=
  {| nrows := nrows m; ncols := Nat.min b (ncols m); rows := map (take b) (rows m) |}.

(** ** scipy sparse matrices, in coordinate form *)

Record sparse : Type := Sparse
  { s_nrows : nat; s_ncols : nat; s_entries : list (nat * nat * Z) }.

Definition sparse_at (s : sparse) (i j : nat) : Z :=
  foldr (λ '(i', j', v) acc,
           if Nat.eqb i' i && Nat.eqb j' j then wrap32 (v + acc) else acc)
        0%Z (s_entries s).

(** [s.toarray()] *)
Definition toarray (s : sparse) : ndarray :=
  tabulate (s_nrows s) (s_ncols s) (sparse_at s).

(** What a shelf can hold under a key. *)
Inductive value : Type :=
  | VNdarray (a : ndarray)
  | VSparse (s : sparse)
  | VObject (class_name : string).

Definition issparse (v : value) : bool :=
  match v with VSparse _ => true | _ => false end.

(** [matrix.toarray()] on a value that is sparse. *)
Definition value_toarray (v : value) : value :=
  match v with
  | VSparse s => VNdarray (toarray s)
  | _ => v
  end.

(** [matrix.__class__.__name__] *)
Definition class_name_of (v : value) : string :=
  match v with
  | VNdarray _ => "ndarray"
  | VSparse _ => "spmatrix"
  | VObject c => c
  end.

(** ** Dictionaries in insertion order *)

Abbreviation dict V := (list (string * V)).

Fixpoint dict_get {V} (k : string) (d : dict V) : option V :=
  match d with
  | [] => None
  | (k', v) :: d' => if String.eqb k' k then Some v else dict_get k d'
  end.

(** [d[k] = v]: a present key keeps its place, a new one goes last. *)
Fixpoint dict_set {V} (k : string) (v : V) (d : dict V) : dict V :=
  match d with
  | [] => [(k, v)]
  | (k', v') :: d' =>
      if String.eqb k' k then (k', v) :: d' else (k', v') :: dict_set k v d'
  end.

Definition dict_keys {V} (d : dict V) : list string := map fst d.

(** ** The world: shelves on disk and what the process has done *)

(** A shelf on disk holds its items, or cannot be opened ([dbm.error]). *)
Inductive shelf : Type :=
  | Shelf (items : dict value)
  | Unreadable (msg : string).

Inductive open_flag : Type := FlagR | FlagC.

Inductive event : Type :=
  | Stdout (line : string)
  | Stderr (line : string)
  | Sleep (seconds : Z)
  | ShelveOpen (path : string) (flag : open_flag) (ok : bool)
  | ShelveClose (path : string).

Record world : Type := World
  { w_fs : gmap string shelf; w_log : list event }.

Definition M (A : Type) : Type := world → world * result A.

Definition ret {A} (a : A) : M A := λ w, (w, Ok a).

Definition raise {A} (e : exn) : M A := λ w, (w, Raise e).

Definition bind {A B} (m : M A) (k : A → M B) : M B :=
  λ w, match m w with
       | (w', Ok a) => k a w'
       | (w', Raise e) => (w', Raise e)
       | (w', OutOfFuel) => (w', OutOfFuel)
       end.

Notation "x <- m ;;; k" := (bind m (λ x, k))
  (at level 100, m at next level, right associativity).
Notation "m ;;; k" := (bind m (λ _, k))
  (at level 100, right associativity).

Definition lift {A} (r : result A) : M A := λ w, (w, r).

Definition log (e : event) (w : world) : world :=
  {| w_fs := w_fs w; w_log := w_log w ++ [e] |}.

Definition emit (e : event) : M unit := λ w, (log e w, Ok ()).

(** [sys.exit(code)] *)
Definition sys_exit {A} (code : Z) : M A := raise (SystemExit code).

(** ** convert_matrix *)

Definition convert_matrix (matrix : value) : M ndarray :=
  let matrix := if issparse matrix then value_toarray matrix else matrix in
  match matrix with
  | VNdarray a => ret a
  | _ =>
      emit (Stderr ("Error: unrecognized data type for matrix: "
                    +:+ class_name_of matrix));;;
      sys_exit 1
  end.

(** ** add_contents_to_contigs *)

(** [contigs[contig] += matrix]: what is stored may be the [None] the
    per-contig driver starts from. [None] has no addition of its own, so the
    reflected addition of numpy runs, which adds [None] to every element of
    [matrix]: a [TypeError] at the first element. A matrix without elements
    has none to add to, and the sum is the array without elements of its
    shape. *)
Definition iadd_entry (old : option ndarray) (matrix : ndarray) : M ndarray :=
  match old with
  | None =>
      if Nat.eqb (nrows matrix * ncols matrix) 0
      then ret (tabulate (nrows matrix) (ncols matrix) (λ _ _, 0%Z))
      else raise TypeError
  | Some acc => lift (iadd acc matrix)
  end.

Fixpoint add_contents_to_contigs
    (dat : dict value) (contigs : dict (option ndarray))
    : M (dict (option ndarray)) :=
  match dat with
  | [] => ret contigs
  | (contig, matrix) :: dat' =>
      matrix <- convert_matrix matrix;;;
      contigs <-
        match dict_get contig contigs with
        | None => ret (dict_set contig (Some matrix) contigs)
        | Some old =>
            sum <- iadd_entry old matrix;;;
            ret (dict_set contig (Some sum) contigs)
        end;;;
      add_contents_to_contigs dat' contigs
  end.

(** ** Shelves on disk: shelve.open and the with statement *)

(** [shelve.open(path, flag)]. A path with no shelf behind it is an error
    under flag "r"; under flag "c", the default, an empty shelf is created. *)
Definition shelve_open (path : string) (flag : open_flag) : M (dict value) :=
  λ w,
    match w_fs w !! path with
    | Some (Shelf items) => (log (ShelveOpen path flag true) w, Ok items)
    | Some (Unreadable msg) =>
        (log (ShelveOpen path flag false) w, Raise (DbmError msg))
    | None =>
        match flag with
        | FlagR =>
            (log (ShelveOpen path flag false) w,
             Raise (DbmError "need 'c' or 'n' flag to open new db"))
        | FlagC =>
            (log (ShelveOpen path flag true)
               {| w_fs := <[path := Shelf []]> (w_fs w); w_log := w_log w |},
             Ok [])
        end
    end.

(** [with shelve.open(...) as dat: body]: the shelf is closed however the
    body ends. *)
Definition closing {A} (path : string) (body : M A) : M A :=
  λ w, let '(w', r) := body w in (log (ShelveClose path) w', r).

Definition contains {V} (k : string) (d : dict V) : bool :=
  match dict_get k d with Some _ => true | None => false end.

(** [dat[key]] *)
Definition getitem {V} (d : dict V) (key : string) : M V :=
  match dict_get key d with
  | Some v => ret v
  | None => raise (KeyError key)
  end.

(** ** load_matrices_post *)

Fixpoint load_matrices_post_loop
    (i total : nat) (infiles : list string) (contigs : dict (option ndarray))
    : M (dict (option ndarray)) :=
  match infiles with
  | [] => ret contigs
  | infile :: rest =>
      dat <- shelve_open infile FlagC;;;
      contigs <-
        closing infile
          (emit (Stdout ("Loading shelve " +:+ pretty (i + 1) +:+ " of "
                         +:+ pretty total +:+ ": " +:+ infile));;;
           add_contents_to_contigs dat contigs);;;
      load_matrices_post_loop (S i) total rest contigs
  end.

Definition load_matrices_post
    (infiles : list string) (contigs : dict (option ndarray))
    : M (dict (option ndarray)) :=
  load_matrices_post_loop 0 (length infiles) infiles contigs.

(** ** load_matrices_per_contig *)

(** [list(contig)[0]] *)
Definition first_key {V} (d : dict V) : M string :=
  match d with
  | [] => raise IndexError
  | (k, _) :: _ => ret k
  end.

Fixpoint load_matrices_per_contig_loop
    (contig_name : string) (i total : nat) (infiles : list string)
    (contig : dict (option ndarray)) : M (dict (option ndarray)) :=
  match infiles with
  | [] => ret contig
  | infile :: rest =>
      dat <- shelve_open infile FlagR;;;
      matrix <-
        closing infile
          (emit (Stdout ("Contig " +:+ contig_name +:+ ": loading shelve "
                         +:+ pretty (i + 1) +:+ " of " +:+ pretty total
                         +:+ ": " +:+ infile));;;
           if contains contig_name dat then
             v <- getitem dat "contig_name";;;
             m <- convert_matrix v;;;
             ret (Some m)
           else ret None);;;
      contig <-
        match matrix with
        | None => ret contig
        | Some matrix =>
            old <- getitem contig contig_name;;;
            match old with
            | None => ret (dict_set contig_name (Some matrix) contig)
            | Some acc =>
                sum <- lift (iadd acc matrix);;;
                ret (dict_set contig_name (Some sum) contig)
            end
        end;;;
      load_matrices_per_contig_loop contig_name (S i) total rest contig
  end.

Definition load_matrices_per_contig
    (infiles : list string) (contig : dict (option ndarray))
    : M (dict (option ndarray)) :=
  contig_name <- first_key contig;;;
  load_matrices_per_contig_loop contig_name 0 (length infiles) infiles contig.

(** ** The live loaders

    While the producers are still writing, what a check of a path sees
    changes from one poll round to the next: [env round path] is what the
    check of [path] in round [round] observes, the clock ([time.time()]) and,
    when the path is a file, its modification time and the shelf behind it.
    Times are in seconds. *)

Record obs : Type := Obs
  { o_now : Z; o_file : option (Z * shelf) }.

Abbreviation environment := (nat → string → obs).

(** [os.path.isfile(infile) and time.time() - os.path.getmtime(infile) > 300] *)
Definition stable (o : obs) : bool :=
  match o_file o with
  | None => false
  | Some (mtime, _) => bool_decide (o_now o - mtime > 300)%Z
  end.

(** The body of [for infile in fileset]: the loaders differ in the line they
    print ([what]) and in how a shelf that opened is merged ([merge]). *)
Fixpoint poll_files
    (what : string)
    (merge : dict value → dict (option ndarray) → M (dict (option ndarray)))
    (env : environment) (round total : nat) (files : list string)
    (contigs : dict (option ndarray)) (processed_infiles : gset string)
    : M (dict (option ndarray) * gset string) :=
  match files with
  | [] => ret (contigs, processed_infiles)
  | infile :: rest =>
      match o_file (env round infile) with
      | Some (_, s) =>
          if stable (env round infile) then
            match s with
            | Shelf dat =>
                emit (ShelveOpen infile FlagR true);;;
                contigs <- merge dat contigs;;;
                emit (ShelveClose infile);;;
                let processed_infiles := {[infile]} ∪ processed_infiles in
                emit (Stdout ("Loaded " +:+ what +:+ " "
                              +:+ pretty (size processed_infiles) +:+ " of "
                              +:+ pretty total +:+ ": " +:+ infile));;;
                poll_files what merge env round total rest
                  contigs processed_infiles
            | Unreadable msg =>
                emit (ShelveOpen infile FlagR false);;;
                emit (Stderr ("Error: " +:+ infile +:+ ": " +:+ msg));;;
                poll_files what merge env round total rest
                  contigs processed_infiles
            end
          else
            poll_files what merge env round total rest contigs processed_infiles
      | None =>
          poll_files what merge env round total rest contigs processed_infiles
      end
  end.

(** [while len(fileset) > 0: ...; fileset -= processed_infiles; time.sleep(30)] *)
Fixpoint poll_loop
    (what : string)
    (merge : dict value → dict (option ndarray) → M (dict (option ndarray)))
    (fuel : nat) (env : environment) (round total : nat)
    (fileset processed_infiles : gset string)
    (contigs : dict (option ndarray)) : M (dict (option ndarray)) :=
  if Nat.ltb 0 (size fileset) then
    match fuel with
    | 0 => lift OutOfFuel
    | S fuel' =>
        polled <-
          poll_files what merge env round total (elements fileset)
            contigs processed_infiles;;;
        let '(contigs, processed_infiles) := polled in
        let fileset := fileset ∖ processed_infiles in
        emit (Sleep 30);;;
        poll_loop what merge fuel' env (S round) total
          fileset processed_infiles contigs
    end
  else ret contigs.

Definition load_matrices_live
    (fuel : nat) (env : environment)
    (infiles : list string) (contigs : dict (option ndarray))
    : M (dict (option ndarray)) :=
  let fileset : gset string := list_to_set infiles in
  let total_infiles := size fileset in
  poll_loop "pickle" add_contents_to_contigs
    fuel env 0 total_infiles fileset ∅ contigs.

(** [if contig_name in dat: contig = add_contents_to_contigs(dat, contig)] *)
Definition merge_if_contains (contig_name : string)
    (dat : dict value) (contig : dict (option ndarray))
    : M (dict (option ndarray)) :=
  if contains contig_name dat then add_contents_to_contigs dat contig
  else ret contig.

Definition load_matrices_per_contig_live
    (fuel : nat) (env : environment)
    (infiles : list string) (contig : dict (option ndarray))
    : M (dict (option ndarray)) :=
  contig_name <- first_key contig;;;
  let fileset : gset string := list_to_set infiles in
  let total_infiles := size fileset in
  poll_loop "shelve" (merge_if_contains contig_name)
    fuel env 0 total_infiles fileset ∅ contig.

(** ** The HDF5 files

    A file holds groups under its root, a group holds arrays by name. A
    [tables.CArray] has three dimensions here and is indexed [i, j, k]. *)

Record carray : Type := CArray
  { c_shape : nat * nat * nat; c_data : list (list (list Z)) }.

Definition c_get (a : carray) (i j k : nat) : Z :=
  nth k (nth j (nth i (c_data a) []) []) 0%Z.

(** A new array reads as the default of its atom, 0, everywhere. *)
Definition zeros (shape : nat * nat * nat) : carray :=
  let '(d1, d2, d3) := shape in
  {| c_shape := shape;
     c_data := replicate d1 (replicate d2 (replicate d3 0%Z)) |}.

(** [a[:, :, k] = src]: [src] is broadcast to the first two dimensions and
    stored as unsigned 32-bit integers. *)
Definition set_channel (k : nat) (src : ndarray) (a : carray) : result carray :=
  let '(d1, d2, d3) := c_shape a in
  if Nat.ltb k d3 then
    if broadcasts_to d1 d2 src then
      Ok {| c_shape := c_shape a;
            c_data :=
              imap (λ i plane,
                      imap (λ j cell, <[k := wrap32 (bget src i j)]> cell) plane)
                   (c_data a) |}
    else Raise ValueError
  else Raise IndexError.

Record h5file : Type := H5File
  { h5_root : dict (dict carray); h5_dirty : bool }.

Definition group_name : string := "depthAndStarts_wssd".

(** The array [name] of the group, if the file has one. *)
Definition h5_array (f : h5file) (name : string) : option carray :=
  match dict_get group_name (h5_root f) with
  | Some g => dict_get name g
  | None => None
  end.

(** [fout.create_group(fout.root, "depthAndStarts_wssd")] *)
Definition create_group (f : h5file) : h5file :=
  {| h5_root := dict_set group_name [] (h5_root f); h5_dirty := true |}.

(** [try: fout.get_node(...) except NoSuchNodeError: fout.create_group(...)] *)
Definition get_or_create_group (f : h5file) : h5file :=
  match dict_get group_name (h5_root f) with
  | Some _ => f
  | None => create_group f
  end.

(** [tables.CArray(group, name, tables.UInt32Atom(), shape, filters=...)]:
    PyTables refuses a shape with a dimension of 0 and a name the group
    already has. *)
Definition create_carray (name : string) (shape : nat * nat * nat) (f : h5file)
    : result h5file :=
  let '(d1, d2, d3) := shape in
  if Nat.eqb d1 0 || Nat.eqb d2 0 || Nat.eqb d3 0 then Raise ValueError
  else
    match dict_get group_name (h5_root f) with
    | None => Raise NoSuchNodeError
    | Some g =>
        if contains name g then Raise NodeError
        else Ok {| h5_root :=
                     dict_set group_name (dict_set name (zeros shape) g) (h5_root f);
                   h5_dirty := true |}
    end.

(** [carray[:, :, k] = src] on the array [name] of the group. *)
Definition carray_setitem (name : string) (k : nat) (src : ndarray) (f : h5file)
    : result h5file :=
  match dict_get group_name (h5_root f) with
  | None => Raise NoSuchNodeError
  | Some g =>
      match dict_get name g with
      | None => Raise NoSuchNodeError
      | Some a =>
          match set_channel k src a with
          | Ok a' =>
              Ok {| h5_root := dict_set group_name (dict_set name a' g) (h5_root f);
                    h5_dirty := true |}
          | Raise e => Raise e
          | OutOfFuel => OutOfFuel
          end
      end
  end.

(** [fout.flush()] *)
Definition flush (f : h5file) : h5file :=
  {| h5_root := h5_root f; h5_dirty := false |}.

(** [wssd.list_nodes("/depthAndStarts_wssd")] *)
Definition list_nodes (f : h5file) : result (dict carray) :=
  match dict_get group_name (h5_root f) with
  | Some g => Ok g
  | None => Raise NoSuchNodeError
  end.

(** ** write_to_h5 *)

Fixpoint write_to_h5_loop
    (i : nat) (counts : dict (option ndarray)) (fout : h5file) : M h5file :=
  match counts with
  | [] => ret fout
  | (contig, matrix) :: rest =>
      emit (Stdout ("Merger: " +:+ pretty (i + 1) +:+ " Creating array for "
                    +:+ contig));;;
      (* nrows, ncols = matrix.shape *)
      matrix <- match matrix with
                | Some m => ret m
                | None => raise AttributeError
                end;;;
      let nedists := nrows matrix / 2 in
      let wssd_contig := transpose matrix in
      fout <- lift (create_carray contig (ncols matrix, nedists, 2) fout);;;
      (* Add depth counts *)
      fout <- lift (carray_setitem contig 0 (cols_from nedists wssd_contig) fout);;;
      (* Add starts *)
      fout <- lift (carray_setitem contig 1 (cols_upto nedists wssd_contig) fout);;;
      write_to_h5_loop (S i) rest (flush fout)
  end.

Definition write_to_h5 (counts : dict (option ndarray)) (fout : h5file)
    : M h5file :=
  write_to_h5_loop 0 counts (get_or_create_group fout).

(** ** write_wssd_to_h5 *)

Definition write_wssd_to_h5 (wssd fout : h5file) : M h5file :=
  let fout := get_or_create_group fout in
  nodes <- lift (list_nodes wssd);;;
  node <- match nodes with
          | n :: _ => ret n
          | [] => raise IndexError
          end;;;
  let '(name, matrix) := node in
  let '(first, second, third) := c_shape matrix in
  fout <- lift (create_carray name (first, second, third) fout);;;
  (* carray_empty = matrix: the local name is bound anew, the array that was
     created in fout is not written *)
  ret (flush fout).

(** ** What the properties are stated with *)

Definition shape (m : ndarray) : nat * nat := (nrows m, ncols m).

(** The array a stored value stands for, when it is a matrix at all. *)
Definition dense (v : value) : option ndarray :=
  match v with
  | VNdarray a => Some a
  | VSparse s => Some (toarray s)
  | VObject _ => None
  end.

(** The elementwise sum of two arrays of one shape. *)
Definition add_arrays (a b : ndarray) : ndarray :=
  tabulate (nrows a) (ncols a) (λ i j, wrap32 (nd_get a i j + nd_get b i j)).

(** A producer store: its keys are distinct and its values are matrices. *)
Definition is_store (S : dict value) : Prop :=
  NoDup (dict_keys S) ∧ Forall (λ kv, is_Some (dense kv.2)) S.

(** Two stores agree on the shape of the matrix of every region they share. *)
Definition shape_consistent (S1 S2 : dict value) : Prop :=
  ∀ r v1 v2,
    dict_get r S1 = Some v1 → dict_get r S2 = Some v2 →
    shape <$> dense v1 = shape <$> dense v2.

#[global] Instance open_flag_eq_dec : EqDecision open_flag.
Proof. solve_decision. Defined.

#[global] Instance event_eq_dec : EqDecision event.
Proof. solve_decision. Defined.

(** How often the shelf at [p] was opened and read in a log. *)
Definition reads (p : string) (evs : list event) : nat :=
  length (filter (λ e, e = ShelveOpen p FlagR true) evs).

Definition is_stderr (e : event) : Prop := ∃ line, e = Stderr line.

(** The events of one poll round: no sleep, and a shelf is opened only at a
    path that the check of this round saw as a file last modified more than
    300 seconds before. *)
Definition event_ok (env : environment) (round : nat) (e : event) : Prop :=
  match e with
  | Sleep _ => False
  | ShelveOpen p _ _ =>
      ∃ mtime s, o_file (env round p) = Some (mtime, s)
                 ∧ (o_now (env round p) - mtime > 300)%Z
  | _ => True
  end.

Definition round_ok (env : environment) (round : nat) (seg : list event) : Prop :=
  Forall (event_ok env round) seg.

(** A log made of whole poll rounds, each one followed by the sleep. *)
Inductive slept_rounds (env : environment) : nat → list event → Prop :=
  | slept_nil round : slept_rounds env round []
  | slept_round round seg rest :
      round_ok env round seg →
      slept_rounds env (S round) rest →
      slept_rounds env round (seg ++ Sleep 30 :: rest).

(** A log of poll rounds of which the last may have been cut short. *)
Inductive poll_trace (env : environment) : nat → list event → Prop :=
  | poll_trace_last round seg :
      round_ok env round seg → poll_trace env round seg
  | poll_trace_round round seg rest :
      round_ok env round seg →
      poll_trace env (S round) rest →
      poll_trace env round (seg ++ Sleep 30 :: rest).

(** An array of the output file agrees with its shape. *)
Definition is_carray (a : carray) : Prop :=
  let '(d1, d2, d3) := c_shape a in
  length (c_data a) = d1
  ∧ Forall (λ plane, length plane = d2
                     ∧ Forall (λ cell : list Z, length cell = d3) plane)
           (c_data a).

(** The layout of a region in the output file: [a] has shape [(L, B, 2)],
    channel 0 holds rows [B, 2B) of [m] transposed and channel 1 rows
    [0, B) transposed. *)
Definition wssd_layout (B L : nat) (m : ndarray) (a : carray) : Prop :=
  c_shape a = (L, B, 2)
  ∧ is_carray a
  ∧ ∀ i j, i < L → j < B →
      c_get a i j 0 = nd_get m (B + j) i ∧ c_get a i j 1 = nd_get m j i.

(** A matrix of counts of some shape [(2B, L)] that the writer accepts. *)
Definition is_region_matrix (m : ndarray) : Prop :=
  is_ndarray m ∧ is_uint32 m
  ∧ ∃ B L, shape m = (2 * B, L) ∧ 0 < B ∧ 0 < L.

(** ** Sample data *)

(** A (4, 3) matrix of ones, the one of twos, and a (4, 3) matrix of
    distinct counts. *)
Definition ones43 : ndarray :=
  NdArray 4 3 [[1; 1; 1]; [1; 1; 1]; [1; 1; 1]; [1; 1; 1]]%Z.

Definition twos43 : ndarray :=
  NdArray 4 3 [[2; 2; 2]; [2; 2; 2]; [2; 2; 2]; [2; 2; 2]]%Z.

Definition counts43 : ndarray :=
  NdArray 4 3 [[1; 2; 3]; [4; 5; 6]; [7; 8; 9]; [10; 11; 12]]%Z.

(** Nothing on disk, nothing done yet. *)
Definition world0 : world := World ∅ [].

(** One shelf holding region chr2 only, at path s1. *)
Definition disk_chr2 : gmap string shelf :=
  {[ "s1" := Shelf [("chr2", VNdarray ones43)] ]}.

(** The same with one more key, the text contig_name. *)
Definition disk_chr2_literal : gmap string shelf :=
  {[ "s1" := Shelf [("chr2", VNdarray ones43); ("contig_name", VNdarray twos43)] ]}.

(** A shelf that cannot be opened, at path s1. *)
Definition disk_unreadable : gmap string shelf :=
  {[ "s1" := Unreadable "db type could not be determined" ]}.

(** Every path is a finished shelf holding chr1, last modified 1000 seconds
    before every check. *)
Definition env_ready : environment :=
  λ _ _, Obs 1000 (Some (0%Z, Shelf [("chr1", VNdarray ones43)])).

(** Every path is a finished shelf holding chr1 and chr2. *)
Definition env_two_regions : environment :=
  λ _ _, Obs 1000 (Some (0%Z, Shelf [("chr1", VNdarray ones43);
                                     ("chr2", VNdarray counts43)])).

(** An output file with nothing in it yet. *)
Definition h5_empty : h5file := H5File [] false.

(** A finished file with the single region chr1 of shape (1, 2, 2). *)
Definition wssd_chr1 : h5file :=
  H5File [(group_name, [("chr1", CArray (1, 2, 2) [[[5; 6]; [7; 8]]]%Z)])] false.

(** The planes of an array given cell by cell. *)
Definition cells (d1 d2 : nat) (f : nat → nat → list Z) : list (list (list Z)) :=
  map (λ i, map (λ j, f i j) (seq 0 d2)) (seq 0 d1).

(** The two matrices of sample counts that [write_to_h5] lays out. *)
Definition sample_counts : dict (option ndarray) :=
  [("chr1", Some counts43); ("chr2", Some ones43)].

(** Two producer stores that share region chr1; the second holds its
    matrix of chr3 in sparse form. *)
Definition store_a : dict value :=
  [("chr1", VNdarray ones43); ("chr2", VNdarray counts43)].

Definition store_b : dict value :=
  [("chr1", VNdarray counts43); ("chr3", VSparse (Sparse 4 3 [(0, 1, 7%Z)]))].

(** ** The three merges of the script

    The script opens the output file and hands it to the writers; the file as
    it was opened is [fout], and what the writers leave is what is closed. *)

(** Lines 247 to 252, the body of the loop over the regions of the
    per-contig merge. *)
Definition main_per_contig_merge
    (outfile : string) (infiles : list string) (contig_name : string)
    (fout : h5file) : M h5file :=
  let contig_dict := [(contig_name, None)] in
  contig_dict <- load_matrices_per_contig infiles contig_dict;;;
  emit (Stdout ("Successfully opened outfile: " +:+ outfile));;;
  write_to_h5 contig_dict fout.

(** Lines 254 to 263, the merge of everything at once. *)
Definition main_merge
    (fuel : nat) (env : environment) (live_merge : bool)
    (outfile : string) (infiles : list string) (fout : h5file) : M h5file :=
  contig_dict <-
    (if live_merge then load_matrices_live fuel env infiles []
     else load_matrices_post infiles []);;;
  emit (Stdout ("Finished loading shelves. Creating h5 file: " +:+ outfile));;;
  emit (Stdout ("Successfully opened outfile: " +:+ outfile));;;
  write_to_h5 contig_dict fout.

(** Lines 269 to 272, the loop over the finished files to merge, each given
    with the file that [tables.open_file] opened at its path. *)
Fixpoint main_wssd_merge
    (wssd_files : list (string * h5file)) (fout : h5file) : M h5file :=
  match wssd_files with
  | [] => ret fout
  | (wssd_file, wssd) :: rest =>
      emit (Stdout ("Reading wssd_file: " +:+ wssd_file));;;
      fout <- write_wssd_to_h5 wssd fout;;;
      main_wssd_merge rest fout
  end.

(** ** Disks of finished shelves *)

(** The matrix [m] is one that the writer accepts and has the shape that
    [sh] gives to region [r]. *)
Definition fits (sh : string → nat * nat) (r : string) (m : ndarray) : Prop :=
  is_region_matrix m ∧ shape m = sh r.

(** Every value of the store is a matrix that fits its region. *)
Definition store_fits (sh : string → nat * nat) (S : dict value) : Prop :=
  Forall (λ kv, ∃ m, dense kv.2 = Some m ∧ fits sh kv.1 m) S.

(** The accumulator has distinct keys and a fitting matrix under each. *)
Definition acc_fits (sh : string → nat * nat) (c : dict (option ndarray)) : Prop :=
  NoDup (dict_keys c)
  ∧ Forall (λ kv, ∃ m, kv.2 = Some m ∧ fits sh kv.1 m) c.

(** Every path of [infiles] is a shelf that opens and whose store fits. *)
Definition disk_fits (sh : string → nat * nat)
    (fs : gmap string shelf) (infiles : list string) : Prop :=
  ∀ p, p ∈ infiles → ∃ S, fs !! p = Some (Shelf S) ∧ store_fits sh S.

(** Two accumulators with the same value under every key. *)
Definition acc_equiv (c1 c2 : dict (option ndarray)) : Prop :=
  ∀ r, dict_get r c1 = dict_get r c2.

(** A disk with two shelves of sample counts. *)
Definition disk_two : gmap string shelf :=
  {[ "s1" := Shelf [("chr1", VNdarray ones43); ("chr2", VNdarray counts43)];
     "s2" := Shelf [("chr1", VNdarray counts43)] ]}.

Definition sh43 : string → nat * nat := λ _, (4, 3).

(** The first array of the group of a finished file, if it has one. *)
Definition first_node (f : h5file) : option (string * carray) :=
  match dict_get group_name (h5_root f) with
  | Some (node :: _) => Some node
  | _ => None
  end.

(** All three dimensions of the array are positive. *)
Definition positive_shape (a : carray) : Prop :=
  let '(d1, d2, d3) := c_shape a in 0 < d1 ∧ 0 < d2 ∧ 0 < d3.

(** A second finished file, with the single region chr2 of shape (2, 1, 2). *)
Definition wssd_chr2 : h5file :=
  H5File [(group_name, [("chr2", CArray (2, 1, 2) [[[1; 2]]; [[3; 4]]]%Z)])] false.

(** ** Stores of one shape per region *)

(** Every path of [infiles] is a shelf that opens, with a store whose
    matrix of a region has the shape that [sh] gives the region. *)
Definition disk_shaped (sh : string → nat * nat)
    (fs : gmap string shelf) (infiles : list string) : Prop :=
  ∀ p, p ∈ infiles →
    ∃ S, fs !! p = Some (Shelf S) ∧ is_store S
         ∧ ∀ r v, dict_get r S = Some v → shape <$> dense v = Some (sh r).

(** Every value of the accumulator is a matrix of the shape of its region. *)
Definition acc_shaped (sh : string → nat * nat) (c : dict (option ndarray)) : Prop :=
  ∀ r o, dict_get r c = Some o → ∃ a, o = Some a ∧ shape a = sh r.

(** What is under [r] once the store [S] is merged into [c]. *)
Definition merged_value (S : dict value) (c : dict (option ndarray)) (r : string)
    : option (option ndarray) :=
  match dict_get r S with
  | None => dict_get r c
  | Some v =>
      match dense v, dict_get r c with
      | Some m, None => Some (Some m)
      | Some m, Some (Some acc) => Some (Some (add_arrays acc m))
      | _, _ => None
      end
  end.

(** ** Environments for the live loaders *)

(** The producers are done: every check sees the disk [fs], the clock at
    [now], and every shelf last modified at [mtime]. *)
Definition finished_disk (now mtime : Z) (fs : gmap string shelf) : environment :=
  λ _ p, Obs now ((λ s, (mtime, s)) <$> fs !! p).

(** No path is ever a file. *)
Definition env_nothing : environment := λ _ _, Obs 0 None.

(** ** The script: arguments, input paths, and the three modes *)

(** [s.replace(old, new)] for a non-empty [old]: the occurrences of [old]
    are replaced from left to right, without overlap. [skip] counts the
    characters of an occurrence still to be passed over. *)
Fixpoint replace_from (old new : string) (skip : nat) (s : string) : string :=
  match s with
  | EmptyString => EmptyString
  | String c s' =>
      match skip with
      | S k => replace_from old new k s'
      | 0 =>
          if String.prefix old s
          then new +:+ replace_from old new (String.length old - 1) s'
          else String c (replace_from old new 0 s')
      end
  end.

Definition str_replace (old new s : string) : string := replace_from old new 0 s.

(** [x.replace(".dat", "").replace(".bak", "").replace(".dir", "")] *)
Definition strip_extensions (x : string) : string :=
  str_replace ".dir" "" (str_replace ".bak" "" (str_replace ".dat" "" x)).

(** What [argparse] hands to the script. *)
Record arguments : Type := Args
  { outfile : string;
    infiles : option (list string);
    infile_glob : option string;
    live_merge : bool;
    contigs_file : option string;
    contig : option string;
    per_contig_merge : bool;
    wssd_merge : option (list string) }.

(** Lines 210 to 230: the check of the arguments and the list of regions.
    The namespace has the attributes [contigs_file] and [contig]; the script
    reads [args.contig_file], which it does not have, so in the per-contig
    mode the list is never built and the lines that would read the file of
    regions are not reached. *)
Definition main_contig_list (args : arguments) : M (list string) :=
  (if per_contig_merge args then
     match contigs_file args, contig args with
     | None, None =>
         emit (Stderr "Must specify --contigs_file or --contig for per_contig_merge");;;
         sys_exit 1
     | _, _ => ret ()
     end
   else ret ());;;
  if per_contig_merge args then
    let contig_list := match contig args with Some c => [c] | None => [] end in
    (* if args.contig_file is not None: *)
    raise AttributeError
  else ret [].

(** Lines 232 to 238: the paths as given, those that [glob.glob]
    ([glob_glob]) finds and then those of [--infiles]. *)
Definition main_infiles_given
    (glob_glob : string → list string) (args : arguments) : list string :=
  match infile_glob args with Some g => glob_glob g | None => [] end
  ++ match infiles args with Some l => l | None => [] end.

(** Lines 240 to 243: the extensions are removed and the paths made unique;
    the list of the set is taken in the order of its elements. *)
Definition main_infiles (glob_glob : string → list string) (args : arguments)
    : list string :=
  let infiles := main_infiles_given glob_glob args in
  match infiles with
  | [] => []
  | _ => elements (list_to_set (strip_extensions <$> infiles) : gset string)
  end.

(** Lines 246 to 252: the loop over the regions. *)
Fixpoint main_per_contig_loop
    (outfile : string) (infiles contig_list : list string) (fout : h5file)
    : M h5file :=
  match contig_list with
  | [] => ret fout
  | contig_name :: rest =>
      fout <- main_per_contig_merge outfile infiles contig_name fout;;;
      main_per_contig_loop outfile infiles rest fout
  end.

(** The script from line 210 on. [fout] is the output file as
    [tables.open_file] finds it, [wssd_open] the finished file it opens at a
    path, [elapsed] the whole seconds between the two readings of the clock;
    the result is the output file as the script leaves it. *)
Definition main
    (glob_glob : string → list string) (wssd_open : string → h5file)
    (fuel : nat) (env : environment) (elapsed : Z)
    (args : arguments) (fout : h5file) : M h5file :=
  contig_list <- main_contig_list args;;;
  let infiles := main_infiles glob_glob args in
  fout <-
    (if per_contig_merge args then
       main_per_contig_loop (outfile args) infiles contig_list fout
     else
       match wssd_merge args with
       | None =>
           main_merge fuel env (live_merge args) (outfile args) infiles fout
       | Some wssd_files =>
           emit (Stdout ("Successfully opened outfile: " +:+ outfile args));;;
           main_wssd_merge ((λ p, (p, wssd_open p)) <$> wssd_files) fout
       end);;;
  emit (Stdout ("Finished writing wssd_out_file in " +:+ pretty elapsed
                +:+ " seconds. Closing."));;;
  ret fout.

(** No character of the string is a dot. *)
Fixpoint no_dot (s : string) : bool :=
  match s with
  | EmptyString => true
  | String c s' => negb (Ascii.eqb c "."%char) && no_dot s'
  end.

(** The extensions of the files of a shelf, and none. *)
Definition shelf_extensions : list string := [""; ".dat"; ".bak"; ".dir"].

(** Arguments that ask for the per-contig merge of one region. *)
Definition args_per_contig : arguments :=
  Args "out.h5" (Some ["s1"]) None false None (Some "chr2") true None.

(** Arguments of a merge of everything found by a pattern. *)
Definition args_glob : arguments :=
  Args "out.h5" None (Some "shelves/*") false None None false None.

(** A directory listing: the three files of one shelf, and a second shelf
    in one file. *)
Definition glob_two (pattern : string) : list string :=
  ["s1.dat"; "s1.bak"; "s1.dir"; "s2"].

(** ** The None an accumulator may start from *)

(** The stored value is not a matrix without elements. *)
Definition has_elements (v : value) : Prop :=
  ∀ m, dense v = Some m → 0 < nrows m * ncols m.

(** The check of [p] in round [round] sees a file last modified more than
    300 seconds before, and its shelf opens, with the items [dat]. *)
Definition opens_in
    (env : environment) (round : nat) (p : string) (dat : dict value) : Prop :=
  ∃ mtime, o_file (env round p) = Some (mtime, Shelf dat)
           ∧ (o_now (env round p) - mtime > 300)%Z.

(** Every path is a shelf holding chr1 that was written 100 seconds before
    the first check; the checks are 30 seconds apart. *)
Definition env_late : environment :=
  λ round _, Obs (1000 + 30 * Z.of_nat round)
                 (Some (900%Z, Shelf [("chr1", VNdarray ones43)])).

(** ** Dictionaries *)

Lemma dict_get_set_eq {V} (k : string) (v : V) (d : dict V) :
  dict_get k (dict_set k v d) = Some v.
Proof.
  induction d as [|[k' v'] d IH]; simpl.
  - by rewrite String.eqb_refl.
  - destruct (String.eqb k' k) eqn:E; simpl; rewrite E; auto.
Qed.

Lemma dict_get_set_ne {V} (k k' : string) (v : V) (d : dict V) :
  k ≠ k' → dict_get k' (dict_set k v d) = dict_get k' d.
Proof.
  intros Hne. induction d as [|[k0 v0] d IH]; simpl.
  - destruct (String.eqb k k') eqn:E; [|done].
    apply String.eqb_eq in E. congruence.
  - destruct (String.eqb k0 k) eqn:E; simpl.
    + apply String.eqb_eq in E. subst k0.
      destruct (String.eqb k k') eqn:E'; [|done].
      apply String.eqb_eq in E'. congruence.
    + by rewrite IH.
Qed.

Lemma dict_get_Some_key {V} (k : string) (v : V) (d : dict V) :
  dict_get k d = Some v → k ∈ dict_keys d.
Proof.
  induction d as [|[k' v'] d IH]; simpl; [done|].
  destruct (String.eqb k' k) eqn:E.
  - apply String.eqb_eq in E. subst. intros _. apply list_elem_of_here.
  - intros H. apply list_elem_of_further. auto.
Qed.

Lemma dict_get_not_key {V} (k : string) (d : dict V) :
  k ∉ dict_keys d → dict_get k d = None.
Proof.
  intros Hk. destruct (dict_get k d) eqn:E; [|done].
  exfalso. eauto using dict_get_Some_key.
Qed.

Lemma contains_true {V} (k : string) (d : dict V) :
  contains k d = true ↔ is_Some (dict_get k d).
Proof.
  unfold contains. destruct (dict_get k d); split; intros H; try done.
Qed.

(** ** Arrays *)

Lemma nth_map_seq {A} (F : nat → A) (d : A) (n i : nat) :
  i < n → nth i (map F (seq 0 n)) d = F i.
Proof.
  intros Hi. rewrite (List.nth_indep _ d (F 0)).
  - rewrite List.map_nth, List.seq_nth; auto.
  - by rewrite List.length_map, List.length_seq.
Qed.

Lemma nd_get_tabulate (r c : nat) (f : nat → nat → Z) (i j : nat) :
  i < r → j < c → nd_get (tabulate r c f) i j = f i j.
Proof.
  intros Hi Hj. unfold nd_get, tabulate. simpl.
  rewrite (nth_map_seq (λ i, map (λ j, f i j) (seq 0 c))) by done.
  by rewrite nth_map_seq.
Qed.

Lemma tabulate_ext (r c : nat) (f g : nat → nat → Z) :
  (∀ i j, i < r → j < c → f i j = g i j) → tabulate r c f = tabulate r c g.
Proof.
  intros H. unfold tabulate. f_equal.
  apply List.map_ext_in. intros i Hi. apply List.in_seq in Hi.
  apply List.map_ext_in. intros j Hj. apply List.in_seq in Hj.
  apply H; lia.
Qed.

Lemma is_ndarray_tabulate (r c : nat) (f : nat → nat → Z) :
  is_ndarray (tabulate r c f).
Proof.
  split; simpl.
  - by rewrite List.length_map, List.length_seq.
  - apply Forall_forall. intros row Hrow.
    apply list_elem_of_In, List.in_map_iff in Hrow as (i & <- & _).
    by rewrite List.length_map, List.length_seq.
Qed.

Lemma bget_in_shape (r c : nat) (b : ndarray) (i j : nat) :
  shape b = (r, c) → i < r → j < c → bget b i j = nd_get b i j.
Proof.
  unfold shape, bget. intros [= <- <-] Hi Hj.
  destruct (Nat.eqb_spec (nrows b) 1), (Nat.eqb_spec (ncols b) 1);
    repeat f_equal; lia.
Qed.

Lemma iadd_same_shape (a b : ndarray) :
  shape b = shape a → iadd a b = Ok (add_arrays a b).
Proof.
  intros Hs. unfold iadd, broadcasts_to.
  injection Hs as Hr Hc. rewrite Hr, Hc, !Nat.eqb_refl. simpl.
  f_equal. apply tabulate_ext. intros i j Hi Hj.
  by rewrite (bget_in_shape (nrows a) (ncols a)) by (done || unfold shape; congruence).
Qed.

Lemma add_arrays_comm (a b : ndarray) :
  shape a = shape b → add_arrays a b = add_arrays b a.
Proof.
  intros [= Hr Hc]. unfold add_arrays. rewrite Hr, Hc.
  apply tabulate_ext. intros. by rewrite Z.add_comm.
Qed.

Lemma shape_add_arrays (a b : ndarray) : shape (add_arrays a b) = shape a.
Proof. done. Qed.

(** ** The monad *)

Ltac run :=
  unfold bind, ret, raise, lift, emit, sys_exit in *; simpl in *.

Lemma convert_matrix_dense (v : value) (m : ndarray) (w : world) :
  dense v = Some m → convert_matrix v w = (w, Ok m).
Proof. destruct v; simpl; intros [= <-]; done. Qed.

(** ** convert_matrix *)

(** C6. [convert_matrix] returns an array for a dense array, which it leaves
    as it is, and for a sparse matrix, which it turns into the array of its
    entries, the same array its dense form is converted to; for a value of any
    other class it prints the name of the class on the standard error stream
    and exits with status 1. It returns an array for these two kinds only, it
    never touches the shelves, and it prints nothing when it returns. *)
Theorem convert_matrix_dense_sparse_or_exit :
  (∀ a w, convert_matrix (VNdarray a) w = (w, Ok a))
  ∧ (∀ s w,
       convert_matrix (VSparse s) w = (w, Ok (toarray s))
       ∧ convert_matrix (VSparse s) w = convert_matrix (VNdarray (toarray s)) w
       ∧ is_ndarray (toarray s)
       ∧ shape (toarray s) = (s_nrows s, s_ncols s)
       ∧ ∀ i j, i < s_nrows s → j < s_ncols s →
           nd_get (toarray s) i j = sparse_at s i j)
  ∧ (∀ c w,
       convert_matrix (VObject c) w =
         (log (Stderr ("Error: unrecognized data type for matrix: " +:+ c)) w,
          Raise (SystemExit 1))
       ∧ (1 ≠ 0)%Z)
  ∧ (∀ v w,
       (∃ w' a, convert_matrix v w = (w', Ok a))
       ↔ (issparse v = true ∨ ∃ a, v = VNdarray a))
  ∧ (∀ v w w' r,
       convert_matrix v w = (w', r) →
       w_fs w' = w_fs w ∧ (∀ a, r = Ok a → w' = w)).
Proof.
  split; [done|]. split.
  { intros s w. split; [done|]. split; [done|].
    split; [apply is_ndarray_tabulate|]. split; [done|].
    intros i j Hi Hj. by apply nd_get_tabulate. }
  split; [done|]. split.
  - intros v w. split.
    + intros (w' & a & H). destruct v; simpl; eauto. discriminate.
    + intros [H | [a Ha]]; destruct v; try discriminate; simpl; eauto.
  - intros v w w' r H. destruct v; run; injection H as <- <-; split; try done.
Qed.

Lemma convert_matrix_dense_sparse_or_exit_witness :
  convert_matrix (VNdarray counts43) world0 = (world0, Ok counts43)
  ∧ nd_get (toarray (Sparse 4 3 [(0, 1, 7%Z)])) 0 1 = 7%Z
  ∧ w_fs (log (Stderr "Error: unrecognized data type for matrix: dict") world0)
    = w_fs world0.
Proof.
  split; [apply (proj1 convert_matrix_dense_sparse_or_exit)|]. split.
  - destruct (proj1 (proj2 convert_matrix_dense_sparse_or_exit)
                (Sparse 4 3 [(0, 1, 7%Z)]) world0) as (_ & _ & _ & _ & Hat).
    rewrite Hat; [reflexivity|simpl; lia|simpl; lia].
  - apply (proj2 (proj2 (proj2 (proj2 convert_matrix_dense_sparse_or_exit)))
             (VObject "dict") world0 _ (Raise (SystemExit 1))).
    reflexivity.
Defined.

(** ** add_contents_to_contigs *)

(** What merging a store leaves under a key: the matrix of the store when the
    accumulator had none, the sum when it had one. *)
Lemma add_contents_lookup (dat : dict value) :
  ∀ (contigs : dict (option ndarray)) (w : world),
    is_store dat →
    (∀ r v old, dict_get r dat = Some v → dict_get r contigs = Some old →
       ∃ acc m, old = Some acc ∧ dense v = Some m ∧ shape m = shape acc) →
    ∃ contigs',
      add_contents_to_contigs dat contigs w = (w, Ok contigs')
      ∧ ∀ r,
          dict_get r contigs' =
            match dict_get r dat with
            | None => dict_get r contigs
            | Some v =>
                match dense v, dict_get r contigs with
                | Some m, None => Some (Some m)
                | Some m, Some (Some acc) => Some (Some (add_arrays acc m))
                | _, _ => None
                end
            end.
Proof.
  induction dat as [|[k v] dat IH]; intros contigs w [Hnd Hmat] Hcompat.
  { exists contigs. by split. }
  apply NoDup_cons in Hnd as [Hk Hnd].
  apply Forall_cons in Hmat as [[m Hm] Hmat]. simpl in Hm.
  assert (Hhead : dict_get k ((k, v) :: dat) = Some v)
    by (simpl; by rewrite String.eqb_refl).
  assert (Htail : ∀ r v', dict_get r dat = Some v' →
            k ≠ r ∧ dict_get r ((k, v) :: dat) = Some v').
  { intros r v' Hr. assert (k ≠ r) as Hne.
    { intros ->. apply Hk. eauto using dict_get_Some_key. }
    split; [done|]. simpl. by apply String.eqb_neq in Hne as ->. }
  (* the accumulator after the first item *)
  assert (∃ c1,
    (∀ w', add_contents_to_contigs ((k, v) :: dat) contigs w' =
           add_contents_to_contigs dat c1 w')
    ∧ (∀ r, k ≠ r → dict_get r c1 = dict_get r contigs)
    ∧ dict_get k c1 =
        match dict_get k contigs with
        | None => Some (Some m)
        | Some (Some acc) => Some (Some (add_arrays acc m))
        | Some None => None
        end) as (c1 & Hstep & Hother & Hat).
  { destruct (dict_get k contigs) as [old|] eqn:Hold.
    - destruct (Hcompat k v old Hhead Hold) as (acc & m' & -> & Hm' & Hshape).
      assert (m' = m) as -> by congruence.
      exists (dict_set k (Some (add_arrays acc m)) contigs). split; [|split].
      + intros w'. simpl. unfold bind at 1.
        rewrite (convert_matrix_dense v m) by done.
        rewrite Hold. run. by rewrite iadd_same_shape.
      + intros r Hne. by apply dict_get_set_ne.
      + apply dict_get_set_eq.
    - exists (dict_set k (Some m) contigs). split; [|split].
      + intros w'. simpl. unfold bind at 1.
        rewrite (convert_matrix_dense v m) by done.
        by rewrite Hold.
      + intros r Hne. by apply dict_get_set_ne.
      + apply dict_get_set_eq. }
  destruct (IH c1 w) as (contigs' & Hrun & Hget).
  { by split. }
  { intros r v' old Hr Hc1. destruct (Htail r v' Hr) as [Hne Hr'].
    rewrite Hother in Hc1 by done. eauto. }
  exists contigs'. split; [by rewrite Hstep|].
  intros r. rewrite Hget. destruct (decide (k = r)) as [<-|Hne].
  - rewrite Hhead, (dict_get_not_key k dat) by done.
    rewrite Hat, Hm. by destruct (dict_get k contigs) as [[?|]|].
  - rewrite Hother by done. simpl. by apply String.eqb_neq in Hne as ->.
Qed.

(** C9. Two producer stores that agree on the shape of every region they
    share can be merged into an empty accumulator in either order: both
    merges succeed, and they leave the same matrix under every region. *)
Theorem add_contents_order_independent (S1 S2 : dict value) (w : world) :
  is_store S1 → is_store S2 → shape_consistent S1 S2 →
  ∃ c12 c21,
    (c <- add_contents_to_contigs S1 [];;; add_contents_to_contigs S2 c) w
      = (w, Ok c12)
    ∧ (c <- add_contents_to_contigs S2 [];;; add_contents_to_contigs S1 c) w
      = (w, Ok c21)
    ∧ ∀ r, dict_get r c12 = dict_get r c21.
Proof.
  intros H1 H2 Hshape.
  assert (Hmerge : ∀ Sa Sb, is_store Sa → is_store Sb →
            shape_consistent Sa Sb →
            ∃ c, (c <- add_contents_to_contigs Sa [];;;
                  add_contents_to_contigs Sb c) w = (w, Ok c)
              ∧ ∀ r, dict_get r c =
                   match dict_get r Sa, dict_get r Sb with
                   | Some va, Some vb =>
                       match dense va, dense vb with
                       | Some a, Some b => Some (Some (add_arrays a b))
                       | _, _ => None
                       end
                   | Some va, None => Some <$> dense va
                   | None, Some vb => Some <$> dense vb
                   | None, None => None
                   end).
  { intros Sa Sb Ha Hb Hab.
    assert (Hdense : ∀ S r v, is_store S → dict_get r S = Some v →
              is_Some (dense v)).
    { intros S r v [_ HS]. revert HS. clear.
      induction S as [|[k' v'] S IH]; simpl; [done|].
      intros HS Hget. apply Forall_cons in HS as [Hv HS].
      destruct (String.eqb k' r); [by injection Hget as <-|by apply IH]. }
    destruct (add_contents_lookup Sa [] w Ha) as (ca & Hruna & Hgeta).
    { intros r v old _ Hold. discriminate. }
    destruct (add_contents_lookup Sb ca w Hb) as (cb & Hrunb & Hgetb).
    { intros r vb old Hrb Hold. rewrite Hgeta in Hold.
      destruct (dict_get r Sa) as [va|] eqn:Hra; [|done].
      destruct (Hdense Sa r va Ha Hra) as [a Hda].
      destruct (Hdense Sb r vb Hb Hrb) as [b Hdb].
      rewrite Hda in Hold. injection Hold as <-.
      exists a, b. split; [done|]. split; [done|].
      specialize (Hab r va vb Hra Hrb). rewrite Hda, Hdb in Hab.
      simpl in Hab. congruence. }
    exists cb. split.
    { unfold bind. by rewrite Hruna. }
    intros r. rewrite Hgetb, Hgeta.
    destruct (dict_get r Sa) as [va|] eqn:Hra,
             (dict_get r Sb) as [vb|] eqn:Hrb; simpl; try done.
    destruct (Hdense Sa r va Ha Hra) as [a ->].
    by destruct (Hdense Sb r vb Hb Hrb) as [b ->]. }
  destruct (Hmerge S1 S2 H1 H2 Hshape) as (c12 & Hrun12 & Hget12).
  destruct (Hmerge S2 S1 H2 H1) as (c21 & Hrun21 & Hget21).
  { intros r v2 v1 Hr2 Hr1. symmetry. eauto. }
  exists c12, c21. split; [done|]. split; [done|].
  intros r. rewrite Hget12, Hget21.
  destruct (dict_get r S1) as [v1|] eqn:Hr1,
           (dict_get r S2) as [v2|] eqn:Hr2; try done.
  specialize (Hshape r v1 v2 Hr1 Hr2).
  destruct (dense v1) as [a|], (dense v2) as [b|]; try done.
  assert (shape a = shape b) as Hs by (simpl in Hshape; congruence).
  by rewrite (add_arrays_comm a b).
Qed.

(** ** Logs *)

Lemma reads_app (p : string) (l1 l2 : list event) :
  reads p (l1 ++ l2) = reads p l1 + reads p l2.
Proof. unfold reads. by rewrite filter_app, length_app. Qed.

Lemma reads_cons (p : string) (e : event) (l : list event) :
  reads p (e :: l) =
    (if decide (e = ShelveOpen p FlagR true) then 1 else 0) + reads p l.
Proof. unfold reads. rewrite filter_cons. by case_decide. Qed.

Lemma reads_stderr (p : string) (evs : list event) :
  Forall is_stderr evs → reads p evs = 0.
Proof.
  induction 1 as [|e evs [line ->] _ IH]; [done|].
  rewrite reads_cons, IH. by case_decide.
Qed.

Lemma round_ok_stderr (env : environment) (round : nat) (evs : list event) :
  Forall is_stderr evs → round_ok env round evs.
Proof.
  intros H. eapply Forall_impl; [exact H|]. by intros e [line ->].
Qed.

Lemma stable_true (o : obs) :
  stable o = true →
  ∃ mtime s, o_file o = Some (mtime, s) ∧ (o_now o - mtime > 300)%Z.
Proof.
  unfold stable. destruct (o_file o) as [[mtime s]|]; [|done].
  intros H%bool_decide_eq_true. eauto.
Qed.

Lemma slept_rounds_poll_trace (env : environment) (round : nat) (evs : list event) :
  slept_rounds env round evs → poll_trace env round evs.
Proof.
  induction 1.
  - apply poll_trace_last. constructor.
  - by apply poll_trace_round.
Qed.

(** [add_contents_to_contigs] leaves the shelves alone and prints on the
    standard error stream only. *)
Lemma add_contents_quiet (dat : dict value) :
  ∀ contigs w w' r,
    add_contents_to_contigs dat contigs w = (w', r) →
    ∃ evs, w_log w' = w_log w ++ evs ∧ Forall is_stderr evs
           ∧ w_fs w' = w_fs w.
Proof.
  induction dat as [|[k v] dat IH]; intros contigs w w' r H; simpl in H.
  { injection H as <- <-. exists []. by rewrite app_nil_r. }
  unfold bind at 1 in H.
  destruct v as [a|s|c]; simpl in H.
  3: { injection H as <- <-. eexists [_]. split; [done|]. split; [|done].
       repeat constructor. by eexists. }
  all: unfold bind at 1 in H;
    destruct (dict_get k contigs) as [[acc|]|]; run;
    try (injection H as <- <-; exists []; by rewrite app_nil_r);
    try (destruct (iadd acc _); run;
         try (injection H as <- <-; exists []; by rewrite app_nil_r));
    try (destruct (Nat.eqb _ 0); run;
         try (injection H as <- <-; exists []; by rewrite app_nil_r));
    by eapply IH.
Qed.

Lemma merge_if_contains_quiet (name : string) dat contigs w w' r :
  merge_if_contains name dat contigs w = (w', r) →
  ∃ evs, w_log w' = w_log w ++ evs ∧ Forall is_stderr evs.
Proof.
  unfold merge_if_contains. destruct (contains name dat).
  - intros H. apply add_contents_quiet in H as (evs & ? & ? & _). eauto.
  - intros [= <- <-]. exists []. by rewrite app_nil_r.
Qed.

(** ** The polling loop *)

Section Polling.
Variable what : string.
Variable merge :
  dict value → dict (option ndarray) → M (dict (option ndarray)).
Variable env : environment.
Hypothesis merge_quiet :
  ∀ dat contigs w w' r,
    merge dat contigs w = (w', r) →
    ∃ evs, w_log w' = w_log w ++ evs ∧ Forall is_stderr evs.

(** One round opens only what is stable, each path at most once, and the
    paths it adds to the processed ones are those it has read. *)
Lemma poll_files_spec (round total : nat) (files : list string) :
  ∀ contigs processed w w' r,
    NoDup files →
    poll_files what merge env round total files contigs processed w = (w', r) →
    ∃ seg,
      w_log w' = w_log w ++ seg
      ∧ round_ok env round seg
      ∧ (∀ p, reads p seg ≤ 1)
      ∧ (∀ p, 0 < reads p seg → p ∈ files)
      ∧ ∀ c' pr', r = Ok (c', pr') →
          ∀ p, p ∈ pr' ↔ p ∈ processed ∨ 0 < reads p seg.
Proof.
  induction files as [|f files IH]; intros contigs processed w w' r Hnd H.
  { injection H as <- <-. exists []. rewrite app_nil_r.
    split; [done|]. split; [constructor|].
    split; [intros p; cbn; lia|]. split; [intros p; cbn; lia|].
    intros c' pr' [= <- <-] p. cbn. split; [auto|]. intros [?|?]; [done|lia]. }
  apply NoDup_cons in Hnd as [Hf Hnd]. simpl in H.
  assert (Hskip : ∀ seg,
    (∀ p, 0 < reads p seg → p ∈ files) → ∀ p, 0 < reads p seg → p ∈ f :: files).
  { intros seg Hin p Hp. apply list_elem_of_further. auto. }
  destruct (o_file (env round f)) as [[mtime s]|] eqn:Hfile.
  2: { destruct (IH _ _ _ _ _ Hnd H) as (seg & ? & ? & ? & ? & ?).
       exists seg. eauto 10. }
  destruct (stable (env round f)) eqn:Hst.
  2: { destruct (IH _ _ _ _ _ Hnd H) as (seg & ? & ? & ? & ? & ?).
       exists seg. eauto 10. }
  apply stable_true in Hst.
  destruct s as [dat|msg].
  - (* the shelf opens *)
    unfold bind at 1 in H. simpl in H. unfold bind at 1 in H.
    destruct (merge dat contigs (log (ShelveOpen f FlagR true) w))
      as [w1 r1] eqn:Hmerge.
    destruct (merge_quiet _ _ _ _ _ Hmerge) as (evs & Hlog1 & Hevs).
    simpl in Hlog1.
    destruct r1 as [c1| e |].
    + unfold bind at 1 in H. simpl in H. unfold bind at 1 in H. simpl in H.
      destruct (IH _ _ _ _ _ Hnd H) as (seg & Hlog & Hok & Hone & Hin & Hpr).
      simpl in Hlog. rewrite Hlog1 in Hlog.
      exists (ShelveOpen f FlagR true :: evs
              ++ ShelveClose f :: Stdout ("Loaded " +:+ what +:+ " "
                   +:+ pretty (size ({[f]} ∪ processed)) +:+ " of "
                   +:+ pretty total +:+ ": " +:+ f) :: seg).
      split. { rewrite Hlog. by rewrite <- !app_assoc. }
      split.
      { apply Forall_cons. split; [done|]. apply Forall_app.
        split; [by apply round_ok_stderr|]. by repeat constructor. }
      assert (Hcount : ∀ p,
        reads p (ShelveOpen f FlagR true :: evs
                 ++ ShelveClose f :: Stdout ("Loaded " +:+ what +:+ " "
                      +:+ pretty (size ({[f]} ∪ processed)) +:+ " of "
                      +:+ pretty total +:+ ": " +:+ f) :: seg)
        = (if decide (p = f) then 1 else 0) + reads p seg).
      { intros p. rewrite reads_cons, reads_app, (reads_stderr p evs) by done.
        rewrite !reads_cons. repeat case_decide; congruence || lia. }
      assert (Hf0 : reads f seg = 0).
      { destruct (reads f seg) eqn:E; [done|]. exfalso. apply Hf, Hin. lia. }
      split.
      { intros p. rewrite Hcount. case_decide; [subst; lia|apply Hone]. }
      split.
      { intros p. rewrite Hcount. case_decide.
        - subst. intros _. apply list_elem_of_here.
        - intros Hp. apply list_elem_of_further, Hin. lia. }
      intros c' pr' Hr p. rewrite (Hpr c' pr' Hr p), Hcount.
      rewrite elem_of_union, elem_of_singleton.
      case_decide; [subst|]; intuition lia.
    + injection H as <- <-.
      exists (ShelveOpen f FlagR true :: evs).
      split; [by rewrite Hlog1, <- app_assoc|].
      split. { apply Forall_cons. split; [done|]. by apply round_ok_stderr. }
      assert (Hcount : ∀ p, reads p (ShelveOpen f FlagR true :: evs)
                            = if decide (p = f) then 1 else 0).
      { intros p. rewrite reads_cons, (reads_stderr p evs) by done.
        repeat case_decide; congruence || lia. }
      split. { intros p. rewrite Hcount. case_decide; lia. }
      split.
      { intros p. rewrite Hcount. case_decide; [|lia].
        subst. intros _. apply list_elem_of_here. }
      done.
    + injection H as <- <-.
      exists (ShelveOpen f FlagR true :: evs).
      split; [by rewrite Hlog1, <- app_assoc|].
      split. { apply Forall_cons. split; [done|]. by apply round_ok_stderr. }
      assert (Hcount : ∀ p, reads p (ShelveOpen f FlagR true :: evs)
                            = if decide (p = f) then 1 else 0).
      { intros p. rewrite reads_cons, (reads_stderr p evs) by done.
        repeat case_decide; congruence || lia. }
      split. { intros p. rewrite Hcount. case_decide; lia. }
      split.
      { intros p. rewrite Hcount. case_decide; [|lia].
        subst. intros _. apply list_elem_of_here. }
      done.
  - (* dbm.error: reported, the path stays pending *)
    unfold bind at 1 in H. simpl in H. unfold bind at 1 in H. simpl in H.
    destruct (IH _ _ _ _ _ Hnd H) as (seg & Hlog & Hok & Hone & Hin & Hpr).
    simpl in Hlog.
    exists (ShelveOpen f FlagR false
            :: Stderr ("Error: " +:+ f +:+ ": " +:+ msg) :: seg).
    split. { rewrite Hlog. by rewrite <- !app_assoc. }
    split. { by repeat constructor. }
    assert (Hcount : ∀ p,
      reads p (ShelveOpen f FlagR false
               :: Stderr ("Error: " +:+ f +:+ ": " +:+ msg) :: seg)
      = reads p seg).
    { intros p. rewrite !reads_cons. repeat case_decide; congruence || lia. }
    split. { intros p. by rewrite Hcount. }
    split. { intros p. rewrite Hcount. by apply Hskip. }
    intros c' pr' Hr p. by rewrite Hcount, (Hpr c' pr' Hr p).
Qed.

(** What the accumulator satisfies before a round it satisfies after it,
    when the merge of one shelf keeps it. *)
Lemma poll_files_keeps (I : dict (option ndarray) → Prop)
    (round total : nat) (files : list string) :
  (∀ dat c w w' c', I c → merge dat c w = (w', Ok c') → I c') →
  ∀ contigs processed w w' c' pr',
    I contigs →
    poll_files what merge env round total files contigs processed w
      = (w', Ok (c', pr')) →
    I c'.
Proof.
  intros Hkeep.
  induction files as [|f files IH]; intros contigs processed w w' c' pr' HI H.
  { by injection H as <- <- <-. }
  simpl in H.
  destruct (o_file (env round f)) as [[mtime s]|]; [|by eapply IH].
  destruct (stable (env round f)); [|by eapply IH].
  destruct s as [dat|msg].
  - unfold bind at 1 in H. simpl in H. unfold bind at 1 in H.
    destruct (merge dat contigs (log (ShelveOpen f FlagR true) w))
      as [w1 [c1| e |]] eqn:Hmerge; try discriminate.
    unfold bind at 1 in H. simpl in H. unfold bind at 1 in H. simpl in H.
    eapply IH; [|exact H]. eauto.
  - unfold bind at 1 in H. simpl in H. unfold bind at 1 in H. simpl in H.
    by eapply IH.
Qed.

(** The whole loop: its log is made of poll rounds, every shelf is read at
    most once, and when the loop returns every round was followed by the
    sleep and every pending shelf has been read. *)
Lemma poll_loop_spec (total fuel : nat) :
  ∀ round fileset processed contigs w w' r,
    poll_loop what merge fuel env round total fileset processed contigs w
      = (w', r) →
    ∃ evs,
      w_log w' = w_log w ++ evs
      ∧ poll_trace env round evs
      ∧ (∀ p, reads p evs ≤ 1)
      ∧ (∀ p, 0 < reads p evs → p ∈ fileset)
      ∧ (size fileset = 0 → evs = [] ∧ r = Ok contigs)
      ∧ ∀ c, r = Ok c →
          slept_rounds env round evs
          ∧ (∀ p, p ∈ fileset → p ∉ processed → 0 < reads p evs)
          ∧ (0 < size fileset → last evs = Some (Sleep 30)).
Proof.
  induction fuel as [|fuel IH];
    intros round fileset processed contigs w w' r H; simpl in H.
  - destruct (Nat.ltb_spec 0 (size fileset)) as [Hsz|Hsz];
      injection H as <- <-; exists []; rewrite app_nil_r.
    + split; [done|]. split; [apply poll_trace_last; constructor|].
      split; [intros p; cbn; lia|]. split; [intros p; cbn; lia|].
      split; [lia|]. done.
    + split; [done|]. split; [apply poll_trace_last; constructor|].
      split; [intros p; cbn; lia|]. split; [intros p; cbn; lia|].
      split; [done|]. intros c _. split; [constructor|].
      split; [|lia]. intros p Hp. apply size_empty_iff in Hp; [done|lia].
  - destruct (Nat.ltb_spec 0 (size fileset)) as [Hsz|Hsz].
    2: { injection H as <- <-; exists []; rewrite app_nil_r.
         split; [done|]. split; [apply poll_trace_last; constructor|].
         split; [intros p; cbn; lia|]. split; [intros p; cbn; lia|].
         split; [done|]. intros c _. split; [constructor|].
         split; [|lia]. intros p Hp. apply size_empty_iff in Hp; [done|lia]. }
    unfold bind at 1 in H.
    destruct (poll_files what merge env round total (elements fileset)
                contigs processed w) as [w1 r1] eqn:Hround.
    destruct (poll_files_spec _ _ _ _ _ _ _ _ (NoDup_elements fileset) Hround)
      as (seg & Hlog1 & Hok & Hone & Hin & Hpr).
    destruct r1 as [[c1 pr1]| e |].
    + unfold bind at 1 in H. simpl in H.
      destruct (IH _ _ _ _ _ _ _ H)
        as (rest & Hlog & Htrace & Hone' & Hin' & Hempty & Hret).
      simpl in Hlog. specialize (Hpr c1 pr1 eq_refl).
      exists (seg ++ Sleep 30 :: rest).
      split. { rewrite Hlog, Hlog1. by rewrite <- !app_assoc. }
      split. { by apply poll_trace_round. }
      assert (Hcount : ∀ p, reads p (seg ++ Sleep 30 :: rest)
                            = reads p seg + reads p rest).
      { intros p. rewrite reads_app, reads_cons. by case_decide. }
      split.
      { intros p. rewrite Hcount. specialize (Hone p). specialize (Hone' p).
        destruct (reads p rest) eqn:E; [lia|].
        assert (p ∈ fileset ∖ pr1) as [_ Hnot]%elem_of_difference
          by (apply Hin'; lia).
        destruct (reads p seg) eqn:E'; [lia|].
        exfalso. apply Hnot, Hpr. right. lia. }
      split.
      { intros p. rewrite Hcount. intros Hp.
        destruct (reads p seg) eqn:E.
        - assert (p ∈ fileset ∖ pr1) as [? _]%elem_of_difference
            by (apply Hin'; lia). done.
        - apply elem_of_elements, Hin. lia. }
      split; [lia|].
      intros c Hc. destruct (Hret c Hc) as (Hslept & Hall & Hlast).
      split. { by apply slept_round. }
      split.
      { intros p Hp Hnp. rewrite Hcount.
        destruct (decide (p ∈ pr1)) as [Hin1|Hnot1].
        - apply Hpr in Hin1 as [?|?]; [done|lia].
        - assert (0 < reads p rest); [|lia].
          apply Hall; [|done]. by apply elem_of_difference. }
      intros _. rewrite last_app, last_cons.
      destruct (last rest) as [e|] eqn:Elast; [|done].
      destruct (Nat.eq_dec (size (fileset ∖ pr1)) 0) as [Hz|Hnz].
      * destruct (Hempty Hz) as [-> _]. done.
      * apply Hlast. lia.
    + injection H as <- <-. exists seg.
      split; [done|]. split; [by apply poll_trace_last|].
      split; [done|]. split.
      { intros p Hp. by apply elem_of_elements, Hin. }
      split; [lia|]. done.
    + injection H as <- <-. exists seg.
      split; [done|]. split; [by apply poll_trace_last|].
      split; [done|]. split.
      { intros p Hp. by apply elem_of_elements, Hin. }
      split; [lia|]. done.
Qed.

(** The accumulator keeps through the loop what one merge keeps. *)
Lemma poll_loop_keeps (I : dict (option ndarray) → Prop) (total fuel : nat) :
  (∀ dat c w w' c', I c → merge dat c w = (w', Ok c') → I c') →
  ∀ round fileset processed contigs w w' c',
    I contigs →
    poll_loop what merge fuel env round total fileset processed contigs w
      = (w', Ok c') →
    I c'.
Proof.
  intros Hkeep.
  induction fuel as [|fuel IH];
    intros round fileset processed contigs w w' c' HI H; simpl in H.
  - destruct (0 <? size fileset); [discriminate|]. by injection H as <- <-.
  - destruct (0 <? size fileset); [|by injection H as <- <-].
    unfold bind at 1 in H.
    destruct (poll_files what merge env round total (elements fileset)
                contigs processed w) as [w1 [[c1 pr1]| e |]] eqn:Hround;
      try discriminate.
    unfold bind at 1 in H. simpl in H.
    eapply IH; [|exact H].
    by eapply (poll_files_keeps I) in Hround.
Qed.

Hypothesis merge_total :
  ∀ dat contigs w w', merge dat contigs w ≠ (w', OutOfFuel).

Lemma poll_files_total (round total : nat) (files : list string) :
  ∀ contigs processed w w',
    poll_files what merge env round total files contigs processed w
      ≠ (w', OutOfFuel).
Proof.
  induction files as [|f files IH]; intros contigs processed w w' H.
  { discriminate. }
  simpl in H.
  destruct (o_file (env round f)) as [[mtime s]|]; [|by eapply IH].
  destruct (stable (env round f)); [|by eapply IH].
  destruct s as [dat|msg].
  - unfold bind at 1 in H. simpl in H. unfold bind at 1 in H.
    destruct (merge dat contigs (log (ShelveOpen f FlagR true) w))
      as [w1 [c1| e |]] eqn:Hmerge; try discriminate.
    + unfold bind at 1 in H. simpl in H. unfold bind at 1 in H. simpl in H.
      by eapply IH.
    + by eapply merge_total.
  - unfold bind at 1 in H. simpl in H. unfold bind at 1 in H. simpl in H.
    by eapply IH.
Qed.

(** A loop that is still running when the fuel is used up has a pending
    shelf that it has not read. *)
Lemma poll_loop_out_of_fuel (total fuel : nat) :
  ∀ round fileset processed contigs w w' evs,
    poll_loop what merge fuel env round total fileset processed contigs w
      = (w', OutOfFuel) →
    w_log w' = w_log w ++ evs →
    ∃ p, p ∈ fileset ∧ reads p evs = 0.
Proof.
  induction fuel as [|fuel IH];
    intros round fileset processed contigs w w' evs H Hevs; simpl in H.
  - destruct (Nat.ltb_spec 0 (size fileset)) as [Hsz|Hsz]; [|discriminate].
    injection H as <-.
    rewrite <- (app_nil_r (w_log w)) in Hevs at 1.
    apply app_inv_head in Hevs as <-.
    destruct (size_pos_elem_of fileset Hsz) as [p Hp]. by exists p.
  - destruct (Nat.ltb_spec 0 (size fileset)) as [Hsz|Hsz]; [|discriminate].
    unfold bind at 1 in H.
    destruct (poll_files what merge env round total (elements fileset)
                contigs processed w) as [w1 r1] eqn:Hround.
    destruct (poll_files_spec _ _ _ _ _ _ _ _ (NoDup_elements fileset) Hround)
      as (seg & Hlog1 & _ & _ & _ & Hpr).
    destruct r1 as [[c1 pr1]| e |]; [|discriminate|].
    2: { by apply poll_files_total in Hround. }
    unfold bind at 1 in H. simpl in H.
    destruct (poll_loop_spec total _ _ _ _ _ _ _ _ H) as (rest & Hlog & _).
    simpl in Hlog. rewrite Hlog1, <- !app_assoc in Hlog.
    rewrite Hlog in Hevs. apply app_inv_head in Hevs as <-.
    destruct (IH _ _ _ _ _ _ rest H) as (p & Hp & Hrest).
    { simpl. by rewrite Hlog, Hlog1, <- !app_assoc. }
    apply elem_of_difference in Hp as [Hp Hnot].
    exists p. split; [done|].
    rewrite reads_app. simpl. rewrite reads_cons, Hrest.
    case_decide; [done|].
    destruct (reads p seg) eqn:E; [done|].
    exfalso. apply Hnot, (Hpr c1 pr1 eq_refl). right. lia.
Qed.
End Polling.

Lemma add_contents_total (dat : dict value) :
  ∀ contigs w w', add_contents_to_contigs dat contigs w ≠ (w', OutOfFuel).
Proof.
  induction dat as [|[k v] dat IH]; intros contigs w w' H; simpl in H.
  { discriminate. }
  unfold bind at 1 in H.
  destruct v as [a|s|c]; simpl in H; [| |discriminate].
  all: unfold bind at 1 in H;
    destruct (dict_get k contigs) as [[acc|]|]; run;
    try discriminate;
    try (unfold iadd in H; destruct (broadcasts_to _ _ _); run;
         try discriminate);
    try (destruct (Nat.eqb _ 0); run; try discriminate);
    by eapply IH.
Qed.

Lemma add_contents_quiet' dat contigs w w' r :
  add_contents_to_contigs dat contigs w = (w', r) →
  ∃ evs, w_log w' = w_log w ++ evs ∧ Forall is_stderr evs.
Proof. intros H. apply add_contents_quiet in H as (evs & ? & ? & _). eauto. Qed.

(** ** load_matrices_live *)

(** C7. Whatever the producers do and however long the loop runs, the log of
    [load_matrices_live] is made of poll rounds separated by the sleep, and
    in a round a shelf is opened only at a path that the check of that round
    saw as a file last modified more than 300 seconds before: a path that is
    not a file, or that was modified within the window, is not opened in that
    round. A shelf that was opened and merged is not read again: over the
    whole run every path is read at most once, and only paths of [infiles]
    are read. *)
Theorem load_matrices_live_reads_stable_once
    (fuel : nat) (env : environment) (infiles : list string)
    (contigs : dict (option ndarray)) (w : world) :
  ∃ evs,
    w_log (load_matrices_live fuel env infiles contigs w).1 = w_log w ++ evs
    ∧ poll_trace env 0 evs
    ∧ (∀ p, reads p evs ≤ 1)
    ∧ (∀ p, 0 < reads p evs → p ∈ infiles).
Proof.
  unfold load_matrices_live.
  destruct (poll_loop _ _ _ _ _ _ _ _ _ _) as [w' r] eqn:H.
  apply (poll_loop_spec _ _ _ add_contents_quiet') in H
    as (evs & Hlog & Htrace & Hone & Hin & _).
  exists evs. split; [done|]. split; [done|]. split; [done|].
  intros p Hp. specialize (Hin p Hp). by apply elem_of_list_to_set in Hin.
Qed.

(** C8, as the code has it. [load_matrices_live] returns only when every
    path of [infiles] has been read, that is when the pending set is empty,
    and it is still running only while a path is pending; with no path at all
    it returns at once. The 30-second sleep follows every poll round, whether
    or not a path is still pending after it: when the loop returns after one
    round or more, the sleep is the last thing it did. *)
Theorem load_matrices_live_sleeps_after_every_round
    (fuel : nat) (env : environment) (infiles : list string)
    (contigs : dict (option ndarray)) (w : world) :
  ∃ evs,
    w_log (load_matrices_live fuel env infiles contigs w).1 = w_log w ++ evs
    ∧ (∀ c, (load_matrices_live fuel env infiles contigs w).2 = Ok c →
         slept_rounds env 0 evs
         ∧ (∀ p, p ∈ infiles → reads p evs = 1)
         ∧ (infiles ≠ [] → last evs = Some (Sleep 30)))
    ∧ ((load_matrices_live fuel env infiles contigs w).2 = OutOfFuel →
         ∃ p, p ∈ infiles ∧ reads p evs = 0)
    ∧ (infiles = [] →
         evs = []
         ∧ (load_matrices_live fuel env infiles contigs w).2 = Ok contigs).
Proof.
  unfold load_matrices_live.
  destruct (poll_loop _ _ _ _ _ _ _ _ _ _) as [w' r] eqn:H.
  destruct (poll_loop_spec _ _ _ add_contents_quiet' _ _ _ _ _ _ _ _ _ H)
    as (evs & Hlog & _ & Hone & _ & Hempty & Hret).
  exists evs. simpl. split; [done|]. split; [|split].
  - intros c ->. destruct (Hret c eq_refl) as (Hslept & Hall & Hlast).
    split; [done|]. split.
    + intros p Hp. specialize (Hone p).
      assert (0 < reads p evs); [|lia].
      apply Hall; [by apply elem_of_list_to_set|set_solver].
    + intros Hne. apply Hlast.
      destruct infiles as [|p infiles']; [done|].
      destruct (Nat.ltb_spec 0 (size (list_to_set (C:=gset string)
                                        (p :: infiles')))) as [|Hsz]; [done|].
      assert (list_to_set (C:=gset string) (p :: infiles') ≡ ∅) as Hnil
        by (apply size_empty_iff; lia).
      exfalso. apply (not_elem_of_empty (C:=gset string) p).
      rewrite <- Hnil. apply elem_of_list_to_set, list_elem_of_here.
  - intros ->.
    destruct (poll_loop_out_of_fuel _ _ _ add_contents_quiet' add_contents_total
                _ _ _ _ _ _ _ _ evs H Hlog) as (p & Hp & Hzero).
    exists p. split; [by apply elem_of_list_to_set in Hp|done].
  - intros ->. apply Hempty. apply size_empty.
Qed.

Lemma load_matrices_live_reads_stable_once_witness :
  ∃ evs,
    w_log (load_matrices_live 2 env_ready ["a"; "b"] [] world0).1
      = w_log world0 ++ evs
    ∧ poll_trace env_ready 0 evs
    ∧ (∀ p, reads p evs ≤ 1)
    ∧ (∀ p, 0 < reads p evs → p ∈ ["a"; "b"]).
Proof.
  exact (load_matrices_live_reads_stable_once 2 env_ready ["a"; "b"] [] world0).
Defined.

Lemma load_matrices_live_sleeps_after_every_round_witness :
  ∃ evs,
    w_log (load_matrices_live 1 env_ready ["a"] [] world0).1 = w_log world0 ++ evs
    ∧ slept_rounds env_ready 0 evs
    ∧ (∀ p, p ∈ ["a"] → reads p evs = 1)
    ∧ last evs = Some (Sleep 30).
Proof.
  destruct (load_matrices_live_sleeps_after_every_round
              1 env_ready ["a"] [] world0) as (evs & Hlog & Hret & _).
  destruct (Hret [("chr1", Some ones43)]) as (Hslept & Hall & Hlast).
  { vm_compute. reflexivity. }
  exists evs. split; [done|]. split; [done|]. split; [done|].
  by apply Hlast.
Defined.

(** C8, as stated, fails: with one finished shelf the loop reads it in its
    first round, after which no path is pending, and still sleeps 30 seconds
    before it returns. *)
Lemma load_matrices_live_sleeps_with_nothing_pending :
  load_matrices_live 1 env_ready ["a"] [] world0 =
    (World ∅ [ShelveOpen "a" FlagR true; ShelveClose "a";
              Stdout "Loaded pickle 1 of 1: a"; Sleep 30],
     Ok [("chr1", Some ones43)]).
Proof. vm_compute. reflexivity. Qed.

(** ** The None an accumulator may start from *)

Lemma iadd_entry_none_raises (m : ndarray) (w : world) :
  0 < nrows m * ncols m → iadd_entry None m w = (w, Raise TypeError).
Proof.
  intros Hpos. unfold iadd_entry.
  destruct (Nat.eqb_spec (nrows m * ncols m) 0); [lia|done].
Qed.

Lemma add_contents_none_fails (r : string) (dat : dict value) :
  ∀ contigs v w,
    dict_get r contigs = Some None →
    dict_get r dat = Some v →
    has_elements v →
    ∃ w' e, add_contents_to_contigs dat contigs w = (w', Raise e).
Proof.
  induction dat as [|[k v'] dat IH]; intros contigs v w Hnone Hin Hv.
  { discriminate. }
  cbn [add_contents_to_contigs]. unfold bind at 1.
  destruct (dense v') as [m|] eqn:Hm.
  2: { destruct v'; try discriminate. simpl. eauto. }
  rewrite (convert_matrix_dense v' m) by done. unfold bind at 1.
  destruct (String.eqb_spec k r) as [->|Hne].
  { rewrite Hnone. cbn [dict_get] in Hin. rewrite String.eqb_refl in Hin.
    injection Hin as ->. unfold bind at 1.
    rewrite iadd_entry_none_raises by auto. eauto. }
  assert (dict_get r dat = Some v) as Hin'.
  { cbn [dict_get] in Hin. apply String.eqb_neq in Hne.
    by rewrite Hne in Hin. }
  assert (Hnext : ∀ x w0,
            ∃ w' e, add_contents_to_contigs dat (dict_set k x contigs) w0
                    = (w', Raise e)).
  { intros x w0. eapply IH; [|done..]. by rewrite dict_get_set_ne. }
  destruct (dict_get k contigs) as [[acc|]|].
  - unfold bind at 1. unfold iadd_entry, iadd, lift.
    destruct (broadcasts_to _ _ _); [apply Hnext|eauto].
  - unfold bind at 1. unfold iadd_entry.
    destruct (Nat.eqb _ 0); [apply Hnext|]. unfold raise. eauto.
  - apply Hnext.
Qed.

(** A store of matrices, merged into the accumulator that maps only [r] to
    None: the matrices before that of [r] are stored, the addition to None
    is a TypeError, and nothing is printed. *)
Lemma add_contents_none_type_error (r : string) (dat : dict value) :
  ∀ contigs v w,
    is_store dat →
    dict_get r contigs = Some None →
    (∀ k, k ∈ dict_keys dat → k ≠ r → dict_get k contigs = None) →
    dict_get r dat = Some v →
    has_elements v →
    add_contents_to_contigs dat contigs w = (w, Raise TypeError).
Proof.
  induction dat as [|[k v'] dat IH];
    intros contigs v w [Hnd Hdense] Hnone Hfresh Hin Hv.
  { discriminate. }
  apply NoDup_cons in Hnd as [Hk Hnd].
  apply Forall_cons in Hdense as [[m Hm] Hdense]. cbn in Hm.
  cbn [add_contents_to_contigs]. unfold bind at 1.
  rewrite (convert_matrix_dense v' m) by done. unfold bind at 1.
  destruct (String.eqb_spec k r) as [->|Hne].
  { rewrite Hnone. cbn [dict_get] in Hin. rewrite String.eqb_refl in Hin.
    injection Hin as ->. unfold bind at 1.
    by rewrite iadd_entry_none_raises by auto. }
  rewrite Hfresh; [|apply list_elem_of_here|done].
  cbn [ret]. apply (IH _ v); [done| | | |done].
  - by rewrite dict_get_set_ne.
  - intros k' Hk' Hk'r. rewrite dict_get_set_ne.
    + apply Hfresh; [by apply list_elem_of_further|done].
    + intros <-. by apply Hk.
  - cbn [dict_get] in Hin. apply String.eqb_neq in Hne.
    by rewrite Hne in Hin.
Qed.

(** A matrix without elements is added to None without an exception: the
    accumulator then holds the array without elements of its shape. *)
Lemma add_contents_none_without_elements (r : string) (m : ndarray) (w : world) :
  nrows m * ncols m = 0 →
  add_contents_to_contigs [(r, VNdarray m)] [(r, None)] w
  = (w, Ok [(r, Some (tabulate (nrows m) (ncols m) (λ _ _, 0%Z)))]).
Proof.
  intros Hsize. cbn [add_contents_to_contigs convert_matrix issparse].
  unfold bind at 1. cbn [ret dict_get]. rewrite String.eqb_refl.
  unfold bind at 1. unfold bind at 1. unfold iadd_entry.
  rewrite Hsize. cbn [Nat.eqb ret dict_set]. by rewrite String.eqb_refl.
Qed.

Section NoneSentinel.
Variable r : string.
Variable env : environment.
Variable E : exn → Prop.

(** A round over the accumulator that maps [r] to None, when the merge of
    every shelf that opens and holds [r] raises: the round ends with such an
    exception, or it leaves the accumulator as it was and has read only
    shelves that opened in this round and do not hold [r]. *)
Lemma poll_files_none (round total : nat) (files : list string) :
  (∀ q d w, q ∈ files → opens_in env round q d → contains r d = true →
            ∃ w' e, add_contents_to_contigs d [(r, None)] w = (w', Raise e)
                    ∧ E e) →
  ∀ processed w w' res,
    poll_files "shelve" (merge_if_contains r) env round total files
      [(r, None)] processed w = (w', res) →
    match res with
    | Ok (c', pr') =>
        c' = [(r, None)]
        ∧ ∀ q, q ∈ pr' →
            q ∈ processed
            ∨ q ∈ files ∧ ∃ d, opens_in env round q d ∧ contains r d = false
    | Raise e => E e
    | OutOfFuel => False
    end.
Proof.
  induction files as [|f files IH]; intros Hne processed w w' res H.
  { injection H as <- <-. split; [done|]. auto. }
  assert (Hne' : ∀ q d w, q ∈ files → opens_in env round q d →
            contains r d = true →
            ∃ w' e, add_contents_to_contigs d [(r, None)] w = (w', Raise e)
                    ∧ E e).
  { intros q d w0 Hq. apply Hne. by apply list_elem_of_further. }
  assert (Hrest : ∀ processed' w0,
    poll_files "shelve" (merge_if_contains r) env round total files
      [(r, None)] processed' w0 = (w', res) →
    (∀ q, q ∈ processed' →
          q ∈ processed
          ∨ q ∈ f :: files
            ∧ ∃ d, opens_in env round q d ∧ contains r d = false) →
    match res with
    | Ok (c', pr') =>
        c' = [(r, None)]
        ∧ ∀ q, q ∈ pr' →
            q ∈ processed
            ∨ q ∈ f :: files
              ∧ ∃ d, opens_in env round q d ∧ contains r d = false
    | Raise e => E e
    | OutOfFuel => False
    end).
  { intros processed' w0 H0 Hpr0.
    specialize (IH Hne' processed' w0 w' res H0).
    destruct res as [[c' pr']|e|]; [|done..].
    destruct IH as [-> Hpr]. split; [done|].
    intros q Hq. destruct (Hpr q Hq) as [?|[? ?]]; [auto|].
    right. split; [by apply list_elem_of_further|done]. }
  cbn [poll_files] in H.
  destruct (o_file (env round f)) as [[mtime s]|] eqn:Hfile;
    [|by eapply Hrest; [exact H|auto]].
  destruct (stable (env round f)) eqn:Hst;
    [|by eapply Hrest; [exact H|auto]].
  assert (Hold : (o_now (env round f) - mtime > 300)%Z).
  { unfold stable in Hst. rewrite Hfile in Hst.
    by apply bool_decide_eq_true in Hst. }
  destruct s as [dat|msg].
  - assert (Hopen : opens_in env round f dat) by (by exists mtime).
    unfold bind at 1 in H. cbn [emit] in H. unfold bind at 1 in H.
    unfold merge_if_contains at 1 in H.
    destruct (contains r dat) eqn:Hin.
    + destruct (Hne f dat (log (ShelveOpen f FlagR true) w))
        as (w1 & e & Hm & He); [apply list_elem_of_here|done..|].
      rewrite Hm in H. by injection H as <- <-.
    + cbn [ret] in H.
      unfold bind at 1 in H. cbn [emit] in H.
      unfold bind at 1 in H. cbn [emit] in H.
      eapply Hrest; [exact H|].
      intros q [->%elem_of_singleton|?]%elem_of_union; [|by left].
      right. split; [apply list_elem_of_here|]. eauto.
  - unfold bind at 1 in H. cbn [emit] in H.
    unfold bind at 1 in H. cbn [emit] in H.
    eapply Hrest; [exact H|auto].
Qed.

(** A round in which a shelf that holds [r] opens ends with an exception. *)
Lemma poll_files_none_fails (round total : nat) (files : list string)
    (p : string) (dat : dict value) :
  (∀ q d w, q ∈ files → opens_in env round q d → contains r d = true →
            ∃ w' e, add_contents_to_contigs d [(r, None)] w = (w', Raise e)
                    ∧ E e) →
  p ∈ files → opens_in env round p dat → contains r dat = true →
  ∀ processed w w' res,
    poll_files "shelve" (merge_if_contains r) env round total files
      [(r, None)] processed w = (w', res) →
    ∃ e, res = Raise e ∧ E e.
Proof.
  intros Hne Hp Hopen Hin processed w w' res H.
  pose proof (poll_files_none round total files Hne _ _ _ _ H) as Hres.
  destruct res as [[c1 pr1]|e|]; [|eauto|done].
  exfalso. clear Hres. revert processed w H.
  induction files as [|f files IH]; intros processed w H.
  { by apply elem_of_nil in Hp. }
  assert (Hne' : ∀ q d w, q ∈ files → opens_in env round q d →
            contains r d = true →
            ∃ w' e, add_contents_to_contigs d [(r, None)] w = (w', Raise e)
                    ∧ E e).
  { intros q d w0 Hq. apply Hne. by apply list_elem_of_further. }
  cbn [poll_files] in H.
  destruct (decide (p = f)) as [<-|Hpf].
  - destruct Hopen as (mtime & Hfile & Hold).
    rewrite Hfile in H.
    assert (Hst : stable (env round p) = true).
    { unfold stable. rewrite Hfile. by apply bool_decide_eq_true. }
    rewrite Hst in H.
    unfold bind at 1 in H. cbn [emit] in H. unfold bind at 1 in H.
    unfold merge_if_contains at 1 in H. rewrite Hin in H.
    destruct (Hne p dat (log (ShelveOpen p FlagR true) w))
      as (w1 & e & Hm & _); [apply list_elem_of_here|by exists mtime|done|].
    rewrite Hm in H. discriminate.
  - apply elem_of_cons in Hp as [?|Hp]; [done|].
    specialize (IH Hne' Hp).
    destruct (o_file (env round f)) as [[mtime s]|] eqn:Hfile;
      [|by eapply IH].
    destruct (stable (env round f)) eqn:Hst; [|by eapply IH].
    destruct s as [d|msg].
    + unfold bind at 1 in H. cbn [emit] in H. unfold bind at 1 in H.
      destruct (merge_if_contains r d [(r, None)]
                  (log (ShelveOpen f FlagR true) w)) as [w1 [c1'|e|]] eqn:Hm;
        try discriminate.
      unfold bind at 1 in H. cbn [emit] in H.
      unfold bind at 1 in H. cbn [emit] in H.
      assert (c1' = [(r, None)]) as ->; [|by eapply IH].
      unfold merge_if_contains in Hm.
      destruct (contains r d) eqn:Hind; [|by injection Hm as <- <-].
      destruct (Hne f d (log (ShelveOpen f FlagR true) w))
        as (w2 & e & Hm' & _); [apply list_elem_of_here| |done|congruence].
      exists mtime. split; [done|]. unfold stable in Hst.
      rewrite Hfile in Hst. by apply bool_decide_eq_true in Hst.
    + unfold bind at 1 in H. cbn [emit] in H.
      unfold bind at 1 in H. cbn [emit] in H.
      by eapply IH.
Qed.

(** A round in which no shelf that opens holds [r] leaves the accumulator
    as it was. *)
Lemma poll_files_none_absent (round total : nat) (files : list string) :
  (∀ q d, q ∈ files → opens_in env round q d → contains r d = false) →
  ∀ processed w,
    ∃ w' pr',
      poll_files "shelve" (merge_if_contains r) env round total files
        [(r, None)] processed w = (w', Ok ([(r, None)], pr')).
Proof.
  intros Habs processed w.
  destruct (poll_files "shelve" (merge_if_contains r) env round total files
              [(r, None)] processed w) as [w' res] eqn:H.
  revert processed w w' res H.
  induction files as [|f files IH]; intros processed w w' res H.
  { injection H as <- <-. eauto. }
  assert (Habs' : ∀ q d, q ∈ files → opens_in env round q d →
                         contains r d = false).
  { intros q d Hq. apply Habs. by apply list_elem_of_further. }
  specialize (IH Habs').
  cbn [poll_files] in H.
  destruct (o_file (env round f)) as [[mtime s]|] eqn:Hfile; [|by eapply IH].
  destruct (stable (env round f)) eqn:Hst; [|by eapply IH].
  assert (Hold : (o_now (env round f) - mtime > 300)%Z).
  { unfold stable in Hst. rewrite Hfile in Hst.
    by apply bool_decide_eq_true in Hst. }
  destruct s as [d|msg].
  - unfold bind at 1 in H. cbn [emit] in H. unfold bind at 1 in H.
    unfold merge_if_contains at 1 in H.
    rewrite (Habs f d) in H; [|apply list_elem_of_here|by exists mtime].
    cbn [ret] in H.
    unfold bind at 1 in H. cbn [emit] in H.
    unfold bind at 1 in H. cbn [emit] in H.
    by eapply IH.
  - unfold bind at 1 in H. cbn [emit] in H.
    unfold bind at 1 in H. cbn [emit] in H.
    by eapply IH.
Qed.

Variable infiles : list string.
Variable total : nat.

(** The loop raises no later than the round in which a shelf that holds [r]
    opens, when that shelf has not opened before. *)
Lemma poll_loop_none_fails (k : nat) (p : string) (dat : dict value) :
  opens_in env k p dat → contains r dat = true →
  (∀ j d, j < k → ¬ opens_in env j p d) →
  (∀ j q d w, j ≤ k → q ∈ infiles → opens_in env j q d →
              contains r d = true →
              ∃ w' e, add_contents_to_contigs d [(r, None)] w = (w', Raise e)
                      ∧ E e) →
  ∀ fuel round (fileset processed : gset string) w,
    round ≤ k → k < round + fuel →
    p ∈ fileset → p ∉ processed →
    (∀ q, q ∈ fileset → q ∈ infiles) →
    ∃ w' e,
      poll_loop "shelve" (merge_if_contains r) fuel env round total
        fileset processed [(r, None)] w = (w', Raise e)
      ∧ E e.
Proof.
  intros Hopen Hin Hbefore Hne.
  induction fuel as [|fuel IH];
    intros round fileset processed w Hle Hlt Hp Hnp Hsub; [lia|].
  cbn [poll_loop].
  destruct (Nat.ltb_spec 0 (size fileset)) as [_|Hsz].
  2: { exfalso. assert (fileset ≡ ∅) as Hempty by (apply size_empty_iff; lia).
       rewrite Hempty in Hp. by apply not_elem_of_empty in Hp. }
  unfold bind at 1.
  destruct (poll_files "shelve" (merge_if_contains r) env round total
              (elements fileset) [(r, None)] processed w)
    as [w1 res] eqn:Hround.
  assert (Hne1 : ∀ q d w, q ∈ elements fileset → opens_in env round q d →
            contains r d = true →
            ∃ w' e, add_contents_to_contigs d [(r, None)] w = (w', Raise e)
                    ∧ E e).
  { intros q d w0 Hq%elem_of_elements. apply (Hne round); [done|auto]. }
  destruct (decide (round = k)) as [->|Hneq].
  - destruct (poll_files_none_fails k total (elements fileset) p dat
                Hne1 (proj2 (elem_of_elements _ _) Hp) Hopen Hin
                _ _ _ _ Hround) as (e & -> & He).
    eauto.
  - pose proof (poll_files_none round total (elements fileset) Hne1
                  _ _ _ _ Hround) as Hres.
    destruct res as [[c1 pr1]|e|]; [|eauto|done].
    destruct Hres as [-> Hpr].
    unfold bind at 1. cbn [emit].
    apply IH; [lia|lia| | |].
    + apply elem_of_difference. split; [done|].
      intros Hq. destruct (Hpr p Hq) as [?|[_ (d & Hd & _)]]; [done|].
      apply (Hbefore round d); [lia|done].
    + intros Hq. destruct (Hpr p Hq) as [?|[_ (d & Hd & _)]]; [done|].
      apply (Hbefore round d); [lia|done].
    + intros q [Hq _]%elem_of_difference. auto.
Qed.

(** While no shelf that opens holds [r], the loop does not raise: it is
    still polling when the fuel is used up, or it returns the accumulator
    as it was. *)
Lemma poll_loop_none_absent :
  ∀ fuel round (fileset processed : gset string) w w' res,
    (∀ j q d, round ≤ j → j < round + fuel → q ∈ fileset →
              opens_in env j q d → contains r d = false) →
    poll_loop "shelve" (merge_if_contains r) fuel env round total
      fileset processed [(r, None)] w = (w', res) →
    res = OutOfFuel ∨ res = Ok [(r, None)].
Proof.
  induction fuel as [|fuel IH]; intros round fileset processed w w' res Habs H;
    cbn [poll_loop] in H.
  { destruct (0 <? size fileset); injection H as <- <-; auto. }
  destruct (0 <? size fileset); [|injection H as <- <-; auto].
  unfold bind at 1 in H.
  destruct (poll_files_none_absent round total (elements fileset)) with
    (processed := processed) (w := w) as (w1 & pr1 & Hround).
  { intros q d Hq%elem_of_elements. apply (Habs round); [lia|lia|done]. }
  rewrite Hround in H.
  unfold bind at 1 in H. cbn [emit] in H.
  eapply IH; [|exact H].
  intros j q d Hj1 Hj2 [Hq _]%elem_of_difference. apply Habs; [lia|lia|done].
Qed.
End NoneSentinel.

(** C10. An accumulator that holds the key of a region with the value None
    cannot take the matrix of that region from a store:
    [add_contents_to_contigs] finds the key present and adds the matrix to
    None, which fails at its first element, so the merge raises instead of
    storing the matrix; for a store of matrices merged into the accumulator
    of just that region the exception is a TypeError and nothing is printed.
    The matrix is one with an element, as that of a region is; without
    elements there is nothing to add to None. So the per-contig live loader,
    started from the accumulator with the region mapped to None, raises no
    later than the round in which a shelf that holds the region is found
    stable and opens for the first time, in whatever round that is, with a
    TypeError when the shelves that open are stores of matrices; and while
    no shelf that opens holds the region it does not raise: it is still
    polling, or it returns the accumulator it was given. *)
Theorem none_sentinel_fails_the_merge :
  (∀ r dat contigs v w,
     dict_get r contigs = Some None →
     dict_get r dat = Some v → has_elements v →
     ∃ w' e, add_contents_to_contigs dat contigs w = (w', Raise e))
  ∧ (∀ r dat v w,
       is_store dat → dict_get r dat = Some v → has_elements v →
       add_contents_to_contigs dat [(r, None)] w = (w, Raise TypeError))
  ∧ (∀ fuel (env : environment) infiles r w k p dat,
       p ∈ infiles →
       opens_in env k p dat → contains r dat = true →
       (∀ j d, j < k → ¬ opens_in env j p d) →
       (∀ j q d v, j ≤ k → q ∈ infiles → opens_in env j q d →
                   dict_get r d = Some v → has_elements v) →
       k < fuel →
       ∃ w' e,
         load_matrices_per_contig_live fuel env infiles [(r, None)] w
           = (w', Raise e)
         ∧ ((∀ j q d, j ≤ k → q ∈ infiles → opens_in env j q d → is_store d) →
            e = TypeError))
  ∧ (∀ fuel (env : environment) infiles r w,
       (∀ j q d, j < fuel → q ∈ infiles → opens_in env j q d →
                 contains r d = false) →
       (load_matrices_per_contig_live fuel env infiles [(r, None)] w).2
         = OutOfFuel
       ∨ (load_matrices_per_contig_live fuel env infiles [(r, None)] w).2
         = Ok [(r, None)]).
Proof.
  assert (Hnone : ∀ r : string,
            dict_get r [(r, @None ndarray)] = Some None).
  { intros r. cbn [dict_get]. by rewrite String.eqb_refl. }
  assert (Htype : ∀ r dat v w,
            is_store dat → dict_get r dat = Some v → has_elements v →
            add_contents_to_contigs dat [(r, None)] w = (w, Raise TypeError)).
  { intros r dat v w Hstore Hin Hv.
    apply (add_contents_none_type_error r dat _ v); [done|auto| |done..].
    intros k _ Hk. cbn [dict_get].
    destruct (String.eqb_spec r k); [congruence|done]. }
  split; [intros; by eapply add_contents_none_fails|].
  split; [exact Htype|]. split.
  - intros fuel env infiles r w k p dat Hp Hopen Hin Hbefore Hne Hfuel.
    unfold load_matrices_per_contig_live. unfold bind at 1.
    cbn [first_key ret].
    apply (poll_loop_none_fails r env
             (λ e, (∀ j q d, j ≤ k → q ∈ infiles → opens_in env j q d →
                             is_store d) → e = TypeError)
             infiles _ k p dat); try done; try lia.
    + intros j q d w0 Hj Hq Hd Hind.
      unfold contains in Hind.
      destruct (dict_get r d) as [v|] eqn:Hget; [|done].
      destruct (add_contents_none_fails r d [(r, None)] v w0)
        as (w1 & e & Hm); [auto|done|by eapply Hne|].
      exists w1, e. split; [done|]. intros Hstores.
      rewrite (Htype r d v w0) in Hm; [congruence|by eapply Hstores|done|].
      by eapply Hne.
    + by apply elem_of_list_to_set.
    + intros q. by rewrite elem_of_list_to_set.
  - intros fuel env infiles r w Habs.
    change (load_matrices_per_contig_live fuel env infiles [(r, None)] w)
      with (poll_loop "shelve" (merge_if_contains r) fuel env 0
              (size (list_to_set (C:=gset string) infiles))
              (list_to_set infiles) ∅ [(r, None)] w).
    destruct (poll_loop "shelve" (merge_if_contains r) fuel env 0
                (size (list_to_set (C:=gset string) infiles))
                (list_to_set infiles) ∅ [(r, None)] w) as [w' res] eqn:H.
    cbn [snd].
    eapply poll_loop_none_absent; [|exact H].
    intros j q d _ Hj Hq%elem_of_list_to_set. apply Habs; [lia|done].
Qed.

Lemma none_sentinel_fails_the_merge_witness :
  (∃ w' e,
     add_contents_to_contigs [("chr1", VNdarray ones43)] [("chr1", None)] world0
       = (w', Raise e))
  ∧ ∃ w' e,
      load_matrices_per_contig_live 8 env_late ["a"] [("chr1", None)] world0
        = (w', Raise e)
      ∧ ((∀ j q d, j ≤ 7 → q ∈ ["a"] → opens_in env_late j q d → is_store d) →
         e = TypeError).
Proof.
  split.
  - apply (proj1 none_sentinel_fails_the_merge
             "chr1" [("chr1", VNdarray ones43)] [("chr1", None)]
             (VNdarray ones43) world0); [reflexivity|reflexivity|].
    intros m [= <-]. cbn. lia.
  - apply (proj1 (proj2 (proj2 none_sentinel_fails_the_merge))
             8 env_late ["a"] "chr1" world0 7 "a"
             [("chr1", VNdarray ones43)]).
    + apply list_elem_of_here.
    + exists 900%Z. split; [reflexivity|]. cbn. lia.
    + reflexivity.
    + intros j d Hj (mtime & [= <- <-] & Hold). cbn in Hold. lia.
    + intros j q d v _ _ (mtime & [= <- <-] & _) [= <-] m [= <-]. cbn. lia.
    + lia.
Defined.

(** C4 at a concrete run. The accumulator of the per-contig live loader is
    for region chr1; the one stable shelf holds chr1 and chr2. The loader
    hands the whole shelf to [add_contents_to_contigs], so the accumulator
    comes back with the key chr2 and its matrix added to it. *)
Theorem per_contig_live_merges_every_region :
  (load_matrices_per_contig_live 1 env_two_regions ["a"]
     [("chr1", Some ones43)] world0).2
  = Ok [("chr1", Some twos43); ("chr2", Some counts43)].
Proof. vm_compute. reflexivity. Qed.

(** ** The arrays of the output file *)

Lemma dict_set_set {V} (k : string) (v v' : V) (d : dict V) :
  dict_set k v (dict_set k v' d) = dict_set k v d.
Proof.
  induction d as [|[k0 v0] d IH]; simpl.
  - by rewrite String.eqb_refl.
  - destruct (String.eqb k0 k) eqn:E; simpl; rewrite E; [done|by rewrite IH].
Qed.

Lemma imap_map_seq {A B} (f : nat → A → B) (g : nat → A) (n : nat) :
  imap f (map g (seq 0 n)) = map (λ i, f i (g i)) (seq 0 n).
Proof.
  revert f g. induction n as [|n IH]; intros f g; [done|].
  simpl. f_equal.
  rewrite <- List.seq_shift, !List.map_map. apply IH.
Qed.

Lemma replicate_map_seq {A} (x : A) (n : nat) :
  replicate n x = map (λ _, x) (seq 0 n).
Proof.
  induction n as [|n IH]; [done|].
  simpl. by rewrite <- List.seq_shift, List.map_map, IH.
Qed.

Lemma zeros_cells (d1 d2 d3 : nat) :
  c_data (zeros (d1, d2, d3)) = cells d1 d2 (λ _ _, replicate d3 0%Z).
Proof.
  unfold cells. simpl. by rewrite replicate_map_seq, (replicate_map_seq _ d2).
Qed.

Lemma imap_cells (h : nat → nat → list Z → list Z) (d1 d2 : nat)
    (f : nat → nat → list Z) :
  imap (λ i plane, imap (λ j cell, h i j cell) plane) (cells d1 d2 f)
  = cells d1 d2 (λ i j, h i j (f i j)).
Proof.
  unfold cells. rewrite imap_map_seq.
  apply List.map_ext. intros i. by rewrite imap_map_seq.
Qed.

Lemma cells_ext (d1 d2 : nat) (f g : nat → nat → list Z) :
  (∀ i j, i < d1 → j < d2 → f i j = g i j) → cells d1 d2 f = cells d1 d2 g.
Proof.
  intros H. unfold cells.
  apply List.map_ext_in. intros i Hi. apply List.in_seq in Hi.
  apply List.map_ext_in. intros j Hj. apply List.in_seq in Hj.
  apply H; lia.
Qed.

Lemma c_get_cells (shape : nat * nat * nat) (d1 d2 : nat)
    (f : nat → nat → list Z) (i j k : nat) :
  i < d1 → j < d2 →
  c_get {| c_shape := shape; c_data := cells d1 d2 f |} i j k = nth k (f i j) 0%Z.
Proof.
  intros Hi Hj. unfold c_get, cells. simpl.
  rewrite (nth_map_seq (λ i, map (λ j, f i j) (seq 0 d2))) by done.
  by rewrite nth_map_seq.
Qed.

Lemma is_carray_cells (d1 d2 d3 : nat) (f : nat → nat → list Z) :
  (∀ i j, length (f i j) = d3) →
  is_carray {| c_shape := (d1, d2, d3); c_data := cells d1 d2 f |}.
Proof.
  intros Hlen. unfold is_carray, cells. simpl. split.
  - by rewrite List.length_map, List.length_seq.
  - apply Forall_forall. intros plane Hplane.
    apply list_elem_of_In, List.in_map_iff in Hplane as (i & <- & _).
    split; [by rewrite List.length_map, List.length_seq|].
    apply Forall_forall. intros cell Hcell.
    apply list_elem_of_In, List.in_map_iff in Hcell as (j & <- & _).
    apply Hlen.
Qed.

(** Within the shape, a count of an array of unsigned 32-bit integers is
    stored as it is. *)
Lemma wrap32_nd_get (m : ndarray) (i j : nat) :
  is_ndarray m → is_uint32 m → i < nrows m → j < ncols m →
  wrap32 (nd_get m i j) = nd_get m i j.
Proof.
  intros [Hrows Hcols] Hu Hi Hj. unfold wrap32, nd_get.
  apply Z.mod_small.
  assert (nth i (rows m) [] ∈ rows m) as Hrow.
  { apply list_elem_of_In, List.nth_In. lia. }
  assert (nth j (nth i (rows m) []) 0%Z ∈ nth i (rows m) []) as Hx.
  { apply list_elem_of_In, List.nth_In.
    rewrite Forall_forall in Hcols. rewrite (Hcols _ Hrow). lia. }
  unfold is_uint32 in Hu. rewrite Forall_forall in Hu.
  specialize (Hu _ Hrow). rewrite Forall_forall in Hu. by apply Hu.
Qed.

Lemma nth_map_default {A B} (f : A → B) (l : list A) (i : nat) (dA : A) (dB : B) :
  f dA = dB → nth i (map f l) dB = f (nth i l dA).
Proof. intros <-. apply List.map_nth. Qed.

Lemma nd_get_cols_from (a : nat) (m : ndarray) (i j : nat) :
  nd_get (cols_from a m) i j = nd_get m i (a + j).
Proof.
  unfold nd_get, cols_from. simpl.
  rewrite (nth_map_default (drop a) _ _ []) by apply drop_nil.
  by rewrite !nth_lookup, lookup_drop.
Qed.

Lemma nd_get_cols_upto (b : nat) (m : ndarray) (i j : nat) :
  j < b → nd_get (cols_upto b m) i j = nd_get m i j.
Proof.
  intros Hj. unfold nd_get, cols_upto. simpl.
  rewrite (nth_map_default (take b) _ _ []) by apply take_nil.
  by rewrite !nth_lookup, lookup_take_lt.
Qed.

(** ** write_to_h5 *)

Lemma zeros_eq (d1 d2 d3 : nat) :
  zeros (d1, d2, d3) =
    {| c_shape := (d1, d2, d3);
       c_data := cells d1 d2 (λ _ _, replicate d3 0%Z) |}.
Proof. by rewrite <- zeros_cells. Qed.

Lemma set_channel_cells (k : nat) (src : ndarray) (d1 d2 d3 : nat)
    (f : nat → nat → list Z) :
  k < d3 → broadcasts_to d1 d2 src = true →
  set_channel k src {| c_shape := (d1, d2, d3); c_data := cells d1 d2 f |}
  = Ok {| c_shape := (d1, d2, d3);
          c_data := cells d1 d2 (λ i j, <[k := wrap32 (bget src i j)]> (f i j)) |}.
Proof.
  intros Hk Hb. unfold set_channel. simpl.
  apply Nat.ltb_lt in Hk as ->. rewrite Hb. by rewrite imap_cells.
Qed.

Lemma create_carray_spec (name : string) (d1 d2 d3 : nat)
    (fout : h5file) (g : dict carray) :
  0 < d1 → 0 < d2 → 0 < d3 →
  dict_get group_name (h5_root fout) = Some g →
  dict_get name g = None →
  create_carray name (d1, d2, d3) fout =
    Ok {| h5_root :=
            dict_set group_name (dict_set name (zeros (d1, d2, d3)) g) (h5_root fout);
          h5_dirty := true |}.
Proof.
  intros H1 H2 H3 Hg Hname. unfold create_carray.
  destruct (Nat.eqb_spec d1 0) as [|_]; [lia|].
  destruct (Nat.eqb_spec d2 0) as [|_]; [lia|].
  destruct (Nat.eqb_spec d3 0) as [|_]; [lia|].
  cbn [orb]. rewrite Hg. unfold contains. by rewrite Hname.
Qed.

Lemma carray_setitem_spec (name : string) (k : nat) (src : ndarray)
    (f : h5file) (g : dict carray) (a a' : carray) :
  dict_get group_name (h5_root f) = Some g →
  dict_get name g = Some a →
  set_channel k src a = Ok a' →
  carray_setitem name k src f =
    Ok {| h5_root := dict_set group_name (dict_set name a' g) (h5_root f);
          h5_dirty := true |}.
Proof.
  intros Hg Hname Hset. unfold carray_setitem. by rewrite Hg, Hname, Hset.
Qed.

(** The three writes of one region: the array is created, its two channels
    are assigned, and the group then holds the region in the wssd layout. *)
Lemma write_region_spec (name : string) (m : ndarray) (B L : nat)
    (fout : h5file) (g : dict carray) :
  is_ndarray m → is_uint32 m → shape m = (2 * B, L) → 0 < B → 0 < L →
  dict_get group_name (h5_root fout) = Some g →
  dict_get name g = None →
  ∃ f1 f2 f3,
    create_carray name (ncols m, nrows m / 2, 2) fout = Ok f1
    ∧ carray_setitem name 0 (cols_from (nrows m / 2) (transpose m)) f1 = Ok f2
    ∧ carray_setitem name 1 (cols_upto (nrows m / 2) (transpose m)) f2 = Ok f3
    ∧ h5_root f3 =
        dict_set group_name
          (dict_set name
             {| c_shape := (L, B, 2);
                c_data := cells L B (λ i j, [nd_get m (B + j) i; nd_get m j i]) |}
             g)
          (h5_root fout).
Proof.
  intros Hnd Hu Hs HB HL Hg Hname.
  unfold shape in Hs. injection Hs as Hr Hc.
  assert (nrows m / 2 = B) as Hdiv.
  { symmetry. apply (Nat.div_unique _ 2 B 0); lia. }
  rewrite Hdiv, Hc.
  assert (Hfrom : broadcasts_to L B (cols_from B (transpose m)) = true).
  { unfold broadcasts_to. simpl. rewrite Hr, Hc, Nat.eqb_refl. simpl.
    apply orb_true_iff. left. apply Nat.eqb_eq. lia. }
  assert (Hupto : broadcasts_to L B (cols_upto B (transpose m)) = true).
  { unfold broadcasts_to. simpl. rewrite Hr, Hc, Nat.eqb_refl. simpl.
    apply orb_true_iff. left. apply Nat.eqb_eq. lia. }
  assert (Hv0 : ∀ i j, i < L → j < B →
            wrap32 (bget (cols_from B (transpose m)) i j) = nd_get m (B + j) i).
  { intros i j Hi Hj. rewrite (bget_in_shape L B); try done.
    - rewrite nd_get_cols_from. unfold transpose.
      rewrite nd_get_tabulate by lia. apply wrap32_nd_get; try done; lia.
    - unfold shape. simpl. rewrite Hr, Hc. f_equal. lia. }
  assert (Hv1 : ∀ i j, i < L → j < B →
            wrap32 (bget (cols_upto B (transpose m)) i j) = nd_get m j i).
  { intros i j Hi Hj. rewrite (bget_in_shape L B); try done.
    - rewrite nd_get_cols_upto by done. unfold transpose.
      rewrite nd_get_tabulate by lia. apply wrap32_nd_get; try done; lia.
    - unfold shape. simpl. rewrite Hr, Hc. f_equal. lia. }
  eexists _, _, _.
  split. { apply (create_carray_spec name L B 2 fout g); try done; lia. }
  split.
  { eapply carray_setitem_spec.
    - apply dict_get_set_eq.
    - apply dict_get_set_eq.
    - rewrite zeros_eq. apply set_channel_cells; [lia|exact Hfrom]. }
  split.
  { eapply carray_setitem_spec.
    - apply dict_get_set_eq.
    - apply dict_get_set_eq.
    - apply set_channel_cells; [lia|exact Hupto]. }
  cbn [h5_root]. rewrite !dict_set_set. do 3 f_equal.
  apply cells_ext. intros i j Hi Hj.
  by rewrite Hv0, Hv1.
Qed.

Lemma h5_array_written (f f' : h5file) (g : dict carray) (k : string) (a : carray) :
  dict_get group_name (h5_root f) = Some g →
  h5_root f' = dict_set group_name (dict_set k a g) (h5_root f) →
  h5_array f' k = Some a ∧ ∀ n, n ≠ k → h5_array f' n = h5_array f n.
Proof.
  intros Hg Hroot. unfold h5_array. rewrite Hroot, Hg, dict_get_set_eq.
  split; [apply dict_get_set_eq|].
  intros n Hn. by apply dict_get_set_ne.
Qed.

Lemma write_to_h5_loop_spec (counts : dict (option ndarray)) :
  ∀ i fout w,
    is_Some (dict_get group_name (h5_root fout)) →
    NoDup (dict_keys counts) →
    Forall (λ kv, ∃ m, kv.2 = Some m ∧ is_region_matrix m) counts →
    (∀ name, name ∈ dict_keys counts → h5_array fout name = None) →
    ∃ w' fout',
      write_to_h5_loop i counts fout w = (w', Ok fout')
      ∧ (∀ name m B L,
           dict_get name counts = Some (Some m) → shape m = (2 * B, L) →
           ∃ a, h5_array fout' name = Some a ∧ wssd_layout B L m a)
      ∧ (∀ name, name ∉ dict_keys counts →
           h5_array fout' name = h5_array fout name)
      ∧ (counts = [] → fout' = fout)
      ∧ (counts ≠ [] → h5_dirty fout' = false).
Proof.
  induction counts as [|[k om] counts IH]; intros i fout w [g Hg] Hnd Hall Hfresh.
  { exists w, fout. repeat split; try done. }
  apply NoDup_cons in Hnd as [Hk Hnd].
  apply Forall_cons in Hall as [(m & Hom & Hnda & Hu & B & L & Hs & HB & HL) Hall].
  simpl in Hom. subst om.
  assert (dict_get k g = None) as Hkg.
  { specialize (Hfresh k (list_elem_of_here _ _)).
    unfold h5_array in Hfresh. by rewrite Hg in Hfresh. }
  destruct (write_region_spec k m B L fout g Hnda Hu Hs HB HL Hg Hkg)
    as (f1 & f2 & f3 & H1 & H2 & H3 & Hroot).
  destruct (h5_array_written fout (flush f3) g k _ Hg Hroot) as [Hat Hother].
  destruct (IH (S i) (flush f3)
              (log (Stdout ("Merger: " +:+ pretty (i + 1)
                            +:+ " Creating array for " +:+ k)) w))
    as (w' & fout' & Hrun & Hget & Hkeep & Hnil & Hdirty); try done.
  { simpl. rewrite Hroot, dict_get_set_eq. by eexists. }
  { intros n Hn. rewrite Hother.
    - apply Hfresh. by apply list_elem_of_further.
    - intros ->. done. }
  exists w', fout'. split.
  { cbn [write_to_h5_loop]. unfold bind, emit, ret, lift.
    by rewrite H1, H2, H3. }
  split.
  { intros name m' B' L' Hname Hs'. simpl in Hname.
    destruct (String.eqb_spec k name) as [<-|Hne]; [|eauto].
    injection Hname as <-.
    assert (B' = B ∧ L' = L) as [-> ->].
    { rewrite Hs in Hs'. injection Hs' as ? ?. lia. }
    eexists. split; [by rewrite Hkeep|].
    split; [done|]. split; [by apply is_carray_cells|].
    intros i0 j0 Hi Hj. by rewrite !c_get_cells. }
  split.
  { intros name Hname. apply not_elem_of_cons in Hname as [Hne Hname].
    by rewrite Hkeep, Hother. }
  split; [done|].
  intros _. destruct counts as [|kv counts]; [|by apply Hdirty].
  by rewrite Hnil.
Qed.

(** C3. [write_to_h5] writes every matrix of unsigned 32-bit counts of a
    shape [(2B, L)] (with B and L positive, under a name the group of the
    file does not have yet) as an array of that name and of shape
    [(L, B, 2)]: at [i, j] its
    channel 0 holds the count at row [B + j] and column [i] of the matrix,
    its channel 1 the count at row [j] and column [i], that is rows
    [B, 2B) and rows [0, B) transposed. The write succeeds, and the file is
    flushed when it returns. *)
Theorem write_to_h5_layout
    (counts : dict (option ndarray)) (fout : h5file) (w : world) :
  NoDup (dict_keys counts) →
  Forall (λ kv, ∃ m, kv.2 = Some m ∧ is_region_matrix m) counts →
  (∀ name, name ∈ dict_keys counts → h5_array fout name = None) →
  ∃ w' fout',
    write_to_h5 counts fout w = (w', Ok fout')
    ∧ (∀ name m B L,
         dict_get name counts = Some (Some m) → shape m = (2 * B, L) →
         ∃ a, h5_array fout' name = Some a ∧ wssd_layout B L m a)
    ∧ (counts ≠ [] → h5_dirty fout' = false).
Proof.
  intros Hnd Hall Hfresh. unfold write_to_h5.
  destruct (write_to_h5_loop_spec counts 0 (get_or_create_group fout) w)
    as (w' & fout' & Hrun & Hget & _ & _ & Hdirty); try done.
  - unfold get_or_create_group.
    destruct (dict_get group_name (h5_root fout)) eqn:Hg; [by rewrite Hg|].
    simpl. by rewrite dict_get_set_eq.
  - intros name Hname. specialize (Hfresh name Hname).
    unfold get_or_create_group, h5_array in *.
    destruct (dict_get group_name (h5_root fout)) eqn:Hg; [by rewrite Hg|].
    simpl. by rewrite dict_get_set_eq.
  - eauto.
Qed.

Lemma region_matrix_43 (m : ndarray) :
  nrows m = 4 → ncols m = 3 →
  bool_decide (length (rows m) = 4
               ∧ Forall (λ r, length r = 3) (rows m)
               ∧ Forall (Forall (λ x, 0 ≤ x < 2 ^ 32)%Z) (rows m)) = true →
  is_region_matrix m.
Proof.
  intros Hr Hc (Hlen & Hrows & Hu)%bool_decide_eq_true.
  split; [|split; [done|]].
  - split; [by rewrite Hr|by rewrite Hc].
  - exists 2, 3. unfold shape. rewrite Hr, Hc. repeat split; lia.
Qed.

Lemma write_to_h5_layout_witness :
  ∃ w' fout',
    write_to_h5 sample_counts h5_empty world0 = (w', Ok fout')
    ∧ (∀ name m B L,
         dict_get name sample_counts = Some (Some m) → shape m = (2 * B, L) →
         ∃ a, h5_array fout' name = Some a ∧ wssd_layout B L m a)
    ∧ (sample_counts ≠ [] → h5_dirty fout' = false).
Proof.
  apply (write_to_h5_layout sample_counts h5_empty world0).
  - apply (bool_decide_unpack _). vm_compute. reflexivity.
  - constructor; [|constructor; [|constructor]].
    + exists counts43. split; [reflexivity|].
      apply region_matrix_43; [reflexivity|reflexivity|]. vm_compute. reflexivity.
    + exists ones43. split; [reflexivity|].
      apply region_matrix_43; [reflexivity|reflexivity|]. vm_compute. reflexivity.
  - intros name _. reflexivity.
Defined.

Lemma add_contents_order_independent_witness :
  ∃ c12 c21,
    (c <- add_contents_to_contigs store_a [];;;
     add_contents_to_contigs store_b c) world0 = (world0, Ok c12)
    ∧ (c <- add_contents_to_contigs store_b [];;;
       add_contents_to_contigs store_a c) world0 = (world0, Ok c21)
    ∧ ∀ r, dict_get r c12 = dict_get r c21.
Proof.
  apply (add_contents_order_independent store_a store_b world0).
  - split.
    + apply (bool_decide_unpack _). vm_compute. reflexivity.
    + repeat constructor; by eexists.
  - split.
    + apply (bool_decide_unpack _). vm_compute. reflexivity.
    + repeat constructor; by eexists.
  - intros r v1 v2. unfold store_a, store_b. cbn [dict_get].
    destruct (String.eqb "chr1" r); [intros [= <-] [= <-]; reflexivity|].
    destruct (String.eqb "chr2" r), (String.eqb "chr3" r);
      intros [= <-] [= <-]; reflexivity.
Defined.

(** ** The batch loaders at concrete shelves *)

(** C1 at concrete shelves. One shelf holds region chr2. The batch merge
    gives the accumulator its matrix; the per-contig merge for chr2 finds the
    key chr2 in the shelf and then reads the shelf under the text
    contig_name, which the shelf does not have: a KeyError. When the shelf
    does have a key of that text, it is the matrix under that key that the
    per-contig merge takes for chr2. *)
Theorem load_matrices_per_contig_reads_literal_key :
  (load_matrices_post ["s1"] [] (World disk_chr2 [])).2
    = Ok [("chr2", Some ones43)]
  ∧ (load_matrices_per_contig ["s1"] [("chr2", None)] (World disk_chr2 [])).2
    = Raise (KeyError "contig_name")
  ∧ (load_matrices_per_contig ["s1"] [("chr2", None)]
       (World disk_chr2_literal [])).2
    = Ok [("chr2", Some twos43)].
Proof. repeat split; vm_compute; reflexivity. Qed.

(** C5 at concrete shelves. A shelf that cannot be opened ends
    [load_matrices_post] with the error of the open. A path with no shelf
    behind it does not: the batch loader opens with the default flag, an
    empty shelf is created at the path, and the loader goes on; the
    per-contig loader, which opens with flag r, raises at the same path and
    leaves the disk as it was. *)
Theorem load_matrices_post_creates_missing_shelf :
  (load_matrices_post ["s1"] [] (World disk_unreadable [])).2
    = Raise (DbmError "db type could not be determined")
  ∧ w_fs world0 !! "missing" = None
  ∧ (load_matrices_post ["missing"] [] world0).2 = Ok []
  ∧ w_fs (load_matrices_post ["missing"] [] world0).1 !! "missing"
    = Some (Shelf [])
  ∧ w_log (load_matrices_post ["missing"] [] world0).1
    = [ShelveOpen "missing" FlagC true;
       Stdout "Loading shelve 1 of 1: missing"; ShelveClose "missing"]
  ∧ (load_matrices_per_contig ["missing"] [("chr1", None)] world0).2
    = Raise (DbmError "need 'c' or 'n' flag to open new db")
  ∧ w_fs (load_matrices_per_contig ["missing"] [("chr1", None)] world0).1
      !! "missing"
    = None.
Proof. repeat split; vm_compute; reflexivity. Qed.

(** ** write_wssd_to_h5 *)

(** The array that [write_wssd_to_h5] leaves in the output file under the
    name of the input array is the one [tables.CArray] created: it has the
    shape of the input array and holds 0 everywhere. *)
Lemma write_wssd_to_h5_writes_zeros (wssd fout : h5file) (w : world)
    (name : string) (a : carray) (nodes : dict carray) (d1 d2 d3 : nat) :
  list_nodes wssd = Ok ((name, a) :: nodes) →
  c_shape a = (d1, d2, d3) → 0 < d1 → 0 < d2 → 0 < d3 →
  h5_array fout name = None →
  ∃ fout',
    write_wssd_to_h5 wssd fout w = (w, Ok fout')
    ∧ h5_array fout' name = Some (zeros (d1, d2, d3))
    ∧ h5_dirty fout' = false.
Proof.
  intros Hnodes Hshape H1 H2 H3 Hfresh.
  unfold write_wssd_to_h5. unfold bind, lift, ret. rewrite Hnodes, Hshape.
  assert (∃ g, dict_get group_name (h5_root (get_or_create_group fout)) = Some g
               ∧ dict_get name g = None) as (g & Hg & Hname).
  { unfold get_or_create_group, h5_array in *.
    destruct (dict_get group_name (h5_root fout)) as [g|] eqn:Hg.
    - exists g. by rewrite Hg.
    - exists []. simpl. by rewrite dict_get_set_eq. }
  rewrite (create_carray_spec name d1 d2 d3 _ g) by done.
  eexists. split; [reflexivity|]. split; [|done].
  unfold h5_array. simpl. rewrite dict_get_set_eq. apply dict_get_set_eq.
Qed.

(** C2 at a concrete file. The input file holds one array, chr1, of shape
    (1, 2, 2) with the counts 5, 6, 7, 8. After [write_wssd_to_h5] the output
    file holds an array chr1 of that shape, and it holds 0 everywhere: the
    counts were not copied. *)
Theorem write_wssd_to_h5_copies_nothing :
  h5_array wssd_chr1 "chr1" = Some (CArray (1, 2, 2) [[[5; 6]; [7; 8]]]%Z)
  ∧ ∃ fout',
      write_wssd_to_h5 wssd_chr1 h5_empty world0 = (world0, Ok fout')
      ∧ h5_array fout' "chr1" = Some (CArray (1, 2, 2) [[[0; 0]; [0; 0]]]%Z)
      ∧ h5_dirty fout' = false.
Proof.
  split; [reflexivity|]. eexists. split; [reflexivity|]. by split.
Qed.

(** ** More on add_contents_to_contigs *)

Lemma dict_keys_set {V} (k : string) (v : V) (d : dict V) :
  dict_keys (dict_set k v d) =
    if contains k d then dict_keys d else dict_keys d ++ [k].
Proof.
  unfold contains. induction d as [|[k' v'] d IH]; simpl; [done|].
  destruct (String.eqb k' k) eqn:E; simpl; [done|].
  rewrite IH. by destruct (dict_get k d).
Qed.

(** What a merge that returns did with the first item of the store. *)
Lemma add_contents_cons_Ok (k : string) (v : value) (dat : dict value)
    (contigs : dict (option ndarray)) (w w' : world) (c' : dict (option ndarray)) :
  add_contents_to_contigs ((k, v) :: dat) contigs w = (w', Ok c') →
  ∃ m c1,
    dense v = Some m
    ∧ add_contents_to_contigs dat c1 w = (w', Ok c')
    ∧ ((dict_get k contigs = None ∧ c1 = dict_set k (Some m) contigs)
       ∨ (∃ a, dict_get k contigs = Some (Some a)
               ∧ broadcasts_to (nrows a) (ncols a) m = true
               ∧ c1 = dict_set k
                        (Some (tabulate (nrows a) (ncols a)
                                 (λ i j, wrap32 (nd_get a i j + bget m i j))))
                        contigs)
       ∨ (dict_get k contigs = Some None
          ∧ nrows m * ncols m = 0
          ∧ c1 = dict_set k
                   (Some (tabulate (nrows m) (ncols m) (λ _ _, 0%Z)))
                   contigs)).
Proof.
  intros H. simpl in H. unfold bind at 1 in H.
  destruct (dense v) as [m|] eqn:Hm.
  2: { destruct v; discriminate. }
  rewrite (convert_matrix_dense v m) in H by done. unfold bind at 1 in H.
  exists m. destruct (dict_get k contigs) as [[a|]|]; run.
  - unfold iadd in H.
    destruct (broadcasts_to (nrows a) (ncols a) m) eqn:Hb; run; [|discriminate].
    eexists. split; [done|]. split; [exact H|]. right. left. eauto.
  - destruct (Nat.eqb_spec (nrows m * ncols m) 0) as [Hz|]; run;
      [|discriminate].
    eexists. split; [done|]. split; [exact H|]. right. right. eauto.
  - eexists. split; [done|]. split; [exact H|]. by left.
Qed.

(** X1. A merge that returns has printed nothing, has kept every key of the
    accumulator in its place and put the new keys, all of them keys of the
    store, after them, and has left the value of every region that the store
    does not hold as it was. *)
Theorem add_contents_keeps_other_regions (dat : dict value) :
  ∀ contigs w w' c',
    add_contents_to_contigs dat contigs w = (w', Ok c') →
    w' = w
    ∧ (∃ new, dict_keys c' = dict_keys contigs ++ new
              ∧ ∀ k, k ∈ new → k ∈ dict_keys dat)
    ∧ ∀ r, r ∉ dict_keys dat → dict_get r c' = dict_get r contigs.
Proof.
  induction dat as [|[k v] dat IH]; intros contigs w w' c' H.
  { injection H as <- <-. split; [done|]. split; [|done].
    exists []. split; [by rewrite app_nil_r|]. by intros k Hk%elem_of_nil. }
  apply add_contents_cons_Ok in H as (m & c1 & _ & Hrest & Hc1).
  destruct (IH _ _ _ _ Hrest) as (-> & (new & Hkeys & Hnew) & Hother).
  split; [done|].
  assert (∃ new1, dict_keys c1 = dict_keys contigs ++ new1
                  ∧ (∀ k', k' ∈ new1 → k' = k)
                  ∧ ∀ r, r ≠ k → dict_get r c1 = dict_get r contigs)
    as (new1 & Hkeys1 & Hnew1 & Hother1).
  { destruct Hc1 as [[Hk ->]|[(a & Hk & _ & ->)|(Hk & _ & ->)]];
      rewrite dict_keys_set; unfold contains; rewrite Hk.
    - exists [k]. split; [done|]. split.
      + by intros k' ->%list_elem_of_singleton.
      + intros r Hr. by apply dict_get_set_ne.
    - exists []. split; [by rewrite app_nil_r|]. split.
      + by intros k' ?%elem_of_nil.
      + intros r Hr. by apply dict_get_set_ne.
    - exists []. split; [by rewrite app_nil_r|]. split.
      + by intros k' ?%elem_of_nil.
      + intros r Hr. by apply dict_get_set_ne. }
  split.
  - exists (new1 ++ new). split; [by rewrite Hkeys, Hkeys1, app_assoc|].
    intros k' [Hk'|Hk']%elem_of_app; simpl.
    + rewrite (Hnew1 k' Hk'). apply list_elem_of_here.
    + apply list_elem_of_further. by apply Hnew.
  - intros r Hr. simpl in Hr. apply not_elem_of_cons in Hr as [Hne Hr].
    rewrite Hother by done. by apply Hother1.
Qed.

Lemma add_contents_keeps_other_regions_witness :
  world0 = world0
  ∧ (∃ new, dict_keys [("chr9", Some ones43); ("chr1", Some counts43)]
            = dict_keys [("chr9", Some ones43)] ++ new
            ∧ ∀ k, k ∈ new → k ∈ dict_keys [("chr1", VNdarray counts43)])
  ∧ ∀ r, r ∉ dict_keys [("chr1", VNdarray counts43)] →
      dict_get r [("chr9", Some ones43); ("chr1", Some counts43)]
      = dict_get r [("chr9", Some ones43)].
Proof.
  apply (add_contents_keeps_other_regions
           [("chr1", VNdarray counts43)] [("chr9", Some ones43)] world0).
  reflexivity.
Defined.

(** X2. A merge that returns has not changed the shape of any accumulated
    matrix: a region that had a matrix before has one of the same shape
    after, whatever the shapes of the matrices of the store. *)
Theorem add_contents_keeps_shapes (dat : dict value) :
  ∀ contigs w w' c' r a,
    add_contents_to_contigs dat contigs w = (w', Ok c') →
    dict_get r contigs = Some (Some a) →
    ∃ a', dict_get r c' = Some (Some a') ∧ shape a' = shape a.
Proof.
  induction dat as [|[k v] dat IH]; intros contigs w w' c' r a H Hr.
  { injection H as <- <-. eauto. }
  apply add_contents_cons_Ok in H as (m & c1 & _ & Hrest & Hc1).
  assert (∃ a1, dict_get r c1 = Some (Some a1) ∧ shape a1 = shape a)
    as (a1 & Hr1 & Hs1).
  { destruct (decide (k = r)) as [->|Hne].
    - destruct Hc1 as [[Hk _]|[(a0 & Hk & _ & ->)|(Hk & _)]];
        [congruence| |congruence].
      assert (a0 = a) as -> by congruence.
      rewrite dict_get_set_eq. by eexists.
    - exists a. split; [|done].
      destruct Hc1 as [[_ ->]|[(a0 & _ & _ & ->)|(_ & _ & ->)]];
        by rewrite dict_get_set_ne. }
  destruct (IH _ _ _ _ _ _ Hrest Hr1) as (a' & Hr' & Hs').
  exists a'. split; [done|congruence].
Qed.

Lemma add_contents_keeps_shapes_witness :
  ∃ a', dict_get "chr1" [("chr1", Some twos43)] = Some (Some a')
        ∧ shape a' = shape ones43.
Proof.
  apply (add_contents_keeps_shapes [("chr1", VNdarray ones43)]
           [("chr1", Some ones43)] world0 world0).
  - reflexivity.
  - reflexivity.
Defined.

Lemma add_contents_Ok_dense (dat : dict value) :
  ∀ contigs w w' c',
    add_contents_to_contigs dat contigs w = (w', Ok c') →
    Forall (λ kv, is_Some (dense kv.2)) dat.
Proof.
  induction dat as [|[k v] dat IH]; intros contigs w w' c' H; [constructor|].
  apply add_contents_cons_Ok in H as (m & c1 & Hm & Hrest & _).
  constructor; [by eexists|by eapply IH].
Qed.

(** X3. A store that holds, under any key, a value that is neither a dense
    array nor a sparse matrix is never merged: the merge ends with an
    exception. When that value is the first item of the store, the name of
    its class is printed on the standard error stream and the process exits
    with status 1 before the accumulator is touched. *)
Theorem add_contents_rejects_other_values :
  (∀ dat contigs w k c,
     (k, VObject c) ∈ dat →
     ∃ w' e, add_contents_to_contigs dat contigs w = (w', Raise e))
  ∧ (∀ dat contigs w k c,
       add_contents_to_contigs ((k, VObject c) :: dat) contigs w
       = (log (Stderr ("Error: unrecognized data type for matrix: " +:+ c)) w,
          Raise (SystemExit 1))).
Proof.
  split; [|done].
  intros dat contigs w k c Hin.
  destruct (add_contents_to_contigs dat contigs w) as [w' [c'|e|]] eqn:H.
  - apply add_contents_Ok_dense in H. rewrite Forall_forall in H.
    by destruct (H _ Hin).
  - eauto.
  - by apply add_contents_total in H.
Qed.

Lemma add_contents_rejects_other_values_witness :
  ∃ w' e,
    add_contents_to_contigs
      [("chr1", VNdarray ones43); ("chr2", VObject "dict")] [] world0
    = (w', Raise e).
Proof.
  apply (proj1 add_contents_rejects_other_values _ _ _ "chr2" "dict").
  apply list_elem_of_further, list_elem_of_here.
Defined.

Lemma add_contents_Ok_broadcasts (dat : dict value) :
  ∀ contigs w w' c' r v m a,
    add_contents_to_contigs dat contigs w = (w', Ok c') →
    (r, v) ∈ dat → dense v = Some m →
    dict_get r contigs = Some (Some a) →
    broadcasts_to (nrows a) (ncols a) m = true.
Proof.
  induction dat as [|[k v0] dat IH]; intros contigs w w' c' r v m a H Hin Hm Hr.
  { by apply elem_of_nil in Hin. }
  pose proof H as H0.
  apply add_contents_cons_Ok in H as (m0 & c1 & Hm0 & Hrest & Hc1).
  apply elem_of_cons in Hin as [[= -> ->]|Hin].
  - destruct Hc1 as [[Hk _]|[(a0 & Hk & Hb & _)|(Hk & _)]];
      [congruence| |congruence].
    assert (a0 = a) as -> by congruence. congruence.
  - assert (∃ a1, dict_get r c1 = Some (Some a1) ∧ shape a1 = shape a)
      as (a1 & Hr1 & Hs1).
    { destruct (decide (k = r)) as [->|Hne].
      - destruct Hc1 as [[Hk _]|[(a0 & Hk & _ & ->)|(Hk & _)]];
          [congruence| |congruence].
        assert (a0 = a) as -> by congruence.
        rewrite dict_get_set_eq. by eexists.
      - exists a. split; [|done].
        destruct Hc1 as [[_ ->]|[(a0 & _ & _ & ->)|(_ & _ & ->)]];
          by rewrite dict_get_set_ne. }
    injection Hs1 as <- <-. by eapply IH.
Qed.

(** X4. A matrix of the store whose shape cannot be broadcast to the shape
    of the matrix accumulated for its region makes the merge fail, wherever
    it stands in the store; for a store of that single matrix the failure is
    a ValueError and nothing is printed. *)
Theorem add_contents_shape_mismatch_raises :
  (∀ dat contigs w r v m a,
     (r, v) ∈ dat → dense v = Some m →
     dict_get r contigs = Some (Some a) →
     broadcasts_to (nrows a) (ncols a) m = false →
     ∃ w' e, add_contents_to_contigs dat contigs w = (w', Raise e))
  ∧ (∀ w r v m a,
       dense v = Some m →
       broadcasts_to (nrows a) (ncols a) m = false →
       add_contents_to_contigs [(r, v)] [(r, Some a)] w = (w, Raise ValueError)).
Proof.
  split.
  - intros dat contigs w r v m a Hin Hm Hr Hb.
    destruct (add_contents_to_contigs dat contigs w) as [w' [c'|e|]] eqn:H.
    + rewrite (add_contents_Ok_broadcasts _ _ _ _ _ _ _ _ _ H Hin Hm Hr) in Hb.
      discriminate.
    + eauto.
    + by apply add_contents_total in H.
  - intros w r v m a Hm Hb. simpl. unfold bind at 1.
    rewrite (convert_matrix_dense v m) by done.
    rewrite String.eqb_refl. run. unfold iadd. by rewrite Hb.
Qed.

Lemma add_contents_shape_mismatch_raises_witness :
  add_contents_to_contigs [("chr1", VNdarray (transpose ones43))]
    [("chr1", Some ones43)] world0
  = (world0, Raise ValueError).
Proof.
  apply (proj2 add_contents_shape_mismatch_raises world0 "chr1"
           (VNdarray (transpose ones43)) (transpose ones43) ones43);
    reflexivity.
Defined.

(** X5. A shape that differs is not always refused: a matrix of a single
    row and as many columns as the accumulated one is accepted, and its row
    is added to every row of the accumulated matrix, whose shape stays. *)
Theorem add_contents_broadcasts_single_row
    (r : string) (m a : ndarray) (w : world) :
  shape m = (1, ncols a) →
  ∃ s,
    add_contents_to_contigs [(r, VNdarray m)] [(r, Some a)] w
      = (w, Ok [(r, Some s)])
    ∧ shape s = shape a
    ∧ ∀ i j, i < nrows a → j < ncols a →
        nd_get s i j = wrap32 (nd_get a i j + nd_get m 0 j).
Proof.
  intros [= Hr Hc]. eexists. split; [|split].
  - simpl. unfold bind at 1. simpl. rewrite String.eqb_refl. run.
    unfold iadd, broadcasts_to. rewrite Hr, Hc, !Nat.eqb_refl.
    rewrite orb_true_r. reflexivity.
  - done.
  - intros i j Hi Hj. rewrite nd_get_tabulate by done. unfold bget.
    rewrite Hr, Hc. simpl.
    destruct (Nat.eqb_spec (ncols a) 1) as [E|_]; [|done].
    by replace j with 0 by lia.
Qed.

Lemma add_contents_broadcasts_single_row_witness :
  ∃ s,
    add_contents_to_contigs [("chr1", VNdarray (NdArray 1 3 [[5; 6; 7]%Z]))]
      [("chr1", Some ones43)] world0
      = (world0, Ok [("chr1", Some s)])
    ∧ shape s = shape ones43
    ∧ ∀ i j, i < nrows ones43 → j < ncols ones43 →
        nd_get s i j
        = wrap32 (nd_get ones43 i j + nd_get (NdArray 1 3 [[5; 6; 7]%Z]) 0 j).
Proof.
  apply (add_contents_broadcasts_single_row "chr1"
           (NdArray 1 3 [[5; 6; 7]%Z]) ones43 world0).
  reflexivity.
Defined.

(** ** More on the writers *)

Lemma h5_array_get_or_create_group (f : h5file) (n : string) :
  h5_array (get_or_create_group f) n = h5_array f n.
Proof.
  unfold get_or_create_group, h5_array.
  destruct (dict_get group_name (h5_root f)) eqn:Hg; [by rewrite Hg|].
  simpl. by rewrite dict_get_set_eq.
Qed.

Lemma get_or_create_group_has_group (f : h5file) :
  is_Some (dict_get group_name (h5_root (get_or_create_group f))).
Proof.
  unfold get_or_create_group.
  destruct (dict_get group_name (h5_root f)) eqn:Hg; [by rewrite Hg|].
  simpl. by rewrite dict_get_set_eq.
Qed.

Lemma create_carray_Ok (name : string) (shape : nat * nat * nat) (f f' : h5file) :
  create_carray name shape f = Ok f' →
  h5_array f name = None
  ∧ h5_array f' name = Some (zeros shape)
  ∧ ∀ n, n ≠ name → h5_array f' n = h5_array f n.
Proof.
  unfold create_carray, h5_array. destruct shape as [[d1 d2] d3].
  destruct (_ || _); [discriminate|].
  destruct (dict_get group_name (h5_root f)) as [g|]; [|discriminate].
  unfold contains. destruct (dict_get name g) eqn:Hname; [discriminate|].
  intros [= <-]. simpl. rewrite !dict_get_set_eq.
  split; [done|]. split; [done|].
  intros n Hn. by apply dict_get_set_ne.
Qed.

Lemma carray_setitem_Ok (name : string) (k : nat) (src : ndarray) (f f' : h5file) :
  carray_setitem name k src f = Ok f' →
  is_Some (h5_array f' name) ∧ ∀ n, n ≠ name → h5_array f' n = h5_array f n.
Proof.
  unfold carray_setitem, h5_array.
  destruct (dict_get group_name (h5_root f)) as [g|]; [|discriminate].
  destruct (dict_get name g) as [a|]; [|discriminate].
  destruct (set_channel k src a) as [a'| |]; try discriminate.
  intros [= <-]. simpl. rewrite !dict_get_set_eq. split.
  - by eexists.
  - intros n Hn. by apply dict_get_set_ne.
Qed.

(** What a write that returns did with the first region. *)
Lemma write_to_h5_loop_cons_Ok (i : nat) (k : string) (om : option ndarray)
    (rest : dict (option ndarray)) (fout fout' : h5file) (w w' : world) :
  write_to_h5_loop i ((k, om) :: rest) fout w = (w', Ok fout') →
  ∃ m f1 f2 f3 w1,
    om = Some m
    ∧ create_carray k (ncols m, nrows m / 2, 2) fout = Ok f1
    ∧ carray_setitem k 0 (cols_from (nrows m / 2) (transpose m)) f1 = Ok f2
    ∧ carray_setitem k 1 (cols_upto (nrows m / 2) (transpose m)) f2 = Ok f3
    ∧ write_to_h5_loop (S i) rest (flush f3) w1 = (w', Ok fout').
Proof.
  cbn [write_to_h5_loop]. unfold bind, emit, ret, lift, raise.
  destruct om as [m|]; [|discriminate].
  destruct (create_carray _ _ _) as [f1| |] eqn:H1; try discriminate.
  destruct (carray_setitem _ 0 _ _) as [f2| |] eqn:H2; try discriminate.
  destruct (carray_setitem _ 1 _ _) as [f3| |] eqn:H3; try discriminate.
  intros H. exists m, f1, f2, f3. eexists. repeat split; try done.
Qed.

Lemma write_to_h5_loop_keeps (counts : dict (option ndarray)) :
  ∀ i fout w w' fout',
    write_to_h5_loop i counts fout w = (w', Ok fout') →
    (∀ name, name ∉ dict_keys counts → h5_array fout' name = h5_array fout name)
    ∧ (∀ name a, h5_array fout name = Some a →
         h5_array fout' name = Some a ∧ name ∉ dict_keys counts)
    ∧ (∀ name, name ∈ dict_keys counts → is_Some (h5_array fout' name)).
Proof.
  induction counts as [|[k om] counts IH]; intros i fout w w' fout' H.
  { injection H as <- <-. split; [done|]. split.
    - intros name a Ha. split; [done|]. by intros ?%elem_of_nil.
    - by intros name ?%elem_of_nil. }
  apply write_to_h5_loop_cons_Ok in H
    as (m & f1 & f2 & f3 & w1 & -> & H1 & H2 & H3 & Hrest).
  apply create_carray_Ok in H1 as (Hfresh & _ & Hother1).
  apply carray_setitem_Ok in H2 as (_ & Hother2).
  apply carray_setitem_Ok in H3 as (Hk3 & Hother3).
  destruct (IH _ _ _ _ _ Hrest) as (Hout & Hkeep & Hin).
  assert (Hstep : ∀ n, n ≠ k → h5_array (flush f3) n = h5_array fout n).
  { intros n Hn. unfold flush, h5_array at 1. simpl.
    change (h5_array f3 n = h5_array fout n).
    by rewrite Hother3, Hother2, Hother1. }
  split; [|split].
  - intros name [Hne Hname]%not_elem_of_cons.
    by rewrite Hout, Hstep.
  - intros name a Ha.
    assert (name ≠ k) as Hne by (intros ->; congruence).
    destruct (Hkeep name a) as [Ha' Hnot]; [by rewrite Hstep|].
    split; [done|]. simpl. by apply not_elem_of_cons.
  - intros name [->|Hname]%elem_of_cons; [|by apply Hin].
    destruct Hk3 as [a3 Ha3].
    destruct (Hkeep k a3) as [Ha' _]; [done|]. by eexists.
Qed.

(** X6. A call of [write_to_h5] that returns has left every array that the
    file already held as it was, none of them under a name of [counts], and
    the file holds an array under every name of [counts]. *)
Theorem write_to_h5_keeps_existing_arrays
    (counts : dict (option ndarray)) (fout fout' : h5file) (w w' : world) :
  write_to_h5 counts fout w = (w', Ok fout') →
  (∀ name a, h5_array fout name = Some a →
     h5_array fout' name = Some a ∧ name ∉ dict_keys counts)
  ∧ (∀ name, name ∈ dict_keys counts → is_Some (h5_array fout' name)).
Proof.
  unfold write_to_h5. intros H.
  apply write_to_h5_loop_keeps in H as (_ & Hkeep & Hin).
  split; [|done].
  intros name a Ha. apply Hkeep. by rewrite h5_array_get_or_create_group.
Qed.

Lemma write_to_h5_keeps_existing_arrays_witness :
  ∃ fout',
    (write_to_h5 [("chr2", Some ones43)] wssd_chr1 world0).2 = Ok fout'
    ∧ (∀ name a, h5_array wssd_chr1 name = Some a →
         h5_array fout' name = Some a
         ∧ name ∉ dict_keys [("chr2", Some ones43)])
    ∧ (∀ name, name ∈ dict_keys [("chr2", Some ones43)] →
         is_Some (h5_array fout' name)).
Proof.
  destruct (write_to_h5 [("chr2", Some ones43)] wssd_chr1 world0)
    as [w' r] eqn:H.
  assert (∃ fout', r = Ok fout') as [fout' ->].
  { vm_compute in H. injection H as _ <-. by eexists. }
  exists fout'. split; [done|].
  exact (write_to_h5_keeps_existing_arrays _ _ _ _ _ H).
Defined.

(** X7. Writing is not repeatable. After [write_to_h5] has written region
    matrices into a file, writing the same regions into that file again
    fails at the first of them with a NodeError: the name is taken. *)
Theorem write_to_h5_twice_raises
    (counts : dict (option ndarray)) (fout : h5file) (w : world) :
  counts ≠ [] →
  NoDup (dict_keys counts) →
  Forall (λ kv, ∃ m, kv.2 = Some m ∧ is_region_matrix m) counts →
  (∀ name, name ∈ dict_keys counts → h5_array fout name = None) →
  ∃ w' fout' w'',
    write_to_h5 counts fout w = (w', Ok fout')
    ∧ write_to_h5 counts fout' w' = (w'', Raise NodeError).
Proof.
  intros Hne Hnd Hall Hfresh. unfold write_to_h5.
  destruct (write_to_h5_loop_spec counts 0 (get_or_create_group fout) w)
    as (w' & fout' & Hrun & Hget & _); try done.
  { apply get_or_create_group_has_group. }
  { intros name Hname. rewrite h5_array_get_or_create_group. auto. }
  destruct counts as [|[k om] counts]; [done|].
  apply Forall_cons in Hall as [(m & Hom & _ & _ & B & L & Hs & HB & HL) _].
  simpl in Hom. subst om.
  destruct (Hget k m B L) as (a & Ha & _); [simpl; by rewrite String.eqb_refl|done|].
  rewrite <- h5_array_get_or_create_group in Ha.
  exists w', fout'. eexists. split; [done|].
  cbn [write_to_h5_loop]. unfold bind, emit, ret, lift.
  unfold create_carray. injection Hs as Hr Hc.
  assert (nrows m / 2 = B) as -> by (symmetry; apply (Nat.div_unique _ 2 B 0); lia).
  rewrite Hc.
  destruct (Nat.eqb_spec L 0) as [|_]; [lia|].
  destruct (Nat.eqb_spec B 0) as [|_]; [lia|]. cbn [orb Nat.eqb].
  unfold h5_array in Ha.
  destruct (dict_get group_name (h5_root (get_or_create_group fout')))
    as [g|] eqn:Hg; try rewrite Hg in Ha; [|discriminate].
  unfold contains. by rewrite Ha.
Qed.

Lemma write_to_h5_twice_raises_witness :
  ∃ w' fout' w'',
    write_to_h5 sample_counts h5_empty world0 = (w', Ok fout')
    ∧ write_to_h5 sample_counts fout' w' = (w'', Raise NodeError).
Proof.
  apply (write_to_h5_twice_raises sample_counts h5_empty world0).
  - discriminate.
  - apply (bool_decide_unpack _). vm_compute. reflexivity.
  - constructor; [|constructor; [|constructor]].
    + exists counts43. split; [reflexivity|].
      apply region_matrix_43; [reflexivity|reflexivity|]. vm_compute. reflexivity.
    + exists ones43. split; [reflexivity|].
      apply region_matrix_43; [reflexivity|reflexivity|]. vm_compute. reflexivity.
  - intros name _. reflexivity.
Defined.

Lemma create_carray_zero_dim (name : string) (d1 d2 d3 : nat) (f : h5file) :
  d1 = 0 ∨ d2 = 0 ∨ d3 = 0 →
  create_carray name (d1, d2, d3) f = Raise ValueError.
Proof.
  intros H. unfold create_carray.
  destruct (Nat.eqb_spec d1 0), (Nat.eqb_spec d2 0), (Nat.eqb_spec d3 0);
    try done; lia.
Qed.

Lemma set_channel_not_broadcast (k : nat) (src : ndarray) (d1 d2 d3 : nat) :
  k < d3 → broadcasts_to d1 d2 src = false →
  set_channel k src (zeros (d1, d2, d3)) = Raise ValueError.
Proof.
  intros Hk Hb. unfold set_channel. cbn [c_shape zeros].
  apply Nat.ltb_lt in Hk as ->. by rewrite Hb.
Qed.

Lemma carray_setitem_raise (name : string) (k : nat) (src : ndarray)
    (f : h5file) (g : dict carray) (a : carray) (e : exn) :
  dict_get group_name (h5_root f) = Some g →
  dict_get name g = Some a →
  set_channel k src a = Raise e →
  carray_setitem name k src f = Raise e.
Proof.
  intros Hg Hname Hset. unfold carray_setitem. by rewrite Hg, Hname, Hset.
Qed.

(** X8. What [write_to_h5] refuses, at the first region of [counts], after
    the line it prints for it: a region whose value is still None is an
    AttributeError; under a name that the file does not have yet, a matrix
    with an odd number of rows, with fewer than two rows or with no column
    is a ValueError. *)
Theorem write_to_h5_refuses_none_and_bad_shapes
    (name : string) (rest : dict (option ndarray)) (fout : h5file) (w : world) :
  write_to_h5 ((name, None) :: rest) fout w
    = (log (Stdout ("Merger: 1 Creating array for " +:+ name)) w,
       Raise AttributeError)
  ∧ ∀ m,
      h5_array fout name = None →
      nrows m mod 2 = 1 ∨ nrows m < 2 ∨ ncols m = 0 →
      write_to_h5 ((name, Some m) :: rest) fout w
        = (log (Stdout ("Merger: 1 Creating array for " +:+ name)) w,
           Raise ValueError).
Proof.
  split; [done|].
  intros m Hfresh Hbad. unfold write_to_h5.
  cbn [write_to_h5_loop]. unfold bind, emit, ret, lift.
  rewrite <- h5_array_get_or_create_group in Hfresh.
  destruct (get_or_create_group_has_group fout) as [g Hg].
  unfold h5_array in Hfresh. rewrite Hg in Hfresh.
  pose proof (Nat.div_mod_eq (nrows m) 2) as Hdiv.
  pose proof (Nat.mod_upper_bound (nrows m) 2) as Hmod.
  destruct (decide (ncols m = 0 ∨ nrows m / 2 = 0)) as [Hz|Hnz].
  { rewrite create_carray_zero_dim; [done|lia]. }
  rewrite (create_carray_spec name (ncols m) (nrows m / 2) 2 _ g)
    by (done || lia).
  erewrite carray_setitem_raise; [done|apply dict_get_set_eq|apply dict_get_set_eq|].
  apply set_channel_not_broadcast; [lia|].
  unfold broadcasts_to. cbn [nrows ncols cols_from transpose tabulate].
  destruct (Nat.eqb_spec (nrows m - nrows m / 2) (nrows m / 2)) as [E|_]; [lia|].
  destruct (Nat.eqb_spec (nrows m - nrows m / 2) 1) as [E|_]; [lia|].
  by rewrite andb_false_r.
Qed.

Lemma write_to_h5_refuses_none_and_bad_shapes_witness :
  write_to_h5 [("chr1", Some (transpose ones43))] h5_empty world0
  = (log (Stdout "Merger: 1 Creating array for chr1") world0, Raise ValueError).
Proof.
  apply (proj2 (write_to_h5_refuses_none_and_bad_shapes "chr1" [] h5_empty world0)
           (transpose ones43)).
  - reflexivity.
  - left. reflexivity.
Defined.

Lemma write_wssd_to_h5_first
    (wssd fout : h5file) (w : world)
    (name : string) (a : carray) (nodes : dict carray) (d1 d2 d3 : nat) :
  list_nodes wssd = Ok ((name, a) :: nodes) →
  c_shape a = (d1, d2, d3) → 0 < d1 → 0 < d2 → 0 < d3 →
  h5_array fout name = None →
  ∃ fout',
    write_wssd_to_h5 wssd fout w = (w, Ok fout')
    ∧ h5_array fout' name = Some (zeros (d1, d2, d3))
    ∧ (∀ n, n ≠ name → h5_array fout' n = h5_array fout n)
    ∧ h5_dirty fout' = false.
Proof.
  intros Hnodes Hshape H1 H2 H3 Hfresh.
  unfold write_wssd_to_h5. unfold bind, lift, ret. rewrite Hnodes, Hshape.
  rewrite <- h5_array_get_or_create_group in Hfresh.
  destruct (get_or_create_group_has_group fout) as [g Hg].
  assert (dict_get name g = None) as Hname.
  { unfold h5_array in Hfresh. by rewrite Hg in Hfresh. }
  destruct (create_carray name (d1, d2, d3) (get_or_create_group fout))
    as [f1| |] eqn:Hcreate;
    rewrite (create_carray_spec name d1 d2 d3 _ g) in Hcreate by done;
    try discriminate.
  injection Hcreate as <-.
  eexists. split; [reflexivity|].
  unfold h5_array at 1 2. simpl. rewrite !dict_get_set_eq.
  split; [done|]. split; [|done].
  intros n Hn. rewrite dict_get_set_ne by done.
  rewrite <- h5_array_get_or_create_group. unfold h5_array. by rewrite Hg.
Qed.

(** X9. What [write_wssd_to_h5] does with a finished input file: it looks
    at the first array of the group only; under its name, which the output
    file must not have yet, it leaves an array of the same shape that holds 0
    everywhere, whatever the input array holds; every other array of the
    output file stays as it was, no other array of the input is taken over,
    and the output file is flushed. *)
Theorem write_wssd_to_h5_allocates_first_array
    (wssd fout : h5file) (w : world)
    (name : string) (a : carray) (nodes : dict carray) (d1 d2 d3 : nat) :
  list_nodes wssd = Ok ((name, a) :: nodes) →
  c_shape a = (d1, d2, d3) → 0 < d1 → 0 < d2 → 0 < d3 →
  h5_array fout name = None →
  ∃ fout',
    write_wssd_to_h5 wssd fout w = (w, Ok fout')
    ∧ h5_array fout' name = Some (zeros (d1, d2, d3))
    ∧ (∀ n, n ≠ name → h5_array fout' n = h5_array fout n)
    ∧ h5_dirty fout' = false.
Proof. apply write_wssd_to_h5_first. Qed.

Lemma write_wssd_to_h5_allocates_first_array_witness :
  ∃ fout',
    write_wssd_to_h5 wssd_chr1 h5_empty world0 = (world0, Ok fout')
    ∧ h5_array fout' "chr1" = Some (zeros (1, 2, 2))
    ∧ (∀ n, n ≠ "chr1" → h5_array fout' n = h5_array h5_empty n)
    ∧ h5_dirty fout' = false.
Proof.
  apply (write_wssd_to_h5_allocates_first_array wssd_chr1 h5_empty world0
           "chr1" (CArray (1, 2, 2) [[[5; 6]; [7; 8]]]%Z) []);
    try reflexivity; lia.
Defined.

(** X10. What [write_wssd_to_h5] refuses: an input file without the group
    depthAndStarts_wssd is a NoSuchNodeError, an input file whose group is
    empty is an IndexError, and an input whose first array has a name that
    the output file already holds (the same input merged twice, or two
    inputs for one region) is a NodeError. Nothing is printed. *)
Theorem write_wssd_to_h5_refuses
    (wssd fout : h5file) (w : world) :
  (dict_get group_name (h5_root wssd) = None →
     write_wssd_to_h5 wssd fout w = (w, Raise NoSuchNodeError))
  ∧ (dict_get group_name (h5_root wssd) = Some [] →
       write_wssd_to_h5 wssd fout w = (w, Raise IndexError))
  ∧ (∀ name a nodes d1 d2 d3,
       dict_get group_name (h5_root wssd) = Some ((name, a) :: nodes) →
       c_shape a = (d1, d2, d3) → 0 < d1 → 0 < d2 → 0 < d3 →
       is_Some (h5_array fout name) →
       write_wssd_to_h5 wssd fout w = (w, Raise NodeError)).
Proof.
  unfold write_wssd_to_h5, list_nodes, bind, lift, ret, raise.
  split; [by intros ->|]. split; [by intros ->|].
  intros name a nodes d1 d2 d3 -> -> H1 H2 H3 [a0 Ha0].
  rewrite <- h5_array_get_or_create_group in Ha0.
  unfold create_carray, h5_array in *.
  destruct (Nat.eqb_spec d1 0) as [|_]; [lia|].
  destruct (Nat.eqb_spec d2 0) as [|_]; [lia|].
  destruct (Nat.eqb_spec d3 0) as [|_]; [lia|]. cbn [orb].
  destruct (dict_get group_name (h5_root (get_or_create_group fout)))
    as [g|] eqn:Hg; try rewrite Hg in Ha0; [|discriminate].
  unfold contains. by rewrite Ha0.
Qed.

Lemma write_wssd_to_h5_refuses_witness :
  write_wssd_to_h5 h5_empty h5_empty world0 = (world0, Raise NoSuchNodeError)
  ∧ write_wssd_to_h5 wssd_chr1 wssd_chr1 world0 = (world0, Raise NodeError).
Proof.
  split.
  - apply (proj1 (write_wssd_to_h5_refuses h5_empty h5_empty world0)).
    reflexivity.
  - apply (proj2 (proj2 (write_wssd_to_h5_refuses wssd_chr1 wssd_chr1 world0))
             "chr1" (CArray (1, 2, 2) [[[5; 6]; [7; 8]]]%Z) [] 1 2 2);
      try reflexivity; try lia.
    by eexists.
Defined.

(** ** The batch loaders and the disk *)

Lemma shelve_open_disk (path : string) (flag : open_flag) (w w1 : world)
    (r : result (dict value)) :
  shelve_open path flag w = (w1, r) →
  (w_fs w1 = w_fs w
   ∧ (∀ dat, r = Ok dat → w_fs w !! path = Some (Shelf dat)))
  ∨ (flag = FlagC ∧ w_fs w !! path = None ∧ r = Ok []
     ∧ w_fs w1 = <[path := Shelf []]> (w_fs w)).
Proof.
  unfold shelve_open.
  destruct (w_fs w !! path) as [[items|msg]|] eqn:Hp.
  - intros [= <- <-]. left. split; [done|]. by intros dat [= <-].
  - intros [= <- <-]. left. split; [done|]. by intros dat [=].
  - destruct flag; intros [= <- <-].
    + left. split; [done|]. by intros dat [=].
    + right. by repeat split.
Qed.

Lemma closing_post_body_disk (infile line : string) (dat : dict value)
    (contigs : dict (option ndarray)) (w w' : world)
    (r : result (dict (option ndarray))) :
  closing infile (emit (Stdout line);;; add_contents_to_contigs dat contigs) w
    = (w', r) →
  w_fs w' = w_fs w.
Proof.
  unfold closing, bind, emit. simpl.
  destruct (add_contents_to_contigs dat contigs (log (Stdout line) w))
    as [w1 r1] eqn:H.
  apply add_contents_quiet in H as (evs & _ & _ & Hfs).
  destruct r1; intros [= <- <-]; simpl; by rewrite Hfs.
Qed.

Lemma load_matrices_post_loop_disk (infiles : list string) :
  ∀ i total contigs w w' r,
    load_matrices_post_loop i total infiles contigs w = (w', r) →
    (∀ p s, w_fs w !! p = Some s → w_fs w' !! p = Some s)
    ∧ ∀ p s, w_fs w' !! p = Some s →
        w_fs w !! p = Some s
        ∨ (s = Shelf [] ∧ p ∈ infiles ∧ w_fs w !! p = None).
Proof.
  induction infiles as [|infile rest IH]; intros i total contigs w w' r H.
  { injection H as <- <-. split; [done|]. by left. }
  cbn [load_matrices_post_loop] in H. unfold bind at 1 in H.
  destruct (shelve_open infile FlagC w) as [w1 r1] eqn:Hopen.
  apply shelve_open_disk in Hopen.
  assert (Hstep :
    (∀ p s, w_fs w !! p = Some s → w_fs w1 !! p = Some s)
    ∧ ∀ p s, w_fs w1 !! p = Some s →
        w_fs w !! p = Some s
        ∨ (s = Shelf [] ∧ p = infile ∧ w_fs w !! p = None)).
  { destruct Hopen as [[-> _]|(_ & Hnone & _ & ->)].
    - split; [done|]. by left.
    - split.
      + intros p s Hp. rewrite lookup_insert_ne; [done|]. intros ->. congruence.
      + intros p s. destruct (decide (infile = p)) as [<-|Hne].
        * rewrite lookup_insert_eq. intros [= <-]. by right.
        * rewrite lookup_insert_ne by done. by left. }
  destruct Hstep as [Hkeep1 Hnew1].
  destruct r1 as [dat|e|]; [|injection H as <- <-|injection H as <- <-].
  2,3: split; [done|]; intros p s Hp;
       destruct (Hnew1 p s Hp) as [?|(-> & -> & ?)]; [by left|right];
       repeat split; try done; apply list_elem_of_here.
  unfold bind at 1 in H.
  destruct (closing infile _ w1) as [w2 r2] eqn:Hbody.
  apply closing_post_body_disk in Hbody.
  destruct r2 as [c2|e|]; [|injection H as <- <-|injection H as <- <-].
  2,3: rewrite Hbody; split; [done|]; intros p s Hp;
       destruct (Hnew1 p s Hp) as [?|(-> & -> & ?)]; [by left|right];
       repeat split; try done; apply list_elem_of_here.
  destruct (IH _ _ _ _ _ _ H) as [Hkeep Hnew]. rewrite Hbody in Hkeep, Hnew.
  split; [by auto|].
  intros p s Hp. destruct (Hnew p s Hp) as [Hp1|(-> & Hin & Hnone)].
  - destruct (Hnew1 p s Hp1) as [?|(-> & -> & ?)]; [by left|right].
    repeat split; try done. apply list_elem_of_here.
  - destruct (w_fs w !! p) as [s0|] eqn:Hp0.
    + rewrite (Hkeep1 p s0 Hp0) in Hnone. discriminate.
    + right. repeat split; try done. by apply list_elem_of_further.
Qed.

(** X11. Whatever it is given and however it ends, [load_matrices_post]
    never changes or removes a shelf that is on disk; the only thing it can
    add to the disk is an empty shelf, at a path of [infiles] that had none. *)
Theorem load_matrices_post_keeps_shelves
    (infiles : list string) (contigs : dict (option ndarray)) (w : world) :
  (∀ p s, w_fs w !! p = Some s →
     w_fs (load_matrices_post infiles contigs w).1 !! p = Some s)
  ∧ ∀ p s, w_fs (load_matrices_post infiles contigs w).1 !! p = Some s →
      w_fs w !! p = Some s
      ∨ (s = Shelf [] ∧ p ∈ infiles ∧ w_fs w !! p = None).
Proof.
  unfold load_matrices_post.
  destruct (load_matrices_post_loop _ _ _ _ _) as [w' r] eqn:H.
  by apply load_matrices_post_loop_disk in H.
Qed.

Lemma load_matrices_post_keeps_shelves_witness :
  w_fs (load_matrices_post ["s1"; "missing"] [] (World disk_chr2 [])).1 !! "s1"
  = Some (Shelf [("chr2", VNdarray ones43)]).
Proof.
  apply (proj1 (load_matrices_post_keeps_shelves ["s1"; "missing"] []
                  (World disk_chr2 []))).
  reflexivity.
Defined.

Lemma convert_matrix_disk (v : value) (w w' : world) (r : result ndarray) :
  convert_matrix v w = (w', r) → w_fs w' = w_fs w.
Proof. destruct v; run; by intros [= <- <-]. Qed.

Lemma load_matrices_per_contig_loop_disk (name : string) (infiles : list string) :
  ∀ i total contig w w' r,
    load_matrices_per_contig_loop name i total infiles contig w = (w', r) →
    w_fs w' = w_fs w.
Proof.
  induction infiles as [|infile rest IH]; intros i total contig w w' r H.
  { by injection H as <- <-. }
  cbn [load_matrices_per_contig_loop] in H. unfold bind at 1 in H.
  destruct (shelve_open infile FlagR w) as [w1 r1] eqn:Hopen.
  apply shelve_open_disk in Hopen as [[Hfs1 _]|(? & _)]; [|done].
  destruct r1 as [dat|e|]; [|by injection H as <- <-|by injection H as <- <-].
  unfold bind at 1 in H.
  destruct (closing infile _ w1) as [w2 r2] eqn:Hbody.
  assert (w_fs w2 = w_fs w1) as Hfs2.
  { unfold closing, bind, emit in Hbody. simpl in Hbody.
    destruct (contains name dat).
    - unfold getitem in Hbody.
      destruct (dict_get "contig_name" dat) as [v|]; run.
      + destruct (convert_matrix v (log _ w1)) as [w3 r3] eqn:Hconv.
        apply convert_matrix_disk in Hconv.
        destruct r3; injection Hbody as <- _; simpl; by rewrite Hconv.
      + by injection Hbody as <- _.
    - run. by injection Hbody as <- _. }
  destruct r2 as [matrix|e|];
    [|injection H as <- <-; congruence|injection H as <- <-; congruence].
  unfold bind at 1 in H.
  destruct matrix as [matrix|]; run.
  - unfold getitem in H. destruct (dict_get name contig) as [[acc|]|]; run.
    + unfold iadd in H. destruct (broadcasts_to _ _ _); run.
      * apply IH in H. congruence.
      * injection H as <- <-. congruence.
    + apply IH in H. congruence.
    + injection H as <- <-. congruence.
  - apply IH in H. congruence.
Qed.

(** X12. [load_matrices_per_contig] only reads: whatever it is given and
    however it ends, the shelves on disk are afterwards what they were
    before. Given an accumulator without any key it raises an IndexError
    before it opens anything. *)
Theorem load_matrices_per_contig_reads_only :
  (∀ infiles contig w,
     w_fs (load_matrices_per_contig infiles contig w).1 = w_fs w)
  ∧ ∀ infiles w, load_matrices_per_contig infiles [] w = (w, Raise IndexError).
Proof.
  split; [|done].
  intros infiles contig w. unfold load_matrices_per_contig. unfold bind.
  destruct contig as [|[k o] contig]; [done|]. simpl.
  destruct (load_matrices_per_contig_loop _ _ _ _ _ _) as [w' r] eqn:H.
  by apply load_matrices_per_contig_loop_disk in H.
Qed.

(** Shelves that open and do not hold the region leave the accumulator of
    the per-contig loader as it is. *)
Lemma load_matrices_per_contig_loop_absent (name : string) (infiles : list string) :
  ∀ i total contig w,
    (∀ p, p ∈ infiles →
       ∃ dat, w_fs w !! p = Some (Shelf dat) ∧ contains name dat = false) →
    ∃ w',
      load_matrices_per_contig_loop name i total infiles contig w
        = (w', Ok contig)
      ∧ w_fs w' = w_fs w.
Proof.
  induction infiles as [|infile rest IH]; intros i total contig w Hall.
  { by exists w. }
  destruct (Hall infile (list_elem_of_here _ _)) as (dat & Hp & Hno).
  cbn [load_matrices_per_contig_loop]. unfold bind at 1.
  unfold shelve_open. rewrite Hp.
  unfold bind at 1. unfold closing, bind, emit. rewrite Hno. simpl.
  edestruct IH as (w' & Hrun & Hfs); [|exists w'; split; [exact Hrun|exact Hfs]].
  intros p Hin. simpl. apply Hall. by apply list_elem_of_further.
Qed.

(** X13. The per-contig merge of a region that no shelf holds: every shelf
    opens, none has the region, [load_matrices_per_contig] returns the
    accumulator with the region still mapped to None, and [write_to_h5],
    called on it, raises an AttributeError; no array is written. *)
Theorem main_per_contig_merge_absent_region
    (outfile : string) (infiles : list string) (contig_name : string)
    (fout : h5file) (w : world) :
  (∀ p, p ∈ infiles →
     ∃ dat, w_fs w !! p = Some (Shelf dat)
            ∧ contains contig_name dat = false) →
  (load_matrices_per_contig infiles [(contig_name, None)] w).2
    = Ok [(contig_name, None)]
  ∧ (main_per_contig_merge outfile infiles contig_name fout w).2
    = Raise AttributeError.
Proof.
  intros Hall.
  destruct (load_matrices_per_contig_loop_absent contig_name infiles
              0 (length infiles) [(contig_name, None)] w Hall) as (w' & H & _).
  unfold main_per_contig_merge, load_matrices_per_contig.
  unfold bind at 1. simpl. rewrite H. split; [done|].
  unfold bind at 1. simpl. unfold bind at 1. simpl. by rewrite H.
Qed.

Lemma main_per_contig_merge_absent_region_witness :
  (load_matrices_per_contig ["s1"] [("chr7", None)] (World disk_chr2 [])).2
    = Ok [("chr7", None)]
  ∧ (main_per_contig_merge "out.h5" ["s1"] "chr7" h5_empty
       (World disk_chr2 [])).2
    = Raise AttributeError.
Proof.
  apply (main_per_contig_merge_absent_region "out.h5" ["s1"] "chr7" h5_empty
           (World disk_chr2 [])).
  intros p ->%list_elem_of_singleton.
  exists [("chr2", VNdarray ones43)]. split; reflexivity.
Defined.

(** X14. The first shelf that holds the region of the accumulator but has
    no key spelled contig_name ends [load_matrices_per_contig] with a
    KeyError for that text, whatever comes after it, when the shelves before
    it open and do not hold the region. *)
Theorem load_matrices_per_contig_key_error
    (before after : list string) (infile : string) (dat : dict value)
    (contig_name : string) (start : option ndarray)
    (others : dict (option ndarray)) (w : world) :
  (∀ p, p ∈ before →
     ∃ dat', w_fs w !! p = Some (Shelf dat')
             ∧ contains contig_name dat' = false) →
  w_fs w !! infile = Some (Shelf dat) →
  contains contig_name dat = true →
  dict_get "contig_name" dat = None →
  (load_matrices_per_contig (before ++ infile :: after)
     ((contig_name, start) :: others) w).2
  = Raise (KeyError "contig_name").
Proof.
  intros Hbefore Hp Hin Hno.
  unfold load_matrices_per_contig. unfold bind at 1. simpl.
  generalize (length (before ++ infile :: after)) as total.
  generalize 0 as i. revert w Hbefore Hp.
  induction before as [|b before IH]; intros w Hbefore Hp i total.
  - cbn [app load_matrices_per_contig_loop]. unfold bind at 1.
    unfold shelve_open. rewrite Hp.
    unfold bind at 1. unfold closing, bind, emit, getitem. rewrite Hin.
    simpl. by rewrite Hno.
  - destruct (Hbefore b (list_elem_of_here _ _)) as (dat' & Hb & Hnob).
    cbn [app load_matrices_per_contig_loop]. unfold bind at 1.
    unfold shelve_open. rewrite Hb.
    unfold bind at 1. unfold closing, bind, emit. rewrite Hnob. simpl.
    apply IH; [|done].
    intros p Hpin. simpl. apply Hbefore. by apply list_elem_of_further.
Qed.

Lemma load_matrices_per_contig_key_error_witness :
  (load_matrices_per_contig ([] ++ "s1" :: ["s2"]) [("chr2", None)]
     (World disk_chr2 [])).2
  = Raise (KeyError "contig_name").
Proof.
  apply (load_matrices_per_contig_key_error [] ["s2"] "s1"
           [("chr2", VNdarray ones43)] "chr2" None [] (World disk_chr2 [])).
  - by intros p ?%elem_of_nil.
  - reflexivity.
  - reflexivity.
  - reflexivity.
Defined.

(** ** Merging a disk of finished shelves *)

Lemma dict_get_Some_In {V} (k : string) (v : V) (d : dict V) :
  dict_get k d = Some v → (k, v) ∈ d.
Proof.
  induction d as [|[k' v'] d IH]; simpl; [done|].
  destruct (String.eqb_spec k' k) as [->|_].
  - intros [= ->]. apply list_elem_of_here.
  - intros H. apply list_elem_of_further. auto.
Qed.

Lemma dict_key_get {V} (k : string) (d : dict V) :
  k ∈ dict_keys d → is_Some (dict_get k d).
Proof.
  induction d as [|[k' v'] d IH]; simpl; [by intros ?%elem_of_nil|].
  destruct (String.eqb_spec k' k) as [->|Hne]; [by eexists|].
  intros [?|?]%elem_of_cons; [congruence|auto].
Qed.

Lemma Forall_dict_set {V} (P : string * V → Prop) (k : string) (v : V) (d : dict V) :
  Forall P d → P (k, v) → Forall P (dict_set k v d).
Proof.
  intros Hd Hv. induction Hd as [|[k' v'] d Hkv Hd IH]; simpl.
  - by repeat constructor.
  - destruct (String.eqb_spec k' k) as [->|_]; by constructor.
Qed.

Lemma NoDup_dict_set {V} (k : string) (v : V) (d : dict V) :
  NoDup (dict_keys d) → NoDup (dict_keys (dict_set k v d)).
Proof.
  intros Hd. rewrite dict_keys_set.
  destruct (contains k d) eqn:Hk; [done|].
  apply NoDup_app. split; [done|]. split; [|apply NoDup_singleton].
  intros k' Hk' ->%list_elem_of_singleton.
  apply dict_key_get in Hk' as [v' Hv']. unfold contains in Hk.
  by rewrite Hv' in Hk.
Qed.

Lemma is_uint32_tabulate_wrap32 (r c : nat) (f : nat → nat → Z) :
  is_uint32 (tabulate r c (λ i j, wrap32 (f i j))).
Proof.
  unfold is_uint32, tabulate. simpl.
  apply Forall_forall. intros row Hrow.
  apply list_elem_of_In, List.in_map_iff in Hrow as (i & <- & _).
  apply Forall_forall. intros x Hx.
  apply list_elem_of_In, List.in_map_iff in Hx as (j & <- & _).
  unfold wrap32. apply Z.mod_pos_bound. lia.
Qed.

Lemma fits_add_arrays (sh : string → nat * nat) (r : string) (a m : ndarray) :
  fits sh r a → fits sh r (add_arrays a m).
Proof.
  intros [(_ & _ & Hshape) Hsh]. split; [|done].
  split; [apply is_ndarray_tabulate|].
  split; [apply is_uint32_tabulate_wrap32|done].
Qed.

(** A store that fits is merged into an accumulator that fits, which then
    still fits and has every key of the store. *)
Lemma add_contents_fits (sh : string → nat * nat) (dat : dict value) :
  ∀ contigs w,
    acc_fits sh contigs → store_fits sh dat →
    ∃ c',
      add_contents_to_contigs dat contigs w = (w, Ok c')
      ∧ acc_fits sh c'
      ∧ ∀ k, k ∈ dict_keys contigs ∨ k ∈ dict_keys dat → k ∈ dict_keys c'.
Proof.
  induction dat as [|[k v] dat IH]; intros contigs w Hacc Hdat.
  { exists contigs. split; [done|]. split; [done|].
    by intros k [?|?%elem_of_nil]. }
  apply Forall_cons in Hdat as [(m & Hm & Hfit) Hdat]. simpl in Hm, Hfit.
  destruct Hacc as [Hnd Hall].
  assert (∃ c1,
    (∀ w0, add_contents_to_contigs ((k, v) :: dat) contigs w0
           = add_contents_to_contigs dat c1 w0)
    ∧ acc_fits sh c1
    ∧ ∀ k', k' ∈ dict_keys contigs ∨ k' = k → k' ∈ dict_keys c1)
    as (c1 & Hstep & Hacc1 & Hkeys1).
  { destruct (dict_get k contigs) as [old|] eqn:Hold.
    - pose proof (dict_get_Some_In _ _ _ Hold) as Hin.
      rewrite Forall_forall in Hall.
      destruct (Hall _ Hin) as (a & Ha & Hafit). simpl in Ha, Hafit. subst old.
      exists (dict_set k (Some (add_arrays a m)) contigs). split; [|split].
      + intros w0. simpl. unfold bind at 1.
        rewrite (convert_matrix_dense v m) by done.
        rewrite Hold. run. rewrite iadd_same_shape; [done|].
        destruct Hfit as [_ ->]. by destruct Hafit as [_ ->].
      + split; [by apply NoDup_dict_set|].
        apply Forall_dict_set; [by apply Forall_forall|].
        exists (add_arrays a m). split; [done|]. by apply fits_add_arrays.
      + intros k' Hk'. rewrite dict_keys_set. unfold contains. rewrite Hold.
        destruct Hk' as [?| ->]; [done|]. by eapply dict_get_Some_key.
    - exists (dict_set k (Some m) contigs). split; [|split].
      + intros w0. simpl. unfold bind at 1.
        rewrite (convert_matrix_dense v m) by done. by rewrite Hold.
      + split; [by apply NoDup_dict_set|].
        apply Forall_dict_set; [done|]. by exists m.
      + intros k' Hk'. rewrite dict_keys_set. unfold contains. rewrite Hold.
        apply elem_of_app. destruct Hk' as [?| ->]; [by left|right].
        apply list_elem_of_here. }
  destruct (IH c1 w Hacc1 Hdat) as (c' & Hrun & Hacc' & Hkeys').
  exists c'. split; [by rewrite Hstep|]. split; [done|].
  intros k' [Hk'|[->|Hk']%elem_of_cons]; apply Hkeys'; auto.
Qed.

Lemma load_matrices_post_loop_fits (sh : string → nat * nat) (infiles : list string) :
  ∀ i total contigs w,
    disk_fits sh (w_fs w) infiles → acc_fits sh contigs →
    ∃ w' c',
      load_matrices_post_loop i total infiles contigs w = (w', Ok c')
      ∧ w_fs w' = w_fs w
      ∧ acc_fits sh c'
      ∧ (∀ k, k ∈ dict_keys contigs → k ∈ dict_keys c')
      ∧ ∀ p S k, p ∈ infiles → w_fs w !! p = Some (Shelf S) →
          k ∈ dict_keys S → k ∈ dict_keys c'.
Proof.
  induction infiles as [|infile rest IH]; intros i total contigs w Hdisk Hacc.
  { exists w, contigs. repeat split; try done; try apply Hacc.
    by intros p S k ?%elem_of_nil. }
  destruct (Hdisk infile (list_elem_of_here _ _)) as (S & Hp & HS).
  cbn [load_matrices_post_loop]. unfold bind at 1.
  unfold shelve_open. rewrite Hp. unfold bind at 1.
  unfold closing, bind, emit. simpl.
  destruct (add_contents_fits sh S contigs
              (log (Stdout ("Loading shelve " +:+ pretty (i + 1) +:+ " of "
                            +:+ pretty total +:+ ": " +:+ infile))
                 (log (ShelveOpen infile FlagC true) w)) Hacc HS)
    as (c1 & -> & Hacc1 & Hkeys1).
  cbv beta iota zeta.
  match goal with
  | |- context [load_matrices_post_loop _ _ rest c1 ?w0] =>
      destruct (IH (Datatypes.S i) total c1 w0)
        as (w' & c' & Hrun & Hfs & Hacc' & Hkeep & Hall); [|exact Hacc1|]
  end.
  { intros p Hin. simpl. apply Hdisk. by apply list_elem_of_further. }
  exists w', c'. split; [exact Hrun|]. split; [by rewrite Hfs|].
  split; [done|]. split; [by auto|].
  intros p S' k [->|Hin]%elem_of_cons Hp' Hk.
  - assert (S' = S) as -> by congruence. auto.
  - by eapply Hall.
Qed.

(** X15. The merge of everything at once, in batch mode, on a disk of
    finished shelves whose matrices fit their regions, into an output file
    that holds no array yet: the load and the write succeed, every region
    that the load accumulated is written in the wssd layout of its
    accumulated matrix, and every region of every shelf has its array in the
    output file. *)
Theorem main_merge_writes_every_region
    (sh : string → nat * nat) (fuel : nat) (env : environment)
    (outfile : string) (infiles : list string) (fout : h5file) (w : world) :
  disk_fits sh (w_fs w) infiles →
  (∀ name, h5_array fout name = None) →
  ∃ c w' fout',
    (load_matrices_post infiles [] w).2 = Ok c
    ∧ main_merge fuel env false outfile infiles fout w = (w', Ok fout')
    ∧ (∀ r m B L,
         dict_get r c = Some (Some m) → shape m = (2 * B, L) →
         ∃ a, h5_array fout' r = Some a ∧ wssd_layout B L m a)
    ∧ ∀ p S r, p ∈ infiles → w_fs w !! p = Some (Shelf S) →
        r ∈ dict_keys S → is_Some (h5_array fout' r).
Proof.
  intros Hdisk Hempty.
  destruct (load_matrices_post_loop_fits sh infiles 0 (length infiles) [] w Hdisk)
    as (w1 & c & Hload & _ & [Hnd Hall] & _ & Hkeys).
  { split; constructor. }
  unfold main_merge, load_matrices_post. rewrite Hload.
  unfold bind at 1. rewrite Hload.
  unfold bind at 1. simpl. unfold bind at 1. simpl. unfold write_to_h5.
  edestruct (write_to_h5_loop_spec c 0 (get_or_create_group fout))
    as (w' & fout' & Hrun & Hget & _); [| exact Hnd | | |].
  - apply get_or_create_group_has_group.
  - eapply Forall_impl; [exact Hall|].
    intros kv (m & Hm & Hfit & _). eauto.
  - intros name _. by rewrite h5_array_get_or_create_group.
  - exists c, w', fout'. split; [done|]. split; [exact Hrun|]. split; [done|].
    intros p S r Hp HS Hr.
    destruct (dict_key_get r c) as [o Ho]; [by eapply Hkeys|].
    rewrite Forall_forall in Hall.
    destruct (Hall _ (dict_get_Some_In _ _ _ Ho))
      as (m & Hm & (_ & _ & B & L & Hs & _) & _).
    simpl in Hm. subst o.
    destruct (Hget r m B L Ho Hs) as (a & Ha & _). by eexists.
Qed.

Lemma store_fits_43 (S : dict value) :
  Forall (λ kv, ∃ m, dense kv.2 = Some m ∧ nrows m = 4 ∧ ncols m = 3
                     ∧ bool_decide (length (rows m) = 4
                          ∧ Forall (λ r, length r = 3) (rows m)
                          ∧ Forall (Forall (λ x, 0 ≤ x < 2 ^ 32)%Z) (rows m))
                       = true) S →
  store_fits sh43 S.
Proof.
  intros H. eapply Forall_impl; [exact H|].
  intros kv (m & Hm & Hr & Hc & Hok).
  exists m. split; [done|]. split; [by apply region_matrix_43|].
  unfold shape, sh43. by rewrite Hr, Hc.
Qed.

Lemma disk_two_fits : disk_fits sh43 disk_two ["s1"; "s2"].
Proof.
  intros p Hp. apply elem_of_cons in Hp as [->|Hp].
  - eexists. split; [reflexivity|]. apply store_fits_43.
    repeat constructor; eexists; (split; [reflexivity|]);
      repeat split; vm_compute; reflexivity.
  - apply list_elem_of_singleton in Hp as ->.
    eexists. split; [reflexivity|]. apply store_fits_43.
    repeat constructor; eexists; (split; [reflexivity|]);
      repeat split; vm_compute; reflexivity.
Qed.

Lemma main_merge_writes_every_region_witness :
  ∃ c w' fout',
    (load_matrices_post ["s1"; "s2"] [] (World disk_two [])).2 = Ok c
    ∧ main_merge 0 env_ready false "out.h5" ["s1"; "s2"] h5_empty
        (World disk_two []) = (w', Ok fout')
    ∧ (∀ r m B L,
         dict_get r c = Some (Some m) → shape m = (2 * B, L) →
         ∃ a, h5_array fout' r = Some a ∧ wssd_layout B L m a)
    ∧ ∀ p S r, p ∈ ["s1"; "s2"] → w_fs (World disk_two []) !! p = Some (Shelf S) →
        r ∈ dict_keys S → is_Some (h5_array fout' r).
Proof.
  apply (main_merge_writes_every_region sh43 0 env_ready "out.h5" ["s1"; "s2"]
           h5_empty (World disk_two [])).
  - exact disk_two_fits.
  - intros name. reflexivity.
Defined.

(** ** The merge of finished files *)

Lemma main_wssd_merge_spec (wssd_files : list (string * h5file)) :
  ∀ (regions : dict carray) (fout : h5file) (w : world),
    Forall2 (λ pf node, first_node pf.2 = Some node) wssd_files regions →
    NoDup (dict_keys regions) →
    Forall (λ node, positive_shape node.2) regions →
    (∀ name, name ∈ dict_keys regions → h5_array fout name = None) →
    ∃ w' fout',
      main_wssd_merge wssd_files fout w = (w', Ok fout')
      ∧ (∀ name a, (name, a) ∈ regions →
           h5_array fout' name = Some (zeros (c_shape a)))
      ∧ ∀ name, name ∉ dict_keys regions →
          h5_array fout' name = h5_array fout name.
Proof.
  induction wssd_files as [|[path wssd] files IH];
    intros regions fout w Hfirst Hnd Hpos Hfresh.
  { apply Forall2_nil_inv_l in Hfirst as ->. exists w, fout.
    split; [done|]. split; [by intros name a ?%elem_of_nil|done]. }
  apply Forall2_cons_inv_l in Hfirst as ([name a] & regions' & Hnode & Hfirst & ->).
  simpl in Hnode.
  apply NoDup_cons in Hnd as [Hname Hnd].
  apply Forall_cons in Hpos as [Ha Hpos]. unfold positive_shape in Ha. simpl in Ha.
  destruct (c_shape a) as [[d1 d2] d3] eqn:Hshape. destruct Ha as (H1 & H2 & H3).
  assert (∃ nodes, list_nodes wssd = Ok ((name, a) :: nodes)) as [nodes Hnodes].
  { unfold first_node in Hnode. unfold list_nodes.
    destruct (dict_get group_name (h5_root wssd)) as [[|node nodes]|];
      try discriminate.
    injection Hnode as ->. by exists nodes. }
  destruct (write_wssd_to_h5_first wssd fout
              (log (Stdout ("Reading wssd_file: " +:+ path)) w)
              name a nodes d1 d2 d3 Hnodes Hshape H1 H2 H3)
    as (f1 & Hwrite & Hat & Hother & _).
  { apply Hfresh. apply list_elem_of_here. }
  destruct (IH regions' f1 (log (Stdout ("Reading wssd_file: " +:+ path)) w)
              Hfirst Hnd Hpos) as (w' & fout' & Hrun & Hall & Hkeep).
  { intros n Hn. rewrite Hother; [|by intros ->].
    apply Hfresh. by apply list_elem_of_further. }
  exists w', fout'. split.
  { cbn [main_wssd_merge]. unfold bind at 1. simpl.
    unfold bind at 1. by rewrite Hwrite. }
  split.
  - intros n a' [[= -> ->]|Hin]%elem_of_cons; [|by apply Hall].
    rewrite Hkeep by done. by rewrite Hshape.
  - intros n [Hne Hn]%not_elem_of_cons. rewrite Hkeep by done. by apply Hother.
Qed.

(** X16. The merge of finished files, each with a first array of positive
    dimensions, all under different names that the output file does not have
    yet: the merge succeeds; under the name of every input array the output
    file then holds an array of the same shape, which holds 0 everywhere;
    every other array of the output file is as it was. *)
Theorem main_wssd_merge_keeps_names_and_shapes
    (wssd_files : list (string * h5file)) (regions : dict carray)
    (fout : h5file) (w : world) :
  Forall2 (λ pf node, first_node pf.2 = Some node) wssd_files regions →
  NoDup (dict_keys regions) →
  Forall (λ node, positive_shape node.2) regions →
  (∀ name, name ∈ dict_keys regions → h5_array fout name = None) →
  ∃ w' fout',
    main_wssd_merge wssd_files fout w = (w', Ok fout')
    ∧ (∀ name a, (name, a) ∈ regions →
         h5_array fout' name = Some (zeros (c_shape a)))
    ∧ ∀ name, name ∉ dict_keys regions →
        h5_array fout' name = h5_array fout name.
Proof. apply main_wssd_merge_spec. Qed.

Lemma main_wssd_merge_keeps_names_and_shapes_witness :
  ∃ w' fout',
    main_wssd_merge [("a.h5", wssd_chr1); ("b.h5", wssd_chr2)] h5_empty world0
      = (w', Ok fout')
    ∧ (∀ name a,
         (name, a) ∈ [("chr1", CArray (1, 2, 2) [[[5; 6]; [7; 8]]]%Z);
                      ("chr2", CArray (2, 1, 2) [[[1; 2]]; [[3; 4]]]%Z)] →
         h5_array fout' name = Some (zeros (c_shape a)))
    ∧ ∀ name,
        name ∉ dict_keys [("chr1", CArray (1, 2, 2) [[[5; 6]; [7; 8]]]%Z);
                          ("chr2", CArray (2, 1, 2) [[[1; 2]]; [[3; 4]]]%Z)] →
        h5_array fout' name = h5_array h5_empty name.
Proof.
  apply (main_wssd_merge_keeps_names_and_shapes
           [("a.h5", wssd_chr1); ("b.h5", wssd_chr2)]).
  - repeat constructor.
  - apply (bool_decide_unpack _). vm_compute. reflexivity.
  - repeat constructor; simpl; lia.
  - intros name _. reflexivity.
Defined.

(** ** The order of the shelves *)

Lemma add_arrays_swap (a m1 m2 : ndarray) :
  add_arrays (add_arrays a m1) m2 = add_arrays (add_arrays a m2) m1.
Proof.
  unfold add_arrays at 1 3. cbn [nrows ncols add_arrays tabulate].
  apply tabulate_ext. intros i j Hi Hj.
  unfold add_arrays. rewrite !nd_get_tabulate by done.
  unfold wrap32. rewrite !Z.add_mod_idemp_l by lia.
  f_equal. lia.
Qed.

Lemma merge_shaped (sh : string → nat * nat) (S : dict value)
    (c : dict (option ndarray)) (w : world) :
  is_store S →
  (∀ r v, dict_get r S = Some v → shape <$> dense v = Some (sh r)) →
  acc_shaped sh c →
  ∃ c',
    add_contents_to_contigs S c w = (w, Ok c')
    ∧ acc_shaped sh c'
    ∧ ∀ r, dict_get r c' = merged_value S c r.
Proof.
  intros HS Hsh Hc.
  destruct (add_contents_lookup S c w HS) as (c' & Hrun & Hget).
  { intros r v old Hr Hold. destruct (Hc r old Hold) as (a & -> & Ha).
    specialize (Hsh r v Hr). destruct (dense v) as [m|]; [|done].
    exists a, m. split; [done|]. split; [done|]. simpl in Hsh. congruence. }
  exists c'. split; [done|]. split; [|done].
  intros r o. rewrite Hget.
  destruct (dict_get r S) as [v|] eqn:Hr; [|apply Hc].
  specialize (Hsh r v Hr). destruct (dense v) as [m|]; [|done].
  simpl in Hsh. injection Hsh as Hm.
  destruct (dict_get r c) as [[a|]|] eqn:Hrc; intros [= <-];
    (eexists; split; [done|]); [|done].
  by destruct (Hc r _ Hrc) as (a' & [= <-] & Ha).
Qed.

Lemma merged_value_swap (sh : string → nat * nat) (S1 S2 : dict value)
    (c c1 c2 c12 c21 : dict (option ndarray)) :
  (∀ r v, dict_get r S1 = Some v → shape <$> dense v = Some (sh r)) →
  (∀ r v, dict_get r S2 = Some v → shape <$> dense v = Some (sh r)) →
  acc_shaped sh c →
  (∀ r, dict_get r c1 = merged_value S1 c r) →
  (∀ r, dict_get r c12 = merged_value S2 c1 r) →
  (∀ r, dict_get r c2 = merged_value S2 c r) →
  (∀ r, dict_get r c21 = merged_value S1 c2 r) →
  acc_equiv c12 c21.
Proof.
  intros H1 H2 Hc Hc1 Hc12 Hc2 Hc21 r.
  rewrite Hc12, Hc21. unfold merged_value. rewrite Hc1, Hc2. unfold merged_value.
  destruct (dict_get r S1) as [v1|] eqn:Hr1, (dict_get r S2) as [v2|] eqn:Hr2;
    try done.
  specialize (H1 r v1 Hr1). specialize (H2 r v2 Hr2).
  destruct (dense v1) as [m1|], (dense v2) as [m2|]; try done.
  simpl in H1, H2.
  destruct (dict_get r c) as [[a|]|] eqn:Hrc.
  - by rewrite add_arrays_swap.
  - by destruct (Hc r _ Hrc) as (? & ? & _).
  - rewrite (add_arrays_comm m1 m2); [done|congruence].
Qed.

Section Shelves.
Variable sh : string → nat * nat.
Variable fs : gmap string shelf.

(** One step of the batch loader on a disk of shaped stores. *)
Lemma post_loop_cons_shaped (p : string) (rest : list string) (i total : nat)
    (c : dict (option ndarray)) (w : world) :
  disk_shaped sh fs [p] → w_fs w = fs → acc_shaped sh c →
  ∃ S c' w',
    fs !! p = Some (Shelf S)
    ∧ load_matrices_post_loop i total (p :: rest) c w
      = load_matrices_post_loop (Datatypes.S i) total rest c' w'
    ∧ w_fs w' = fs
    ∧ acc_shaped sh c'
    ∧ ∀ r, dict_get r c' = merged_value S c r.
Proof.
  intros Hdisk Hfs Hc.
  destruct (Hdisk p (list_elem_of_here _ _)) as (S & Hp & HS & Hsh).
  cbn [load_matrices_post_loop]. unfold bind at 1.
  unfold shelve_open. rewrite Hfs, Hp. unfold bind at 1.
  unfold closing, bind, emit. cbv beta iota zeta.
  match goal with
  | |- context [add_contents_to_contigs S c ?w0] =>
      destruct (merge_shaped sh S c w0 HS Hsh Hc) as (c' & -> & Hc' & Hget)
  end.
  exists S, c'. eexists. split; [done|]. split; [reflexivity|].
  split; [by simpl|]. by split.
Qed.

Lemma disk_shaped_cons (p : string) (l : list string) :
  disk_shaped sh fs (p :: l) → disk_shaped sh fs [p] ∧ disk_shaped sh fs l.
Proof.
  intros H. split; intros q Hq; apply H.
  - apply list_elem_of_singleton in Hq as ->. apply list_elem_of_here.
  - by apply list_elem_of_further.
Qed.

(** The batch loader gives accumulators with the same values when it starts
    from accumulators with the same values. *)
Lemma post_loop_equiv (l : list string) :
  ∀ i1 t1 i2 t2 c1 c2 w1 w2,
    disk_shaped sh fs l → w_fs w1 = fs → w_fs w2 = fs →
    acc_shaped sh c1 → acc_equiv c1 c2 →
    ∃ w1' w2' r1 r2,
      load_matrices_post_loop i1 t1 l c1 w1 = (w1', Ok r1)
      ∧ load_matrices_post_loop i2 t2 l c2 w2 = (w2', Ok r2)
      ∧ acc_shaped sh r1 ∧ acc_equiv r1 r2.
Proof.
  induction l as [|p l IH]; intros i1 t1 i2 t2 c1 c2 w1 w2 Hdisk Hw1 Hw2 Hc1 Heq.
  { by exists w1, w2, c1, c2. }
  apply disk_shaped_cons in Hdisk as [Hp Hl].
  assert (acc_shaped sh c2) as Hc2 by (intros r o; rewrite <- Heq; apply Hc1).
  destruct (post_loop_cons_shaped p l i1 t1 c1 w1 Hp Hw1 Hc1)
    as (S1 & c1' & w1' & HS1 & -> & Hw1' & Hc1' & Hget1).
  destruct (post_loop_cons_shaped p l i2 t2 c2 w2 Hp Hw2 Hc2)
    as (S2 & c2' & w2' & HS2 & -> & Hw2' & Hc2' & Hget2).
  assert (S2 = S1) as -> by congruence.
  apply IH; try done.
  intros r. rewrite Hget1, Hget2. unfold merged_value. by rewrite Heq.
Qed.

Lemma disk_shaped_perm (l1 l2 : list string) :
  l1 ≡ₚ l2 → disk_shaped sh fs l1 → disk_shaped sh fs l2.
Proof. intros Hperm H p Hp. apply H. by rewrite Hperm. Qed.

Lemma post_loop_perm (l1 l2 : list string) :
  l1 ≡ₚ l2 →
  ∀ i1 t1 i2 t2 c1 c2 w1 w2,
    disk_shaped sh fs l1 → w_fs w1 = fs → w_fs w2 = fs →
    acc_shaped sh c1 → acc_equiv c1 c2 →
    ∃ w1' w2' r1 r2,
      load_matrices_post_loop i1 t1 l1 c1 w1 = (w1', Ok r1)
      ∧ load_matrices_post_loop i2 t2 l2 c2 w2 = (w2', Ok r2)
      ∧ acc_shaped sh r1 ∧ acc_equiv r1 r2.
Proof.
  induction 1 as [|p l1 l2 Hperm IH|p q l|l1 l2 l3 H12 IH12 H23 IH23];
    intros i1 t1 i2 t2 c1 c2 w1 w2 Hdisk Hw1 Hw2 Hc1 Heq.
  - by exists w1, w2, c1, c2.
  - apply disk_shaped_cons in Hdisk as [Hp Hl].
    assert (acc_shaped sh c2) as Hc2 by (intros r o; rewrite <- Heq; apply Hc1).
    destruct (post_loop_cons_shaped p l1 i1 t1 c1 w1 Hp Hw1 Hc1)
      as (S1 & c1' & w1' & HS1 & -> & Hw1' & Hc1' & Hget1).
    destruct (post_loop_cons_shaped p l2 i2 t2 c2 w2 Hp Hw2 Hc2)
      as (S2 & c2' & w2' & HS2 & -> & Hw2' & Hc2' & Hget2).
    assert (S2 = S1) as -> by congruence.
    apply IH; try done.
    intros r. rewrite Hget1, Hget2. unfold merged_value. by rewrite Heq.
  - apply disk_shaped_cons in Hdisk as [Hq Hdisk].
    apply disk_shaped_cons in Hdisk as [Hp Hl].
    assert (acc_shaped sh c2) as Hc2 by (intros r o; rewrite <- Heq; apply Hc1).
    destruct (post_loop_cons_shaped q (p :: l) i1 t1 c1 w1 Hq Hw1 Hc1)
      as (Sq & cq & wq & HSq & -> & Hwq & Hcq & Hgetq).
    destruct (post_loop_cons_shaped p l (S i1) t1 cq wq Hp Hwq Hcq)
      as (Sp & cqp & wqp & HSp & -> & Hwqp & Hcqp & Hgetqp).
    destruct (post_loop_cons_shaped p (q :: l) i2 t2 c2 w2 Hp Hw2 Hc2)
      as (Sp' & cp & wp & HSp' & -> & Hwp & Hcp & Hgetp).
    destruct (post_loop_cons_shaped q l (S i2) t2 cp wp Hq Hwp Hcp)
      as (Sq' & cpq & wpq & HSq' & -> & Hwpq & Hcpq & Hgetpq).
    assert (Sp' = Sp) as -> by congruence.
    assert (Sq' = Sq) as -> by congruence.
    apply post_loop_equiv; try done.
    destruct (Hq q (list_elem_of_here _ _)) as (Sq0 & HSq0 & _ & Hshq).
    destruct (Hp p (list_elem_of_here _ _)) as (Sp0 & HSp0 & _ & Hshp).
    assert (Sq0 = Sq) as -> by congruence.
    assert (Sp0 = Sp) as -> by congruence.
    apply (merged_value_swap sh Sq Sp c1 cq cp cqp cpq); try done.
    intros r. rewrite Hgetp. unfold merged_value. by rewrite Heq.
  - destruct (IH12 i1 t1 i2 t2 c1 c1 w1 w2 Hdisk Hw1 Hw2 Hc1)
      as (w1' & w2' & r1 & r2 & Hrun1 & Hrun2 & Hr1 & Heq12); [done|].
    destruct (IH23 i2 t2 i2 t2 c1 c2 w2 w2) as
      (w2'' & w3' & r2' & r3 & Hrun2' & Hrun3 & Hr2 & Heq23); try done.
    { by eapply disk_shaped_perm. }
    rewrite Hrun2 in Hrun2'. injection Hrun2' as <- <-.
    exists w1', w3', r1, r3. split; [done|]. split; [done|]. split; [done|].
    intros r. by rewrite Heq12, Heq23.
Qed.
End Shelves.

(** X17. On a disk of finished shelves that agree on the shape of every
    region, the batch loader does not depend on the order of [infiles]: for
    two lists with the same paths, in any order, both loads succeed and leave
    the same matrix under every region. *)
Theorem load_matrices_post_order_independent
    (sh : string → nat * nat) (infiles1 infiles2 : list string) (w : world) :
  infiles1 ≡ₚ infiles2 →
  disk_shaped sh (w_fs w) infiles1 →
  ∃ c1 c2,
    (load_matrices_post infiles1 [] w).2 = Ok c1
    ∧ (load_matrices_post infiles2 [] w).2 = Ok c2
    ∧ ∀ r, dict_get r c1 = dict_get r c2.
Proof.
  intros Hperm Hdisk. unfold load_matrices_post.
  destruct (post_loop_perm sh (w_fs w) infiles1 infiles2 Hperm
              0 (length infiles1) 0 (length infiles2) [] [] w w)
    as (w1 & w2 & c1 & c2 & -> & -> & _ & Heq); try done.
  by exists c1, c2.
Qed.

Lemma disk_two_shaped : disk_shaped sh43 disk_two ["s1"; "s2"].
Proof.
  intros p Hp. apply elem_of_cons in Hp as [->|Hp].
  - eexists. split; [reflexivity|]. split.
    + split; [apply (bool_decide_unpack _); vm_compute; reflexivity|].
      repeat constructor; by eexists.
    + intros r v. cbn [dict_get].
      destruct (String.eqb "chr1" r); [by intros [= <-]|].
      destruct (String.eqb "chr2" r); by intros [= <-].
  - apply list_elem_of_singleton in Hp as ->.
    eexists. split; [reflexivity|]. split.
    + split; [apply (bool_decide_unpack _); vm_compute; reflexivity|].
      repeat constructor; by eexists.
    + intros r v. cbn [dict_get].
      destruct (String.eqb "chr1" r); by intros [= <-].
Qed.

Lemma load_matrices_post_order_independent_witness :
  ∃ c1 c2,
    (load_matrices_post ["s1"; "s2"] [] (World disk_two [])).2 = Ok c1
    ∧ (load_matrices_post ["s2"; "s1"] [] (World disk_two [])).2 = Ok c2
    ∧ ∀ r, dict_get r c1 = dict_get r c2.
Proof.
  apply (load_matrices_post_order_independent sh43 ["s1"; "s2"] ["s2"; "s1"]
           (World disk_two [])).
  - apply Permutation_swap.
  - exact disk_two_shaped.
Defined.

(** ** Live and batch *)

Lemma add_contents_result_indep (dat : dict value) :
  ∀ contigs w1 w2,
    (add_contents_to_contigs dat contigs w1).2
    = (add_contents_to_contigs dat contigs w2).2.
Proof.
  induction dat as [|[k v] dat IH]; intros contigs w1 w2; [done|].
  simpl. unfold bind at 1 3.
  destruct v as [a|s|c]; simpl; [| |done].
  all: unfold bind at 1 3;
    destruct (dict_get k contigs) as [[acc|]|]; run; try done;
    try (unfold iadd; destruct (broadcasts_to _ _ _); run; try done);
    try (destruct (Nat.eqb _ 0); run; try done);
    apply IH.
Qed.

Lemma finished_disk_obs (now mtime : Z) (fs : gmap string shelf)
    (round : nat) (p : string) (s : shelf) :
  (now - mtime > 300)%Z → fs !! p = Some s →
  o_file (finished_disk now mtime fs round p) = Some (mtime, s)
  ∧ stable (finished_disk now mtime fs round p) = true.
Proof.
  intros Hold Hp. unfold stable, finished_disk. simpl. rewrite Hp. simpl.
  split; [done|]. by apply bool_decide_eq_true.
Qed.

Lemma poll_files_finished (now mtime : Z) (fs : gmap string shelf)
    (files : list string) :
  (now - mtime > 300)%Z →
  ∀ round total i t contigs processed w w2,
    (∀ p, p ∈ files → ∃ dat, fs !! p = Some (Shelf dat)) →
    w_fs w2 = fs →
    (poll_files "pickle" add_contents_to_contigs (finished_disk now mtime fs)
       round total files contigs processed w).2
    = match (load_matrices_post_loop i t files contigs w2).2 with
      | Ok c' => Ok (c', list_to_set files ∪ processed)
      | Raise e => Raise e
      | OutOfFuel => OutOfFuel
      end.
Proof.
  intros Hold.
  induction files as [|f files IH];
    intros round total i t contigs processed w w2 Hall Hfs.
  { cbn [poll_files load_matrices_post_loop ret snd].
    by rewrite list_to_set_nil, (left_id_L ∅ (∪)). }
  destruct (Hall f (list_elem_of_here _ _)) as (dat & Hf).
  cbn [poll_files load_matrices_post_loop].
  destruct (finished_disk_obs now mtime fs round f (Shelf dat) Hold Hf)
    as [-> ->].
  unfold bind at 1. cbn [emit]. unfold bind at 1.
  unfold bind at 3. unfold shelve_open. rewrite Hfs, Hf.
  unfold bind at 3. unfold closing. unfold bind at 3. cbn [emit].
  pose proof (add_contents_result_indep dat contigs
                (log (ShelveOpen f FlagR true) w)
                (log (Stdout ("Loading shelve " +:+ pretty (i + 1) +:+ " of "
                              +:+ pretty t +:+ ": " +:+ f))
                   (log (ShelveOpen f FlagC true) w2))) as Hindep.
  destruct (add_contents_to_contigs dat contigs
              (log (ShelveOpen f FlagR true) w)) as [wa' ra] eqn:Ha.
  destruct (add_contents_to_contigs dat contigs
              (log (Stdout _) (log (ShelveOpen f FlagC true) w2)))
    as [wb' rb] eqn:Hb.
  simpl in Hindep. subst rb.
  destruct (add_contents_quiet _ _ _ _ _ Hb) as (_ & _ & _ & Hfsb).
  destruct ra as [c1|e|]; [|done|done].
  unfold bind at 1. cbn [emit]. unfold bind at 1. cbn [emit].
  rewrite (IH round total (S i) t c1 ({[f]} ∪ processed) _
             (log (ShelveClose f) wb')).
  - destruct (load_matrices_post_loop _ _ _ _ _) as [w3 [c3|e|]]; simpl; try done.
    do 2 f_equal.
    by rewrite (comm_L (∪) {[f]} (list_to_set files)), <- (assoc_L (∪)).
  - intros p Hp. apply Hall. by apply list_elem_of_further.
  - simpl. by rewrite Hfsb.
Qed.

(** X18. When the producers are done, live and batch agree: if every path
    of [infiles] is a shelf that opens and was last modified more than 300
    seconds before, [load_matrices_live] ends with what [load_matrices_post]
    ends with on the set of these paths, the same accumulator or the same
    exception, after one poll round. *)
Theorem load_matrices_live_of_finished_shelves
    (now mtime : Z) (fs : gmap string shelf) (fuel : nat)
    (infiles : list string) (contigs : dict (option ndarray)) (w : world) :
  (now - mtime > 300)%Z →
  (∀ p, p ∈ infiles → ∃ dat, fs !! p = Some (Shelf dat)) →
  (load_matrices_live (S fuel) (finished_disk now mtime fs) infiles contigs w).2
  = (load_matrices_post (elements (list_to_set infiles : gset string))
       contigs (World fs [])).2.
Proof.
  intros Hold Hall. unfold load_matrices_live, load_matrices_post.
  cbn [poll_loop].
  destruct (Nat.ltb_spec 0 (size (list_to_set (C:=gset string) infiles)))
    as [Hsz|Hsz].
  2: { assert (list_to_set (C:=gset string) infiles = ∅) as ->
         by (apply leibniz_equiv, size_empty_iff; lia).
       by rewrite elements_empty. }
  unfold bind at 1.
  pose proof (poll_files_finished now mtime fs
                (elements (list_to_set (C:=gset string) infiles)) Hold
                0 (size (list_to_set (C:=gset string) infiles))
                0 (length (elements (list_to_set (C:=gset string) infiles)))
                contigs ∅ w (World fs [])) as Hround.
  destruct (poll_files _ _ _ _ _ _ _ _ _) as [w1 r1].
  simpl in Hround. rewrite Hround; clear Hround; [| |done].
  2: { intros p Hp. apply Hall.
       by apply elem_of_elements, elem_of_list_to_set in Hp. }
  destruct (load_matrices_post_loop _ _ _ _ _) as [w2 [c2|e|]]; simpl; try done.
  unfold bind at 1. cbn [emit].
  assert (size (list_to_set (C:=gset string) infiles
                ∖ (list_to_set (elements (list_to_set (C:=gset string) infiles))
                   ∪ ∅)) = 0) as Hdone.
  { apply size_empty_iff, elem_of_equiv_empty.
    intros x [Hx Hnx]%elem_of_difference. apply Hnx, elem_of_union. left.
    by apply elem_of_list_to_set, elem_of_elements. }
  destruct fuel; cbn [poll_loop]; by rewrite Hdone.
Qed.

Lemma load_matrices_live_of_finished_shelves_witness :
  (load_matrices_live 1 (finished_disk 1000 0 disk_two) ["s1"; "s2"] []
     world0).2
  = (load_matrices_post (elements (list_to_set ["s1"; "s2"] : gset string))
       [] (World disk_two [])).2.
Proof.
  apply (load_matrices_live_of_finished_shelves 1000 0 disk_two 0
           ["s1"; "s2"] [] world0).
  - reflexivity.
  - intros p Hp. apply elem_of_cons in Hp as [->|Hp].
    + by eexists.
    + apply list_elem_of_singleton in Hp as ->. by eexists.
Defined.

Lemma reads_pos_elem (p : string) (evs : list event) :
  0 < reads p evs → ShelveOpen p FlagR true ∈ evs.
Proof.
  induction evs as [|e evs IH]; [cbn; lia|].
  rewrite reads_cons. case_decide.
  - subst. intros _. apply list_elem_of_here.
  - intros Hpos. apply list_elem_of_further, IH. lia.
Qed.

Lemma poll_trace_reads_stable (env : environment) (round : nat)
    (evs : list event) (p : string) :
  poll_trace env round evs → 0 < reads p evs →
  ∃ k, stable (env k p) = true.
Proof.
  assert (Hseg : ∀ k seg, round_ok env k seg → 0 < reads p seg →
                 stable (env k p) = true).
  { intros k seg Hok Hp. apply reads_pos_elem in Hp.
    unfold round_ok in Hok. rewrite Forall_forall in Hok.
    destruct (Hok _ Hp) as (mtime & s & Hfile & Hold).
    unfold stable. rewrite Hfile. by apply bool_decide_eq_true. }
  induction 1 as [k seg Hok|k seg rest Hok Hrest IH]; intros Hp; [eauto|].
  rewrite reads_app, reads_cons in Hp.
  case_decide; [done|].
  destruct (reads p seg) eqn:E; [apply IH; lia|].
  exists k. apply (Hseg k seg); [done|lia].
Qed.

(** X19. A path that never becomes stable blocks the live loader: if one
    path of [infiles] is, at every check, not a file or a file modified
    within the last 300 seconds, [load_matrices_live] does not return,
    however many rounds it is given; it is still polling, or it has
    raised. *)
Theorem load_matrices_live_blocked_by_unstable_path
    (env : environment) (infiles : list string) (p : string)
    (fuel : nat) (contigs c : dict (option ndarray)) (w : world) :
  p ∈ infiles →
  (∀ round, stable (env round p) = false) →
  (load_matrices_live fuel env infiles contigs w).2 ≠ Ok c.
Proof.
  intros Hp Hnever. unfold load_matrices_live.
  destruct (poll_loop _ _ _ _ _ _ _ _ _ _) as [w' r] eqn:H. simpl. intros ->.
  destruct (poll_loop_spec _ _ _ add_contents_quiet' _ _ _ _ _ _ _ _ _ H)
    as (evs & _ & Htrace & _ & _ & _ & Hret).
  destruct (Hret c eq_refl) as (_ & Hall & _).
  destruct (poll_trace_reads_stable env 0 evs p Htrace) as [k Hk].
  - apply Hall; [by apply elem_of_list_to_set|apply not_elem_of_empty].
  - by rewrite Hnever in Hk.
Qed.

Lemma load_matrices_live_blocked_by_unstable_path_witness :
  (load_matrices_live 5 env_nothing ["a"] [] world0).2 = OutOfFuel
  ∧ (load_matrices_live 5 env_nothing ["a"] [] world0).2 ≠ Ok [].
Proof.
  split; [reflexivity|].
  apply (load_matrices_live_blocked_by_unstable_path env_nothing ["a"] "a").
  - apply list_elem_of_here.
  - intros round. reflexivity.
Defined.

(** ** Input paths *)

Lemma prefix_not_dot (r s : string) (c : ascii) :
  Ascii.eqb c "."%char = false →
  String.prefix (String "."%char r) (String c s) = false.
Proof.
  intros Hc. cbn [String.prefix].
  destruct (ascii_dec "."%char c) as [<-|]; [discriminate Hc | reflexivity].
Qed.

Lemma prefix_app (old s : string) : String.prefix old (old +:+ s) = true.
Proof.
  induction old as [|a old IH]; simpl.
  - by destruct s.
  - destruct (ascii_dec a a) as [_|Hne]; [exact IH | by destruct Hne].
Qed.

Lemma replace_from_no_dot (r new s : string) :
  no_dot s = true → replace_from (String "."%char r) new 0 s = s.
Proof.
  induction s as [|c s IH]; [done|].
  cbn [no_dot]. intros [Hc Hs]%andb_true_iff.
  apply negb_true_iff in Hc.
  cbn [replace_from]. rewrite prefix_not_dot by done.
  by rewrite IH.
Qed.

Lemma replace_from_app_no_dot (r new a s : string) :
  no_dot a = true →
  replace_from (String "."%char r) new 0 (a +:+ s)
  = a +:+ replace_from (String "."%char r) new 0 s.
Proof.
  induction a as [|c a IH]; [done|].
  cbn [no_dot]. intros [Hc Ha]%andb_true_iff.
  apply negb_true_iff in Hc.
  change (String c a +:+ s) with (String c (a +:+ s)).
  cbn [replace_from]. rewrite prefix_not_dot by done.
  by rewrite IH.
Qed.

Lemma replace_from_skip (old new t s : string) :
  replace_from old new (String.length t) (t +:+ s) = replace_from old new 0 s.
Proof.
  induction t as [|c t IH].
  - by destruct s.
  - change (String c t +:+ s) with (String c (t +:+ s)).
    cbn [String.length replace_from]. exact IH.
Qed.

Lemma replace_from_occurrence (r s : string) :
  replace_from (String "."%char r) "" 0 (String "."%char r +:+ s)
  = replace_from (String "."%char r) "" 0 s.
Proof.
  change (String "."%char r +:+ s) with (String "."%char (r +:+ s)).
  cbn [replace_from].
  change (String "."%char (r +:+ s)) with (String "."%char r +:+ s).
  rewrite prefix_app.
  cbn [String.length].
  replace (S (String.length r) - 1) with (String.length r) by lia.
  rewrite replace_from_skip. reflexivity.
Qed.

Lemma replace_from_other (r t : string) :
  String.prefix (String "."%char r) (String "."%char t) = false →
  no_dot t = true →
  replace_from (String "."%char r) "" 0 (String "."%char t) = String "."%char t.
Proof.
  intros Hp Ht. cbn [replace_from]. rewrite Hp.
  by rewrite replace_from_no_dot.
Qed.

Lemma no_dot_app (a b : string) :
  no_dot (a +:+ b) = no_dot a && no_dot b.
Proof.
  induction a as [|c a IH]; [done|].
  change (String c a +:+ b) with (String c (a +:+ b)).
  cbn [no_dot]. rewrite IH. by rewrite andb_assoc.
Qed.

Lemma strip_extensions_no_dot (s : string) :
  no_dot s = true → strip_extensions s = s.
Proof.
  intros Hs. unfold strip_extensions, str_replace.
  rewrite (replace_from_no_dot "dat" "" s) by done.
  rewrite (replace_from_no_dot "bak" "" s) by done.
  by rewrite (replace_from_no_dot "dir" "" s).
Qed.

Lemma strip_extensions_app (a ext b : string) :
  ext ∈ [".dat"; ".bak"; ".dir"] →
  no_dot a = true → no_dot b = true →
  strip_extensions (a +:+ ext +:+ b) = a +:+ b.
Proof.
  intros Hext Ha Hb. unfold strip_extensions, str_replace.
  assert (Hab : no_dot (a +:+ b) = true) by (by rewrite no_dot_app, Ha, Hb).
  assert (Hskip : ∀ r t, no_dot t = true →
            String.prefix (String "."%char r) (String "."%char t) = false →
            replace_from (String "."%char r) "" 0 (a +:+ String "."%char t)
            = a +:+ String "."%char t).
  { intros r t Ht Hp.
    by rewrite replace_from_app_no_dot, replace_from_other. }
  assert (Hhit : ∀ r,
            replace_from (String "."%char r) "" 0 (a +:+ String "."%char r +:+ b)
            = a +:+ b).
  { intros r.
    by rewrite replace_from_app_no_dot, replace_from_occurrence,
      replace_from_no_dot. }
  repeat (apply elem_of_cons in Hext as [->|Hext]);
    [| | |by apply elem_of_nil in Hext].
  - rewrite Hhit.
    rewrite (replace_from_no_dot "bak" "" (a +:+ b)) by done.
    by rewrite (replace_from_no_dot "dir" "" (a +:+ b)).
  - change (".bak" +:+ b) with (String "."%char ("bak" +:+ b)).
    rewrite (Hskip "dat" ("bak" +:+ b)); [| by rewrite no_dot_app, Hb | done].
    change (String "."%char ("bak" +:+ b)) with (".bak" +:+ b).
    rewrite (Hhit "bak").
    by rewrite (replace_from_no_dot "dir" "" (a +:+ b)).
  - change (".dir" +:+ b) with (String "."%char ("dir" +:+ b)).
    rewrite (Hskip "dat" ("dir" +:+ b)); [| by rewrite no_dot_app, Hb | done].
    rewrite (Hskip "bak" ("dir" +:+ b)); [| by rewrite no_dot_app, Hb | done].
    change (String "."%char ("dir" +:+ b)) with (".dir" +:+ b).
    exact (Hhit "dir").
Qed.

Lemma strip_extensions_shelf_file (b ext : string) :
  no_dot b = true → ext ∈ shelf_extensions →
  strip_extensions (b +:+ ext) = b.
Proof.
  intros Hb Hext.
  assert (Hnil : ∀ t : string, t +:+ "" = t).
  { induction t as [|c t IH]; [done|].
    change (String c t +:+ "") with (String c (t +:+ "")). by rewrite IH. }
  apply elem_of_cons in Hext as [->|Hext].
  - rewrite Hnil. by apply strip_extensions_no_dot.
  - rewrite <- (Hnil b) at 2.
    repeat (apply elem_of_cons in Hext as [->|Hext]);
      [| | |by apply elem_of_nil in Hext].
    + by apply (strip_extensions_app b ".dat" ""); [set_solver| |].
    + by apply (strip_extensions_app b ".bak" ""); [set_solver| |].
    + by apply (strip_extensions_app b ".dir" ""); [set_solver| |].
Qed.

(** X20. [main], lines 240 to 243. Removing the extensions removes the
    text [.dat], [.bak] or [.dir] wherever it stands in the path, not only
    at its end: a path made of a part without dots, one of the three
    extensions and a further part without dots is turned into the two parts
    joined. *)
Theorem strip_extensions_removes_anywhere (a ext b : string) :
  ext ∈ [".dat"; ".bak"; ".dir"] →
  no_dot a = true → no_dot b = true →
  strip_extensions (a +:+ ext +:+ b) = a +:+ b.
Proof. apply strip_extensions_app. Qed.

Lemma strip_extensions_removes_anywhere_witness :
  strip_extensions "sample.database" = "sampleabase".
Proof.
  apply (strip_extensions_removes_anywhere "sample" ".dat" "abase");
    [| reflexivity | reflexivity].
  apply list_elem_of_here.
Defined.

(** X21. [main], lines 232 to 243. The paths handed to the loaders name
    every shelf once: when the paths given by the pattern and by [--infiles]
    are, for shelves with distinct names without dots, the name alone or the
    name with [.dat], [.bak] or [.dir], and every shelf is given at least
    once, the list of input paths is a permutation of the names of the
    shelves. *)
Theorem main_infiles_one_path_per_shelf
    (glob_glob : string → list string) (args : arguments)
    (bases : list string) :
  NoDup bases →
  Forall (λ b, no_dot b = true) bases →
  (∀ x, x ∈ main_infiles_given glob_glob args →
        ∃ b ext, b ∈ bases ∧ ext ∈ shelf_extensions ∧ x = b +:+ ext) →
  (∀ b, b ∈ bases →
        ∃ ext, ext ∈ shelf_extensions
               ∧ b +:+ ext ∈ main_infiles_given glob_glob args) →
  main_infiles glob_glob args ≡ₚ bases.
Proof.
  intros Hnd Hdots Hgiven Hall. unfold main_infiles.
  rewrite Forall_forall in Hdots.
  assert (Hset : (list_to_set (strip_extensions <$> main_infiles_given glob_glob args)
                  : gset string) = list_to_set bases).
  { apply set_eq. intros y.
    rewrite !elem_of_list_to_set, list_elem_of_fmap. split.
    - intros (x & -> & Hx).
      destruct (Hgiven x Hx) as (b & ext & Hb & Hext & ->).
      by rewrite strip_extensions_shelf_file by auto.
    - intros Hy. destruct (Hall y Hy) as (ext & Hext & Hin).
      exists (y +:+ ext). split; [|done].
      by rewrite strip_extensions_shelf_file by auto. }
  destruct (main_infiles_given glob_glob args) as [|x given] eqn:Hg.
  - destruct bases as [|b bases]; [done|].
    destruct (Hall b) as (ext & _ & Hin); [apply list_elem_of_here|].
    by apply elem_of_nil in Hin.
  - cbv zeta. rewrite Hset. by apply elements_list_to_set.
Qed.

Lemma main_infiles_one_path_per_shelf_witness :
  main_infiles glob_two args_glob ≡ₚ ["s1"; "s2"].
Proof.
  apply (main_infiles_one_path_per_shelf glob_two args_glob ["s1"; "s2"]).
  - apply NoDup_cons. split; [|apply NoDup_singleton].
    intros H%list_elem_of_singleton. discriminate H.
  - repeat constructor.
  - intros x Hx. cbv in Hx.
    repeat (apply elem_of_cons in Hx as [->|Hx]).
    + exists "s1", ".dat". split; [|split]; [| |reflexivity]; set_solver.
    + exists "s1", ".bak". split; [|split]; [| |reflexivity]; set_solver.
    + exists "s1", ".dir". split; [|split]; [| |reflexivity]; set_solver.
    + exists "s2", "". split; [|split]; [| |reflexivity]; set_solver.
    + by apply elem_of_nil in Hx.
  - intros b Hb.
    repeat (apply elem_of_cons in Hb as [->|Hb]).
    + exists ".dat". split; [|cbv]; set_solver.
    + exists "". split; [|cbv]; set_solver.
    + by apply elem_of_nil in Hb.
Defined.

(** X22. [main], lines 210 to 252. The per-contig merge never runs: asked
    for without a region and without a file of regions the script prints the
    message on stderr and exits with status 1, and asked for with either of
    them it raises AttributeError at the read of [args.contig_file], an
    attribute the parsed arguments do not have; in both cases no shelf has
    been opened and nothing has been written. *)
Theorem main_per_contig_mode_never_merges
    (glob_glob : string → list string) (wssd_open : string → h5file)
    (fuel : nat) (env : environment) (elapsed : Z)
    (args : arguments) (fout : h5file) (w : world) :
  per_contig_merge args = true →
  main glob_glob wssd_open fuel env elapsed args fout w
  = match contigs_file args, contig args with
    | None, None =>
        (log (Stderr "Must specify --contigs_file or --contig for per_contig_merge") w,
         Raise (SystemExit 1))
    | _, _ => (w, Raise AttributeError)
    end.
Proof.
  intros Hmode. unfold main, main_contig_list, bind. rewrite Hmode.
  by destruct (contigs_file args), (contig args).
Qed.

Lemma main_per_contig_mode_never_merges_witness :
  main glob_two (λ _, h5_empty) 0 env_nothing 0 args_per_contig h5_empty world0
  = (world0, Raise AttributeError).
Proof.
  apply (main_per_contig_mode_never_merges
           glob_two (λ _, h5_empty) 0 env_nothing 0 args_per_contig
           h5_empty world0).
  reflexivity.
Defined.

(** X23. [main], lines 232 to 279. With no input path at all the merge of
    everything at once succeeds, live or not and whatever the fuel: no shelf
    is opened, the script does not sleep, it prints its three lines, and the
    output file is left as it was found but for the group, which is created
    when missing; no array is written. *)
Theorem main_merge_of_nothing
    (glob_glob : string → list string) (wssd_open : string → h5file)
    (fuel : nat) (env : environment) (elapsed : Z)
    (args : arguments) (fout : h5file) (w : world) :
  per_contig_merge args = false →
  wssd_merge args = None →
  main_infiles_given glob_glob args = [] →
  main glob_glob wssd_open fuel env elapsed args fout w
  = (log (Stdout ("Finished writing wssd_out_file in " +:+ pretty elapsed
                  +:+ " seconds. Closing."))
       (log (Stdout ("Successfully opened outfile: " +:+ outfile args))
          (log (Stdout ("Finished loading shelves. Creating h5 file: "
                        +:+ outfile args)) w)),
     Ok (get_or_create_group fout)).
Proof.
  intros Hmode Hwssd Hgiven.
  unfold main, main_contig_list, main_infiles, main_merge.
  rewrite Hmode, Hwssd, Hgiven.
  destruct (live_merge args).
  - unfold bind, load_matrices_live. cbn [list_to_set foldr].
    destruct fuel; cbn [poll_loop]; by rewrite size_empty.
  - reflexivity.
Qed.

Lemma main_merge_of_nothing_witness :
  main (λ _, []) (λ _, h5_empty) 0 env_nothing 7
    (Args "out.h5" None (Some "shelves/*") true None None false None)
    h5_empty world0
  = (log (Stdout "Finished writing wssd_out_file in 7 seconds. Closing.")
       (log (Stdout "Successfully opened outfile: out.h5")
          (log (Stdout "Finished loading shelves. Creating h5 file: out.h5")
             world0)),
     Ok (get_or_create_group h5_empty)).
Proof.
  apply (main_merge_of_nothing (λ _, []) (λ _, h5_empty) 0 env_nothing 7
           (Args "out.h5" None (Some "shelves/*") true None None false None)
           h5_empty world0); reflexivity.
Defined.
